(** * Sysco product scraper: persistence gateway, retry policy and
      traversal engine

    A shallow embedding of the JavaScript sources

    - [src/database/sysco-models.js]    ([SyscoModels], [Gateway],
                                         [Queries], [CsvExport]),
    - [src/utils/helpers.js]            ([Helpers], [Probe]),
    - [src/config/sysco-config.js]      ([Config], [Text], [Environment]),
    - [src/scrapers/sysco-paginated.js] ([Scraper]),

    followed by the properties of the specification that are settled on
    them, and by further properties of the same functions.

    Asynchronous functions are run to completion one after the other (the
    program has a single flow of control), so an [async] function becomes
    a state transformer that either returns a value or throws ([Async]).
    The state of a run ([Run.World]) is the environment (browser page,
    clock, file system: [Puppeteer.Driver]), the table [sysco_products]
    and the log.  The browser and the site are not part of the program:
    they are an arbitrary driver, and [Site] scripts two concrete ones on
    which the functions can be run.  The logger calls of
    [sysco-paginated.js] and [helpers.js] are kept, as entries of the log;
    those of [sysco-models.js] are not. *)

From Stdlib Require Import ZArith String Ascii List Bool Lia DecimalString.
From Stdlib Require Import DecimalZ DecimalPos Permutation Sorted.
Import ListNotations.

Local Open Scope string_scope.
Local Open Scope Z_scope.

(* ================================================================== *)
(** * JavaScript values and string helpers *)
(* ================================================================== *)

Module JS.

(** The property values a product object carries in this program: a
    missing property, [null], or a string. *)
Inductive value : Type :=
| Undefined
| Null
| Str (s : string).

(** [s.includes(sub)] *)
Fixpoint includes (s sub : string) : bool :=
  if String.prefix sub s then true
  else match s with
       | EmptyString => false
       | String _ s' => includes s' sub
       end.

(** [x || d] on strings: the empty string is falsy. *)
Definition or_else (x d : string) : string :=
  if String.eqb x "" then d else x.

(** Truthiness of a string. *)
Definition truthy (x : string) : bool := negb (String.eqb x "").

(** ** White space

    Strings are held in UTF-8.  The white space that [trim] and
    [parseInt] strip is: TAB, LF, VT, FF, CR and the space among the
    ASCII characters, then U+00A0, U+1680, U+2000 to U+200A, U+2028,
    U+2029, U+202F, U+205F, U+3000 and U+FEFF. *)
Definition is_whitespace (c : ascii) : bool :=
  match c with
  | " "%char | "009"%char | "010"%char | "011"%char | "012"%char | "013"%char => true
  | _ => false
  end.

Definition byte_is (c : ascii) (n : nat) : bool := Nat.eqb (nat_of_ascii c) n.

(** The number of bytes of the white space character that [s] starts
    with; 0 when it starts with none. *)
Definition whitespace_length (s : string) : nat :=
  match s with
  | EmptyString => 0
  | String c s1 =>
      if is_whitespace c then 1
      else if byte_is c 194 then
        match s1 with
        | String c1 _ => if byte_is c1 160 then 2 else 0
        | _ => 0
        end
      else if byte_is c 225 || byte_is c 226 || byte_is c 227 || byte_is c 239 then
        match s1 with
        | String c1 (String c2 _) =>
            let n2 := nat_of_ascii c2 in
            if byte_is c 225 then
              if byte_is c1 154 && byte_is c2 128 then 3 else 0
            else if byte_is c 226 then
              if byte_is c1 128
                 && (((128 <=? n2) && (n2 <=? 138))
                     || byte_is c2 168 || byte_is c2 169 || byte_is c2 175)
              then 3
              else if byte_is c1 129 && byte_is c2 159 then 3 else 0
            else if byte_is c 227 then
              if byte_is c1 128 && byte_is c2 128 then 3 else 0
            else
              if byte_is c1 187 && byte_is c2 191 then 3 else 0
        | _ => 0
        end
      else 0
  end%nat.

(** [skip] bytes are dropped, then every white space character that
    follows. *)
Fixpoint trim_start_from (skip : nat) (s : string) : string :=
  match s with
  | EmptyString => EmptyString
  | String _ s' =>
      match skip with
      | S k => trim_start_from k s'
      | O =>
          match whitespace_length s with
          | O => s
          | S k => trim_start_from k s'
          end
      end
  end.

(** [s.trimStart()] *)
Definition trim_start (s : string) : string := trim_start_from 0 s.

(** The text is white space only. *)
Definition blank (s : string) : bool := String.eqb (trim_start s) "".

(** [s.trimEnd()]: the text up to the point from which only white space
    follows. *)
Fixpoint trim_end (s : string) : string :=
  match s with
  | EmptyString => EmptyString
  | String c s' => if blank s then "" else String c (trim_end s')
  end.

(** [s.trim()] *)
Definition trim (s : string) : string := trim_end (trim_start s).

(** The double quote character, and a quoted piece of selector text. *)
Definition dquote : string := String "034"%char "".
Definition quoted (s : string) : string := dquote ++ s ++ dquote.

(** Decimal text of an integer, as a template literal prints it. *)
Definition string_of_Z (n : Z) : string := NilZero.string_of_int (Z.to_int n).

Definition is_digit (c : ascii) : bool :=
  (48 <=? nat_of_ascii c)%nat && (nat_of_ascii c <=? 57)%nat.

Fixpoint take_digits (s : string) : string :=
  match s with
  | EmptyString => EmptyString
  | String c s' => if is_digit c then String c (take_digits s') else EmptyString
  end.

(** [parseInt] of a non-empty run of decimal digits: the integer that
    the digits write.  It is the number the code computes as long as it
    is below [2 ^ 53]; a page number beyond that is not exact in the
    code. *)
Definition parseInt_digits (ds : string) : Z :=
  fold_left (fun acc c => acc * 10 + Z.of_nat (nat_of_ascii c - 48))
            (list_ascii_of_string ds) 0.

(** [s.match(/button_page_(\d+)/)]: the first capture group of the
    leftmost match, if the text matches at all. *)
Fixpoint match_button_page (s : string) : option string :=
  let here :=
    if String.prefix "button_page_" s
    then let ds := take_digits (String.substring 12 (String.length s - 12) s) in
         if String.eqb ds "" then None else Some ds
    else None in
  match here with
  | Some ds => Some ds
  | None => match s with
            | EmptyString => None
            | String _ s' => match_button_page s'
            end
  end.

(** The text a template literal prints for a value. *)
Definition to_string (v : value) : string :=
  match v with
  | Undefined => "undefined"
  | Null => "null"
  | Str s => s
  end.

(** Truthiness of a value that is missing, [null] or a string. *)
Definition truthy_value (v : value) : bool :=
  match v with
  | Str s => negb (String.eqb s "")
  | _ => false
  end.

(** An [Error] object: its [name] and its [message]. *)
Record error : Type := mkError { name : string; message : string }.

Definition Error (msg : string) : error := mkError "Error" msg.

(** Outcome of running a function body: a returned value or a thrown
    error. *)
Inductive outcome (A : Type) : Type :=
| Ok (a : A)
| Throw (e : error).
Arguments Ok {A} a.
Arguments Throw {A} e.

(** Whether a call returned (its promise resolved). *)
Definition resolved {A : Type} (o : outcome A) : bool :=
  match o with Ok _ => true | Throw _ => false end.

(** [[...new Set(xs)]]: duplicates removed, first occurrences kept in
    order. *)
Fixpoint dedupe_from (seen xs : list string) : list string :=
  match xs with
  | [] => []
  | x :: xs' =>
      if existsb (String.eqb x) seen then dedupe_from seen xs'
      else x :: dedupe_from (x :: seen) xs'
  end.

Definition new_Set (xs : list string) : list string := dedupe_from [] xs.

End JS.

(* ================================================================== *)
(** * The logger and the monad of asynchronous functions *)
(* ================================================================== *)

Module Logger.

Inductive level : Type := info | warn | error.

Inductive arg : Type :=
| S (s : string)
| N (n : Z).

(** One call of the logger: its level, the text of the message with a
    hole [%] for each interpolated expression, and the values of those
    expressions in order. *)
Record entry : Type := mk {
  lvl : level;
  template : string;
  args : list arg
}.

End Logger.

Module Async.

(** An asynchronous function over a state [St]: run to completion, it
    returns or throws, and leaves a new state. *)
Definition M (St A : Type) : Type := St -> JS.outcome A * St.

Definition ret {St A} (a : A) : M St A := fun s => (JS.Ok a, s).

Definition throw {St A} (e : JS.error) : M St A := fun s => (JS.Throw e, s).

Definition bind {St A B} (m : M St A) (k : A -> M St B) : M St B :=
  fun s =>
    match m s with
    | (JS.Ok a, s') => k a s'
    | (JS.Throw e, s') => (JS.Throw e, s')
    end.

(** [try { m } catch (e) { h e }] *)
Definition try_catch {St A} (m : M St A) (h : JS.error -> M St A) : M St A :=
  fun s =>
    match m s with
    | (JS.Ok a, s') => (JS.Ok a, s')
    | (JS.Throw e, s') => h e s'
    end.

(** What a piece of the runtime does to the state: the passing of
    time and the logger. *)
Class Runtime (St : Type) : Type := {
  sleep : Z -> St -> St;
  write_log : Logger.entry -> St -> St
}.

(** [await delay(ms)] *)
Definition delay {St} `{Runtime St} (ms : Z) : M St unit :=
  fun s => (JS.Ok tt, sleep ms s).

Definition log {St} `{Runtime St} (l : Logger.level) (template : string)
    (args : list Logger.arg) : M St unit :=
  fun s => (JS.Ok tt, write_log (Logger.mk l template args) s).

(** An operation instrumented to record the outcome of each of its
    invocations. *)
Definition recorded {St A} (operation : M St A)
  : M (St * list (JS.outcome A)) A :=
  fun sh =>
    let '(o, s') := operation (fst sh) in
    (o, (s', (snd sh ++ [o])%list)).

#[export] Instance Runtime_recorded {St H} `{Runtime St} : Runtime (St * H) := {
  sleep ms sh := (sleep ms (fst sh), snd sh);
  write_log e sh := (write_log e (fst sh), snd sh)
}.

End Async.

Declare Scope async_scope.
Delimit Scope async_scope with async.
Notation "x <- m ;; k" := (Async.bind m (fun x => k))
  (at level 61, m at next level, right associativity) : async_scope.
Notation "m ;; k" := (Async.bind m (fun _ => k))
  (at level 61, right associativity) : async_scope.

(* ================================================================== *)
(** * [sysco-models.js]: the [sysco_products] table and its upsert *)
(* ================================================================== *)

Module SyscoModels.

(** A column value: [NULL] or [TEXT]. *)
Definition sql : Type := option string.

(** [CURRENT_TIMESTAMP], as seconds. *)
Definition timestamp : Type := Z.

(** The object handed to [upsertProduct], with the properties that the
    function destructures. *)
Module ProductData.
Record t : Type := mk {
  sku : JS.value;
  product_name : JS.value;
  brand_name : JS.value;
  packaging_information : JS.value;
  packaging_size : JS.value;
  picture_url : JS.value;
  description : JS.value;
  category : JS.value;
  product_url : JS.value;
  unit_size : JS.value;
  case_size : JS.value;
  weight : JS.value;
  upc : JS.value;
  gtin : JS.value;
  supplier : JS.value;
  manufacturer : JS.value;
  specifications : JS.value;
  nutrition_info : JS.value;
  ingredients : JS.value;
  allergens : JS.value;
  storage_instructions : JS.value;
  shelf_life : JS.value;
  location_zip : JS.value;
  structured_data : JS.value
}.
End ProductData.

(** One row of [sysco_products] (the columns of [createTable], in the
    order of the [CREATE TABLE] statement). *)
Module Row.
Record t : Type := mk {
  id : Z;
  sku : sql;
  product_name : sql;
  brand_name : sql;
  packaging_information : sql;
  packaging_size : sql;
  picture_url : sql;
  description : sql;
  category : sql;
  product_url : sql;
  unit_size : sql;
  case_size : sql;
  weight : sql;
  upc : sql;
  gtin : sql;
  supplier : sql;
  manufacturer : sql;
  specifications : sql;
  nutrition_info : sql;
  ingredients : sql;
  allergens : sql;
  storage_instructions : sql;
  shelf_life : sql;
  location_zip : sql;
  scraped_date : timestamp;
  updated_date : timestamp;
  scrape_session_id : sql;
  structured_data : sql
}.
End Row.

(** The open connection: the table's rows in insertion order, the
    AUTOINCREMENT counter and [last_insert_rowid].  The table is assumed
    to exist ([createTable] has run) and the storage medium not to fail;
    the only errors a statement raises are constraint violations. *)
Record database : Type := mkDb {
  rows : list Row.t;
  seq : Z;
  last_insert_rowid : Z
}.

Definition empty_db : database := mkDb [] 0 0.

Inductive sqlite_error : Type :=
| NotNull_product_name  (* NOT NULL constraint failed: sysco_products.product_name *)
| Unique_sku.           (* UNIQUE constraint failed: sysco_products.sku *)

Definition error_of (e : sqlite_error) : JS.error :=
  match e with
  | NotNull_product_name =>
      JS.Error "SQLITE_CONSTRAINT: NOT NULL constraint failed: sysco_products.product_name"
  | Unique_sku =>
      JS.Error "SQLITE_CONSTRAINT: UNIQUE constraint failed: sysco_products.sku"
  end.

(** Binding of a statement parameter: [undefined] and [null] bind as
    NULL. *)
Definition bind (v : JS.value) : sql :=
  match v with
  | JS.Str s => Some s
  | JS.Undefined | JS.Null => None
  end.

(** [typeof x === 'object' ? JSON.stringify(x) : x], then bound.
    [typeof null] is ['object'] and [JSON.stringify(null)] is the text
    [null]. *)
Definition bind_json (v : JS.value) : sql :=
  match v with
  | JS.Str s => Some s
  | JS.Null => Some "null"
  | JS.Undefined => None
  end.

(** The destructuring default [location_zip = '97209'] applies to a
    missing property only. *)
Definition location_zip_or_default (v : JS.value) : JS.value :=
  match v with
  | JS.Undefined => JS.Str "97209"
  | _ => v
  end.

(** Text equality of two column values for a UNIQUE constraint: NULL is
    distinct from every value, NULL included. *)
Definition sql_conflict (a b : sql) : bool :=
  match a, b with
  | Some x, Some y => String.eqb x y
  | _, _ => false
  end.

(** A row violates [UNIQUE(sku, location_zip)] against the values to
    insert. *)
Definition conflicts_key (sku zip : sql) (r : Row.t) : bool :=
  sql_conflict (Row.sku r) sku && sql_conflict (Row.location_zip r) zip.

(** A row violates the column constraint [sku TEXT UNIQUE]. *)
Definition conflicts_sku (sku : sql) (r : Row.t) : bool :=
  sql_conflict (Row.sku r) sku.

(** The row built by the [INSERT ... VALUES (?, ..., ?)] part, with the
    column defaults for the two dates ([excluded] in the conflict
    clause). *)
Definition excluded_row (now : timestamp) (new_id : Z)
    (p : ProductData.t) (sessionId : JS.value) : Row.t :=
  {| Row.id := new_id;
     Row.sku := bind (ProductData.sku p);
     Row.product_name := bind (ProductData.product_name p);
     Row.brand_name := bind (ProductData.brand_name p);
     Row.packaging_information := bind (ProductData.packaging_information p);
     Row.packaging_size := bind (ProductData.packaging_size p);
     Row.picture_url := bind (ProductData.picture_url p);
     Row.description := bind (ProductData.description p);
     Row.category := bind (ProductData.category p);
     Row.product_url := bind (ProductData.product_url p);
     Row.unit_size := bind (ProductData.unit_size p);
     Row.case_size := bind (ProductData.case_size p);
     Row.weight := bind (ProductData.weight p);
     Row.upc := bind (ProductData.upc p);
     Row.gtin := bind (ProductData.gtin p);
     Row.supplier := bind (ProductData.supplier p);
     Row.manufacturer := bind (ProductData.manufacturer p);
     Row.specifications := bind_json (ProductData.specifications p);
     Row.nutrition_info := bind_json (ProductData.nutrition_info p);
     Row.ingredients := bind (ProductData.ingredients p);
     Row.allergens := bind (ProductData.allergens p);
     Row.storage_instructions := bind (ProductData.storage_instructions p);
     Row.shelf_life := bind (ProductData.shelf_life p);
     Row.location_zip := bind (location_zip_or_default (ProductData.location_zip p));
     Row.scraped_date := now;
     Row.updated_date := now;
     Row.scrape_session_id := bind sessionId;
     Row.structured_data := bind_json (ProductData.structured_data p) |}.

(** [ON CONFLICT(sku, location_zip) DO UPDATE SET ...]: the assignments
    of the statement; [id], [sku], [location_zip] and [scraped_date] are
    not assigned. *)
Definition do_update (now : timestamp) (excluded old : Row.t) : Row.t :=
  {| Row.id := Row.id old;
     Row.sku := Row.sku old;
     Row.product_name := Row.product_name excluded;
     Row.brand_name := Row.brand_name excluded;
     Row.packaging_information := Row.packaging_information excluded;
     Row.packaging_size := Row.packaging_size excluded;
     Row.picture_url := Row.picture_url excluded;
     Row.description := Row.description excluded;
     Row.category := Row.category excluded;
     Row.product_url := Row.product_url excluded;
     Row.unit_size := Row.unit_size excluded;
     Row.case_size := Row.case_size excluded;
     Row.weight := Row.weight excluded;
     Row.upc := Row.upc excluded;
     Row.gtin := Row.gtin excluded;
     Row.supplier := Row.supplier excluded;
     Row.manufacturer := Row.manufacturer excluded;
     Row.specifications := Row.specifications excluded;
     Row.nutrition_info := Row.nutrition_info excluded;
     Row.ingredients := Row.ingredients excluded;
     Row.allergens := Row.allergens excluded;
     Row.storage_instructions := Row.storage_instructions excluded;
     Row.shelf_life := Row.shelf_life excluded;
     Row.location_zip := Row.location_zip old;
     Row.scraped_date := Row.scraped_date old;
     Row.updated_date := now;
     Row.scrape_session_id := Row.scrape_session_id excluded;
     Row.structured_data := Row.structured_data excluded |}.

(** What [upsertProduct] resolves with. *)
Record upsert_result : Type := mkResult {
  isNew : bool;
  result_id : option Z;
  changes : Z
}.

(** [this.lastID || null] *)
Definition lastID_or_null (lastID : Z) : option Z :=
  if lastID =? 0 then None else Some lastID.

Definition resolve_with (lastID chg : Z) : upsert_result :=
  {| isNew := (0 <? chg) && (0 <? lastID);
     result_id := lastID_or_null lastID;
     changes := chg |}.

(** Execution of the upsert statement.  The NOT NULL check comes first;
    a conflict on the statement's conflict target [(sku, location_zip)]
    runs the update; a conflict on any other uniqueness constraint (here
    the column constraint on [sku]) aborts the statement.  The id for
    the new row is drawn before the conflict is looked for, so a
    statement that updates advances the AUTOINCREMENT counter as one
    that inserts does, and leaves a gap in the ids; a statement that
    aborts leaves the counter alone. *)
Definition run_upsert (now : timestamp) (p : ProductData.t)
    (sessionId : JS.value) (db : database)
  : (sqlite_error + upsert_result) * database :=
  let excluded := excluded_row now (seq db + 1) p sessionId in
  match Row.product_name excluded with
  | None => (inl NotNull_product_name, db)
  | Some _ =>
      if existsb (conflicts_key (Row.sku excluded) (Row.location_zip excluded))
                 (rows db)
      then
        let rows' :=
          map (fun r =>
                 if conflicts_key (Row.sku excluded) (Row.location_zip excluded) r
                 then do_update now excluded r else r)
              (rows db) in
        (inr (resolve_with (last_insert_rowid db) 1),
         mkDb rows' (seq db + 1) (last_insert_rowid db))
      else if existsb (conflicts_sku (Row.sku excluded)) (rows db)
      then (inl Unique_sku, db)
      else
        (inr (resolve_with (seq db + 1) 1),
         mkDb (rows db ++ [excluded]) (seq db + 1) (seq db + 1))
  end.

(** [upsertProduct(productData, sessionId = null)]: the promise is
    rejected with the statement's error or resolved with its result. *)
Definition upsertProduct (now : timestamp) (productData : ProductData.t)
    (sessionId : JS.value) (db : database)
  : JS.outcome upsert_result * database :=
  match run_upsert now productData sessionId db with
  | (inl err, db') => (JS.Throw (error_of err), db')
  | (inr res, db') => (JS.Ok res, db')
  end.

(** The object [batchUpsertProducts] returns. *)
Record batch_result : Type := mkBatch { saved : Z; errors : Z }.

(** The [for] loop of [batchUpsertProducts], from index [i] on.
    [clock i] is the value of [CURRENT_TIMESTAMP] when the statement for
    [productsArray[i]] runs. *)
Fixpoint batch_loop (clock : nat -> timestamp) (sessionId : JS.value)
    (i : nat) (productsArray : list ProductData.t)
    (acc : batch_result) (db : database) : batch_result * database :=
  match productsArray with
  | [] => (acc, db)
  | product :: rest =>
      match upsertProduct (clock i) product sessionId db with
      | (JS.Ok _, db') =>
          batch_loop clock sessionId (S i) rest
            (mkBatch (saved acc + 1) (errors acc)) db'
      | (JS.Throw _, db') =>
          batch_loop clock sessionId (S i) rest
            (mkBatch (saved acc) (errors acc + 1)) db'
      end
  end.

(** [batchUpsertProducts(productsArray, sessionId = null)] *)
Definition batchUpsertProducts (clock : nat -> timestamp)
    (productsArray : list ProductData.t) (sessionId : JS.value)
    (db : database) : batch_result * database :=
  match productsArray with
  | [] => (mkBatch 0 0, db)
  | _ => batch_loop clock sessionId 0 productsArray (mkBatch 0 0) db
  end.

(** ** Observations on the store used by the statements below *)

(** The key of a product object as the statement binds it. *)
Definition key_sku (p : ProductData.t) : sql := bind (ProductData.sku p).
Definition key_zip (p : ProductData.t) : sql :=
  bind (location_zip_or_default (ProductData.location_zip p)).

(** Rows stored under a key [(sku, location_zip)]. *)
Definition rows_with_key (sku zip : sql) (db : database) : list Row.t :=
  filter (conflicts_key sku zip) (rows db).

(** Rows stored under a [sku], whatever their location. *)
Definition rows_with_sku (sku : sql) (db : database) : list Row.t :=
  filter (conflicts_sku sku) (rows db).

Definition sql_eqb (a b : sql) : bool :=
  match a, b with
  | Some x, Some y => String.eqb x y
  | None, None => true
  | _, _ => false
  end.

(** A row holds the key columns that the statement binds for [p]. *)
Definition row_of_product (p : ProductData.t) (r : Row.t) : bool :=
  sql_eqb (Row.sku r) (key_sku p) && sql_eqb (Row.location_zip r) (key_zip p).

(** [p] is present in storage: some row carries its key columns. *)
Definition stored (p : ProductData.t) (db : database) : bool :=
  existsb (row_of_product p) (rows db).

(** The columns that the conflict clause assigns from [excluded]: the
    descriptive attributes, the session token and the structured blob. *)
Definition assigned_columns (r : Row.t) : list sql :=
  [ Row.product_name r; Row.brand_name r; Row.packaging_information r;
    Row.packaging_size r; Row.picture_url r; Row.description r;
    Row.category r; Row.product_url r; Row.unit_size r; Row.case_size r;
    Row.weight r; Row.upc r; Row.gtin r; Row.supplier r;
    Row.manufacturer r; Row.specifications r; Row.nutrition_info r;
    Row.ingredients r; Row.allergens r; Row.storage_instructions r;
    Row.shelf_life r; Row.scrape_session_id r; Row.structured_data r ].

(** The same columns as one call's arguments bind them. *)
Definition bound_columns (p : ProductData.t) (sessionId : JS.value) : list sql :=
  assigned_columns (excluded_row 0 0 p sessionId).

(** Per-record outcomes of the loop of [batchUpsertProducts], each on the
    store its predecessors left. *)
Fixpoint batch_outcomes (clock : nat -> timestamp) (sessionId : JS.value)
    (i : nat) (productsArray : list ProductData.t) (db : database)
  : list bool :=
  match productsArray with
  | [] => []
  | product :: rest =>
      let '(o, db') := upsertProduct (clock i) product sessionId db in
      JS.resolved o :: batch_outcomes clock sessionId (S i) rest db'
  end.

Definition successes (outs : list bool) : Z :=
  Z.of_nat (length (filter (fun b => b) outs)).
Definition failures (outs : list bool) : Z :=
  Z.of_nat (length (filter negb outs)).

(** The store's own uniqueness invariant: no two rows share a non-NULL
    [sku], and [product_name] is never NULL. *)
Fixpoint sku_unique (rs : list Row.t) : bool :=
  match rs with
  | [] => true
  | r :: rs' => negb (existsb (conflicts_sku (Row.sku r)) rs') && sku_unique rs'
  end.

Definition well_formed (db : database) : bool :=
  sku_unique (rows db)
  && forallb (fun r => match Row.product_name r with Some _ => true | None => false end)
             (rows db).

(** A product object with the given sku, name, brand and location, and
    no other property. *)
Definition sample (sku name brand zip : string) : ProductData.t :=
  {| ProductData.sku := JS.Str sku;
     ProductData.product_name := JS.Str name;
     ProductData.brand_name := JS.Str brand;
     ProductData.packaging_information := JS.Undefined;
     ProductData.packaging_size := JS.Undefined;
     ProductData.picture_url := JS.Undefined;
     ProductData.description := JS.Undefined;
     ProductData.category := JS.Undefined;
     ProductData.product_url := JS.Undefined;
     ProductData.unit_size := JS.Undefined;
     ProductData.case_size := JS.Undefined;
     ProductData.weight := JS.Undefined;
     ProductData.upc := JS.Undefined;
     ProductData.gtin := JS.Undefined;
     ProductData.supplier := JS.Undefined;
     ProductData.manufacturer := JS.Undefined;
     ProductData.specifications := JS.Undefined;
     ProductData.nutrition_info := JS.Undefined;
     ProductData.ingredients := JS.Undefined;
     ProductData.allergens := JS.Undefined;
     ProductData.storage_instructions := JS.Undefined;
     ProductData.shelf_life := JS.Undefined;
     ProductData.location_zip := JS.Str zip;
     ProductData.structured_data := JS.Undefined |}.

(** A store that already holds sku 7012345 for location 97209. *)
Definition store_with_other_location : database :=
  snd (upsertProduct 100 (sample "7012345" "Gala apples" "Sysco" "97209")
         JS.Null empty_db).

(** A product object that lacks [product_name]. *)
Definition nameless (sku zip : string) : ProductData.t :=
  {| ProductData.sku := JS.Str sku;
     ProductData.product_name := JS.Undefined;
     ProductData.brand_name := JS.Undefined;
     ProductData.packaging_information := JS.Undefined;
     ProductData.packaging_size := JS.Undefined;
     ProductData.picture_url := JS.Undefined;
     ProductData.description := JS.Undefined;
     ProductData.category := JS.Undefined;
     ProductData.product_url := JS.Undefined;
     ProductData.unit_size := JS.Undefined;
     ProductData.case_size := JS.Undefined;
     ProductData.weight := JS.Undefined;
     ProductData.upc := JS.Undefined;
     ProductData.gtin := JS.Undefined;
     ProductData.supplier := JS.Undefined;
     ProductData.manufacturer := JS.Undefined;
     ProductData.specifications := JS.Undefined;
     ProductData.nutrition_info := JS.Undefined;
     ProductData.ingredients := JS.Undefined;
     ProductData.allergens := JS.Undefined;
     ProductData.storage_instructions := JS.Undefined;
     ProductData.shelf_life := JS.Undefined;
     ProductData.location_zip := JS.Str zip;
     ProductData.structured_data := JS.Undefined |}.

(** Five objects; the third cannot be stored. *)
Definition batch_of_five : list ProductData.t :=
  [ sample "1000001" "Carrots" "Sysco" "97209";
    sample "1000002" "Celery" "Sysco" "97209";
    nameless "1000003" "97209";
    sample "1000004" "Onions" "Sysco" "97209";
    sample "1000005" "Leeks" "Sysco" "97209" ].

End SyscoModels.

(* ================================================================== *)
(** * [helpers.js]: the retry policy and the error classifier *)
(* ================================================================== *)

Module Helpers.
Import Async.
Local Open Scope async_scope.

(** The options of [retry], after the destructuring defaults. *)
Record options : Type := mkOptions {
  maxRetries : Z;
  baseDelay : Z;
  exponentialBackoff : bool;
  retryCondition : JS.error -> bool
}.

Definition default_options : options :=
  {| maxRetries := 3;
     baseDelay := 1000;
     exponentialBackoff := true;
     retryCondition := fun _ => true |}.

Section Retry.
Context {St : Type} `{Runtime St} {A : Type}.

(** The two statements after the loop.  [lastError.message] is read
    before the logger is called; with no recorded error that read
    throws. *)
Definition after_loop (lastError : option JS.error) : M St A :=
  match lastError with
  | Some e =>
      log Logger.error "All retry attempts failed. Last error: %"
          [Logger.S (JS.message e)] ;;
      throw e
  | None =>
      throw (JS.mkError "TypeError"
               "Cannot read properties of undefined (reading 'message')")
  end.

(** The [for] loop from [attempt] on.  [fuel] bounds the iterations
    left; [retry] supplies as many as the loop can make. *)
Fixpoint retry_loop (fuel : nat) (operation : M St A) (o : options)
    (attempt : Z) (lastError : option JS.error) : M St A :=
  match fuel with
  | O => after_loop lastError
  | Datatypes.S fuel' =>
      if attempt <=? maxRetries o + 1 then
        try_catch
          (result <- operation ;;
           (if 1 <? attempt
            then log Logger.info "Operation successful after % attempts"
                     [Logger.N attempt]
            else ret tt) ;;
           ret result)
          (fun error =>
             log Logger.warn "Attempt % failed: %"
                 [Logger.N attempt; Logger.S (JS.message error)] ;;
             if negb (retryCondition o error) || (maxRetries o + 1 <=? attempt)
             then after_loop (Some error)
             else
               let retryDelay :=
                 if exponentialBackoff o
                 then baseDelay o * 2 ^ (attempt - 1)
                 else baseDelay o in
               log Logger.info "Waiting %ms before retry attempt %..."
                   [Logger.N retryDelay; Logger.N (attempt + 1)] ;;
               delay retryDelay ;;
               retry_loop fuel' operation o (attempt + 1) (Some error))
      else after_loop lastError
  end.

(** [retry(operation, options)] *)
Definition retry (operation : M St A) (o : options) : M St A :=
  retry_loop (Z.to_nat (maxRetries o + 1)) operation o 1 None.

End Retry.

(** ** Observations on a run of [retry] *)

(** Every recorded invocation threw. *)
Definition all_thrown {A : Type} (h : list (JS.outcome A)) : Prop :=
  Forall (fun x => JS.resolved x = false) h.

(** The iterations the loop can still make from [attempt] on. *)
Definition iterations_left (o : options) (attempt : Z) : nat :=
  Z.to_nat (maxRetries o + 2 - attempt).

(** The delay before the attempt that follows [attempt]. *)
Definition retryDelay_at (o : options) (attempt : Z) : Z :=
  if exponentialBackoff o then baseDelay o * 2 ^ (attempt - 1) else baseDelay o.

(** A runtime for a bare invocation counter: time and the logger leave
    it alone. *)
Definition Runtime_counter : Runtime nat :=
  {| sleep := fun _ s => s; write_log := fun _ s => s |}.

(** An operation that times out whenever it is invoked. *)
Definition always_timing_out : M nat string :=
  fun n => (JS.Throw (JS.mkError "TimeoutError" "Navigation timeout exceeded"),
            Datatypes.S n).

(** An operation that times out twice and then returns. *)
Definition third_time_lucky : M nat string :=
  fun n => if (n <? 2)%nat
           then (JS.Throw (JS.mkError "TimeoutError" "Navigation timeout exceeded"),
                 Datatypes.S n)
           else (JS.Ok "done", Datatypes.S n).

(** [shouldRetryError(error)] *)
Definition retryableErrors : list string :=
  [ "TimeoutError"; "ProtocolError"; "NetworkError"; "ECONNRESET";
    "ENOTFOUND"; "ECONNREFUSED"; "Failed to extract details" ].

Definition shouldRetryError (error : JS.error) : bool :=
  existsb (fun errorType =>
             JS.includes (JS.name error) errorType
             || JS.includes (JS.message error) errorType)
          retryableErrors.

End Helpers.

(* ================================================================== *)
(** * [sysco-config.js] *)
(* ================================================================== *)

Module Config.

(** The parts of [process.env] that the configuration reads.  A numeric
    variable is given as [parseInt] returns it: [None] stands for
    [NaN]. *)
Record environment : Type := mkEnvironment {
  SYSCO_LOCATION_ZIP : option string;
  MAX_PAGES_PER_CATEGORY : option Z;
  MAX_PRODUCTS_PER_CATEGORY : option Z;
  DELAY_PAGE_LOAD : option Z;
  DELAY_MODAL_HANDLING : option Z;
  DELAY_BETWEEN_PRODUCTS : option Z;
  DELAY_BETWEEN_CATEGORIES : option Z;
  DELAY_AFTER_CATEGORY_CLICK : option Z;
  DELAY_PAGINATION : option Z;
  DELAY_PRODUCT_DETAILS : option Z;
  MAX_RETRIES : option Z;
  RETRY_BASE_DELAY : option Z
}.

(** [parseInt(...) || d]: [NaN] and [0] are falsy. *)
Definition number_or (v : option Z) (d : Z) : Z :=
  match v with
  | None => d
  | Some n => if n =? 0 then d else n
  end.

(** [process.env.X || d] *)
Definition string_or (v : option string) (d : string) : string :=
  match v with
  | None => d
  | Some x => JS.or_else x d
  end.

Module ProductDetails.
Record t : Type := mk {
  brandName : string;
  packagingInformation : string;
  packagingSize : string;
  sku : string;
  pictureUrl : string;
  description : string;
  category : string;
  ingredients : string;
  gtin : string;
  upc : string;
  caseSize : string;
  weight : string;
  storageInstructions : string;
  locationZip : string;
  readMoreButton : string;
  productName : string
}.
End ProductDetails.

Module Pagination.
Record t : Type := mk { nextButton : string; pageButtons : string }.
End Pagination.

Module ProductListing.
Record t : Type := mk { productLinks : string; productUrlFilter : string }.
End ProductListing.

Module Urls.
Record t : Type := mk { home : string; discover : string }.
End Urls.

Module Delays.
Record t : Type := mk {
  pageLoad : Z;
  modalHandling : Z;
  betweenProducts : Z;
  betweenCategories : Z;
  afterCategoryClick : Z;
  pagination : Z;
  productDetails : Z
}.
End Delays.

Module Retry.
Record t : Type := mk { maxRetries : Z; baseDelay : Z }.
End Retry.

(** [syscoConfig.scraping] *)
Record t : Type := mk {
  location_zipCode : string;
  maxPagesPerCategory : Z;
  maxProductsPerCategory : Z;
  categories : list string;
  categorySelectors : list (string * string);
  productDetails : ProductDetails.t;
  pagination : Pagination.t;
  productListing : ProductListing.t;
  urls : Urls.t;
  delays : Delays.t;
  retry : Retry.t
}.

(** [[data-id="v"]] and [[data-testid="v"]] *)
Definition data_id (v : string) : string := "[data-id=" ++ JS.quoted v ++ "]".
Definition data_testid (v : string) : string := "[data-testid=" ++ JS.quoted v ++ "]".

Definition category_label (c : string) : string :=
  data_id ("lbl_category_app.dashboard." ++ c ++ ".title").

Definition syscoConfig (env : environment) : t :=
  {| location_zipCode := string_or (SYSCO_LOCATION_ZIP env) "97209";
     maxPagesPerCategory := number_or (MAX_PAGES_PER_CATEGORY env) 10;
     maxProductsPerCategory := number_or (MAX_PRODUCTS_PER_CATEGORY env) 500;
     categories :=
       [ "Produce"; "Meat & Seafood"; "Bakery & Breads"; "Dairy & Eggs";
         "Canned & Dry"; "Frozen Foods"; "Beverages" ];
     categorySelectors :=
       [ ("Produce", category_label "produce");
         ("Meat & Seafood", category_label "meatseafood");
         ("Bakery & Breads", category_label "bakerybread");
         ("Dairy & Eggs", category_label "dairyeggs");
         ("Canned & Dry", category_label "canneddry");
         ("Frozen Foods", category_label "frozenfoods");
         ("Beverages", category_label "beverages") ];
     productDetails :=
       {| ProductDetails.brandName := data_id "product_brand_link";
          ProductDetails.packagingInformation := data_id "product_packaging_text";
          ProductDetails.packagingSize := data_id "pack_size";
          ProductDetails.sku := data_id "product_id";
          ProductDetails.pictureUrl := data_id "main-product-img-v2";
          ProductDetails.description := data_id "product_description_section";
          ProductDetails.category := data_id "breadcrumb_category_level1";
          ProductDetails.ingredients := data_id "ingredients_text";
          ProductDetails.gtin := data_id "gtin_text";
          ProductDetails.upc := data_id "manufacturer_upc_text";
          ProductDetails.caseSize := data_id "case_dimensions_text";
          ProductDetails.weight := data_id "net_weight_text";
          ProductDetails.storageInstructions := data_id "storage_location_text";
          ProductDetails.locationZip := "div.zipcode";
          ProductDetails.readMoreButton := data_id "ellipsis-read-more-button";
          ProductDetails.productName := data_testid "product-title" |};
     pagination :=
       {| Pagination.nextButton := "button" ++ data_id "button_page_next";
          Pagination.pageButtons :=
            "button[data-id^=" ++ JS.quoted "button_page_" ++ "]" |};
     productListing :=
       {| ProductListing.productLinks :=
            "a[href*=" ++ JS.quoted "/product-details/" ++ "]";
          ProductListing.productUrlFilter := "/product/" |};
     urls :=
       {| Urls.home := "https://shop.sysco.com/";
          Urls.discover := "https://shop.sysco.com/app/discover" |};
     delays :=
       {| Delays.pageLoad := number_or (DELAY_PAGE_LOAD env) 3000;
          Delays.modalHandling := number_or (DELAY_MODAL_HANDLING env) 2000;
          Delays.betweenProducts := number_or (DELAY_BETWEEN_PRODUCTS env) 500;
          Delays.betweenCategories := number_or (DELAY_BETWEEN_CATEGORIES env) 2000;
          Delays.afterCategoryClick := number_or (DELAY_AFTER_CATEGORY_CLICK env) 8000;
          Delays.pagination := number_or (DELAY_PAGINATION env) 5000;
          Delays.productDetails := number_or (DELAY_PRODUCT_DETAILS env) 1000 |};
     retry :=
       {| Retry.maxRetries := number_or (MAX_RETRIES env) 3;
          Retry.baseDelay := number_or (RETRY_BASE_DELAY env) 2000 |} |}.

(** No variable set. *)
Definition no_environment : environment :=
  mkEnvironment None None None None None None None None None None None None.

(** [categorySelectors[categoryName]] *)
Fixpoint lookup (k : string) (m : list (string * string)) : option string :=
  match m with
  | [] => None
  | (k', v) :: m' => if String.eqb k k' then Some v else lookup k m'
  end.

End Config.

(* ================================================================== *)
(** * The page: documents, elements and the driver *)
(* ================================================================== *)

Module Dom.

(** An element as the in-page scripts observe it. *)
#[warnings="-register-all"] Inductive element : Type := mkElement {
  node : nat;                          (* identity of the node *)
  tagName : string;
  textContent : string;
  attributes : list (string * string);
  disabled : bool;
  classList : list string;
  href : string;                       (* the resolved [href] property *)
  onclick : bool;                      (* an [onclick] handler is set *)
  click_throws : bool;                 (* [click()] throws on this node *)
  parentElement : option element
}.

Definition getAttribute (el : element) (name : string) : option string :=
  Config.lookup name (attributes el).

Definition classList_contains (el : element) (c : string) : bool :=
  existsb (String.eqb c) (classList el).

(** [a === b] on nodes. *)
Definition same_node (a b : element) : bool := Nat.eqb (node a) (node b).

(** The document a script runs against.  The configured selectors are
    well-formed, so the two query functions do not throw. *)
Record document : Type := mkDocument {
  querySelector : string -> option element;
  querySelectorAll : string -> list element;
  body : element;
  location_href : string
}.

(** What a script does to the page besides computing its result. *)
Inductive effect : Type :=
| Click (el : element)
| DispatchClick (el : element)
| ScrollIntoView (el : element)
| ScrollTo (x y : Z).

End Dom.

Module Csv.
(** What the export writes: the header row and one record per row. *)
Record table : Type := mk { header : list string; records : list (list string) }.
End Csv.

Module Puppeteer.

(** Everything outside the program: the browser page, the clock and the
    file system, as operations on an environment [E]. *)
Class Driver (E : Type) : Type := {
  (** [page.goto(url, { waitUntil, timeout })] *)
  goto : string -> string -> option Z -> E -> JS.outcome unit * E;
  (** [page.url()] *)
  url : E -> string;
  (** the document that [page.evaluate] and [page.$] see, or the error
      with which they fail *)
  document_of : E -> JS.outcome Dom.document;
  (** what the DOM actions of a script do to the page *)
  perform : list Dom.effect -> E -> E;
  (** [elementHandle.click()] *)
  handle_click : Dom.element -> E -> JS.outcome unit * E;
  (** [page.waitForNavigation({ waitUntil, timeout })] *)
  waitForNavigation : string -> Z -> E -> JS.outcome unit * E;
  (** [page.waitForSelector(selector, { timeout })] *)
  waitForSelector : string -> Z -> E -> JS.outcome unit * E;
  (** the passing of [ms] milliseconds *)
  time_passes : Z -> E -> E;
  (** [CURRENT_TIMESTAMP] at the i-th statement of a batch *)
  clock : E -> nat -> SyscoModels.timestamp;
  (** [new Date().toISOString().split('T')[0]] *)
  today : E -> string;
  (** [fs.existsSync], [fs.mkdirSync(dir, { recursive: true })],
      [fs.writeFileSync] *)
  existsSync : string -> E -> bool;
  mkdirSync : string -> E -> JS.outcome unit * E;
  writeFileSync : string -> Csv.table -> E -> E;
  (** the directory that holds [src/] and [data/] *)
  project_root : string
}.

End Puppeteer.

(* ================================================================== *)
(** * The state of a run *)
(* ================================================================== *)

Module Run.
Import Async Puppeteer.

(** The environment, the open database and what the logger received so
    far, oldest entry first. *)
Record World (E : Type) : Type := mkWorld {
  env : E;
  db : SyscoModels.database;
  logged : list Logger.entry
}.
Arguments mkWorld {E} env db logged.
Arguments env {E} w.
Arguments db {E} w.
Arguments logged {E} w.

Section WithDriver.
Context {E : Type} `{Driver E}.

#[export] Instance Runtime_World : Runtime (World E) := {
  sleep ms w := mkWorld (time_passes ms (env w)) (db w) (logged w);
  write_log e w := mkWorld (env w) (db w) (logged w ++ [e])
}.

(** An operation of the driver, run on the world's environment. *)
Definition on_env {A} (f : E -> JS.outcome A * E) : M (World E) A :=
  fun w => let '(o, e') := f (env w) in (o, mkWorld e' (db w) (logged w)).

Definition page_goto (target waitUntil : string) (timeout : option Z)
  : M (World E) unit := on_env (goto target waitUntil timeout).

Definition page_url : M (World E) string :=
  fun w => (JS.Ok (url (env w)), w).

Definition page_waitForNavigation (waitUntil : string) (timeout : Z)
  : M (World E) unit := on_env (waitForNavigation waitUntil timeout).

Definition page_waitForSelector (selector : string) (timeout : Z)
  : M (World E) unit := on_env (waitForSelector selector timeout).

(** [page.evaluate(script, ...)]: the script runs against the current
    document; its DOM actions then take effect on the page. *)
Definition page_evaluate {A}
    (script : Dom.document -> JS.outcome A * list Dom.effect)
  : M (World E) A :=
  fun w =>
    match document_of (env w) with
    | JS.Throw e => (JS.Throw e, w)
    | JS.Ok d =>
        let '(o, effects) := script d in
        (o, mkWorld (perform effects (env w)) (db w) (logged w))
    end.

(** [page.$(selector)] *)
Definition page_query (selector : string) : M (World E) (option Dom.element) :=
  fun w =>
    match document_of (env w) with
    | JS.Throw e => (JS.Throw e, w)
    | JS.Ok d => (JS.Ok (Dom.querySelector d selector), w)
    end.

Definition elementHandle_click (el : Dom.element) : M (World E) unit :=
  on_env (handle_click el).

End WithDriver.
End Run.

(* ================================================================== *)
(** * [sysco-models.js] as the scraper calls it: batch upsert and export *)
(* ================================================================== *)

Module Gateway.
Import Async Puppeteer Run SyscoModels.
Local Open Scope async_scope.

Definition requiredColumns : list string :=
  [ "brand_name"; "product_name"; "packaging_information"; "sku";
    "picture_url"; "description" ].

Definition additionalColumns : list string :=
  [ "category"; "product_url"; "case_size"; "upc"; "gtin"; "ingredients";
    "storage_instructions"; "location_zip"; "scraped_date" ].

Definition text_or_empty (v : sql) : string :=
  match v with Some x => x | None => "" end.

(** [row[col] || ''] for the columns the export can name.  A date is
    printed as its number of seconds. *)
Definition column (col : string) (r : Row.t) : string :=
  if String.eqb col "brand_name" then text_or_empty (Row.brand_name r)
  else if String.eqb col "product_name" then text_or_empty (Row.product_name r)
  else if String.eqb col "packaging_information"
    then text_or_empty (Row.packaging_information r)
  else if String.eqb col "sku" then text_or_empty (Row.sku r)
  else if String.eqb col "picture_url" then text_or_empty (Row.picture_url r)
  else if String.eqb col "description" then text_or_empty (Row.description r)
  else if String.eqb col "category" then text_or_empty (Row.category r)
  else if String.eqb col "product_url" then text_or_empty (Row.product_url r)
  else if String.eqb col "case_size" then text_or_empty (Row.case_size r)
  else if String.eqb col "upc" then text_or_empty (Row.upc r)
  else if String.eqb col "gtin" then text_or_empty (Row.gtin r)
  else if String.eqb col "ingredients" then text_or_empty (Row.ingredients r)
  else if String.eqb col "storage_instructions"
    then text_or_empty (Row.storage_instructions r)
  else if String.eqb col "location_zip" then text_or_empty (Row.location_zip r)
  else if String.eqb col "scraped_date" then JS.string_of_Z (Row.scraped_date r)
  else "".

(** Order of two column values under [ORDER BY]: NULL first, text by
    its bytes. *)
Definition sql_compare (a b : sql) : comparison :=
  match a, b with
  | None, None => Eq
  | None, Some _ => Lt
  | Some _, None => Gt
  | Some x, Some y => String.compare x y
  end.

(** [ORDER BY category, brand_name, product_name] *)
Definition row_leb (a b : Row.t) : bool :=
  match sql_compare (Row.category a) (Row.category b) with
  | Lt => true
  | Gt => false
  | Eq =>
      match sql_compare (Row.brand_name a) (Row.brand_name b) with
      | Lt => true
      | Gt => false
      | Eq =>
          match sql_compare (Row.product_name a) (Row.product_name b) with
          | Gt => false
          | _ => true
          end
      end
  end.

Fixpoint insert_sorted (r : Row.t) (rs : list Row.t) : list Row.t :=
  match rs with
  | [] => [r]
  | r' :: rs' => if row_leb r r' then r :: rs else r' :: insert_sorted r rs'
  end.

(** [SELECT * FROM sysco_products ORDER BY category, brand_name,
    product_name]; rows that compare equal keep their insertion order. *)
Definition select_all_ordered (d : database) : list Row.t :=
  fold_right insert_sorted [] (rows d).

(** Number of distinct values, [new Set(...)] on column values. *)
Fixpoint distinct (seen vs : list sql) : list sql :=
  match vs with
  | [] => []
  | v :: vs' =>
      if existsb (sql_eqb v) seen then distinct seen vs'
      else v :: distinct (v :: seen) vs'
  end.

(** The loop of [path.dirname] (the POSIX one): the path is scanned from
    its last character down to index 1, and the scan stops at the first
    slash met after a character that is not a slash.  [rev_tail] holds
    the characters at the indices [i], [i - 1], ..., 1; the result is
    the index the loop stopped at, [None] when it ran through ([end]
    left at [-1]). *)
Fixpoint dirname_end (i : nat) (rev_tail : list ascii) (matchedSlash : bool)
  : option nat :=
  match rev_tail with
  | [] => None
  | c :: rest =>
      if Ascii.eqb c "/" then
        if matchedSlash then dirname_end (i - 1) rest true
        else Some i
      else dirname_end (i - 1) rest false
  end.

(** [path.dirname(path)]: ['.'] for the empty path and for a path
    without a directory part, ['/'] for a name directly under the root,
    otherwise the path up to the slash the scan stopped at (trailing
    slashes are not part of the name that is dropped). *)
Definition dirname (p : string) : string :=
  match p with
  | EmptyString => "."
  | String c0 tail =>
      let hasRoot := Ascii.eqb c0 "/" in
      match dirname_end (String.length tail) (rev (list_ascii_of_string tail))
              true with
      | None => if hasRoot then "/" else "."
      | Some e =>
          if hasRoot && (e =? 1)%nat then "//" else String.substring 0 e p
      end
  end.

Record export_result : Type := mkExport {
  filePath : string;
  totalProducts : Z;
  columns : Z;
  categories : Z
}.

Section WithDriver.
Context {E : Type} `{Driver E}.

(** [batchUpsertProducts(productsArray)] on the open database. *)
Definition batchUpsertProducts (productsArray : list ProductData.t)
  : M (World E) batch_result :=
  fun w =>
    let '(res, db') :=
      SyscoModels.batchUpsertProducts (clock (env w)) productsArray JS.Null (db w) in
    (JS.Ok res, mkWorld (env w) db' (logged w)).

(** [exportToCsv(outputPath = null, options = {})] *)
Definition exportToCsv (outputPath : option string) (includeAll : bool)
  : M (World E) export_result :=
  fun w =>
    let defaultPath :=
      project_root ++ "/data/sysco_products_" ++ today (env w) ++ ".csv" in
    let filePath :=
      match outputPath with
      | Some p => JS.or_else p defaultPath
      | None => defaultPath
      end in
    let dir := dirname filePath in
    (* Ensure directory exists *)
    let '(made, e1) :=
      if existsSync dir (env w) then (JS.Ok tt, env w)
      else mkdirSync dir (env w) in
    match made with
    | JS.Throw err => (JS.Throw err, mkWorld e1 (db w) (logged w))
    | JS.Ok _ =>
        let rows := select_all_ordered (db w) in
        match rows with
        | [] => (JS.Throw (JS.Error "No products found to export"),
                 mkWorld e1 (db w) (logged w))
        | _ =>
            let allColumns :=
              if includeAll then (requiredColumns ++ additionalColumns)%list
              else requiredColumns in
            (* Prepare data for CSV *)
            let csvData :=
              map (fun row => map (fun col => column col row) allColumns) rows in
            let e2 := writeFileSync filePath (Csv.mk allColumns csvData) e1 in
            (JS.Ok {| filePath := filePath;
                      totalProducts := Z.of_nat (List.length rows);
                      columns := Z.of_nat (List.length allColumns);
                      categories :=
                        Z.of_nat (List.length (distinct [] (map Row.category rows))) |},
             mkWorld e2 (db w) (logged w))
        end
    end.

End WithDriver.
End Gateway.

(* ================================================================== *)
(** * [sysco-paginated.js]: extraction, pagination and traversal *)
(* ================================================================== *)

Module Scraper.
Import Async Puppeteer Run.
Local Open Scope async_scope.

(** ** The scripts that run inside the page *)

(** [element?.textContent?.trim() || ''] *)
Definition getTextBySelector (d : Dom.document) (selector : string) : string :=
  match Dom.querySelector d selector with
  | Some element => JS.or_else (JS.trim (Dom.textContent element)) ""
  | None => ""
  end.

(** [element?.getAttribute(attribute) || ''] *)
Definition getAttributeBySelector (d : Dom.document) (selector attribute : string)
  : string :=
  match Dom.querySelector d selector with
  | Some element =>
      match Dom.getAttribute element attribute with
      | Some v => JS.or_else v ""
      | None => ""
      end
  | None => ""
  end.

(** The script of [extractProductDetails].  It returns the product
    object; its [catch] branch, which returns [null], is taken when a
    query throws, which the configured selectors do not. *)
Definition productDetails_script (selectors : Config.ProductDetails.t)
    (d : Dom.document) : option SyscoModels.ProductData.t :=
  let sku := getTextBySelector d (Config.ProductDetails.sku selectors) in
  let brandName := getTextBySelector d (Config.ProductDetails.brandName selectors) in
  let packagingInformation :=
    getTextBySelector d (Config.ProductDetails.packagingInformation selectors) in
  let packagingSize :=
    getTextBySelector d (Config.ProductDetails.packagingSize selectors) in
  let pictureUrl :=
    getAttributeBySelector d (Config.ProductDetails.pictureUrl selectors) "src" in
  let description :=
    getTextBySelector d (Config.ProductDetails.description selectors) in
  let category := getTextBySelector d (Config.ProductDetails.category selectors) in
  let ingredients :=
    getTextBySelector d (Config.ProductDetails.ingredients selectors) in
  let gtin := getTextBySelector d (Config.ProductDetails.gtin selectors) in
  let upc := getTextBySelector d (Config.ProductDetails.upc selectors) in
  let caseSize := getTextBySelector d (Config.ProductDetails.caseSize selectors) in
  let weight := getTextBySelector d (Config.ProductDetails.weight selectors) in
  let storageInstructions :=
    getTextBySelector d (Config.ProductDetails.storageInstructions selectors) in
  let productName :=
    getTextBySelector d (Config.ProductDetails.productName selectors) in
  (* Extract location ZIP code *)
  let locationZip :=
    match Dom.querySelector d (Config.ProductDetails.locationZip selectors) with
    | Some zipcodeElement =>
        JS.or_else (JS.trim (Dom.textContent zipcodeElement)) "97209"
    | None => "97209"
    end in
  Some
    {| SyscoModels.ProductData.sku := JS.Str (JS.or_else sku "");
       SyscoModels.ProductData.brand_name := JS.Str (JS.or_else brandName "Sysco");
       SyscoModels.ProductData.product_name :=
         JS.Str (JS.or_else productName "Product");
       SyscoModels.ProductData.packaging_information :=
         JS.Str (JS.or_else packagingInformation "Standard packaging");
       SyscoModels.ProductData.packaging_size := JS.Str (JS.or_else packagingSize "");
       SyscoModels.ProductData.picture_url := JS.Str (JS.or_else pictureUrl "");
       SyscoModels.ProductData.description :=
         JS.Str (JS.or_else description "Premium quality product from Sysco");
       SyscoModels.ProductData.category := JS.Str (JS.or_else category "");
       SyscoModels.ProductData.ingredients := JS.Str (JS.or_else ingredients "");
       SyscoModels.ProductData.gtin := JS.Str (JS.or_else gtin "");
       SyscoModels.ProductData.upc := JS.Str (JS.or_else upc "");
       SyscoModels.ProductData.case_size := JS.Str (JS.or_else caseSize "");
       SyscoModels.ProductData.weight := JS.Str (JS.or_else weight "");
       SyscoModels.ProductData.storage_instructions :=
         JS.Str (JS.or_else storageInstructions "");
       SyscoModels.ProductData.product_url := JS.Str (Dom.location_href d);
       SyscoModels.ProductData.location_zip := JS.Str locationZip;
       (* properties the script does not set *)
       SyscoModels.ProductData.unit_size := JS.Undefined;
       SyscoModels.ProductData.supplier := JS.Undefined;
       SyscoModels.ProductData.manufacturer := JS.Undefined;
       SyscoModels.ProductData.specifications := JS.Undefined;
       SyscoModels.ProductData.nutrition_info := JS.Undefined;
       SyscoModels.ProductData.allergens := JS.Undefined;
       SyscoModels.ProductData.shelf_life := JS.Undefined;
       SyscoModels.ProductData.structured_data := JS.Undefined |}.

(** The script of [scrapeProductsFromPage]: the hrefs of the matched
    links that contain the filter text, without duplicates. *)
Definition productLinks_script (productListing : Config.ProductListing.t)
    (d : Dom.document) : list string :=
  let links :=
    filter (fun href =>
              JS.includes href (Config.ProductListing.productUrlFilter productListing))
           (map Dom.href
                (Dom.querySelectorAll d
                   (Config.ProductListing.productLinks productListing))) in
  JS.new_Set links.

(** What the script of [navigateToNextPage] returns. *)
Record nextPageClicked : Type := mkNext {
  success : bool;
  method : option string;
  page : option Z;
  reason : option string
}.

Definition nextPage_script (pagination : Config.Pagination.t) (d : Dom.document)
  : JS.outcome nextPageClicked * list Dom.effect :=
  match Dom.querySelector d (Config.Pagination.nextButton pagination) with
  | Some exactButton =>
      let isDisabled :=
        Dom.disabled exactButton
        || match Dom.getAttribute exactButton "aria-disabled" with
           | Some v => String.eqb v "true"
           | None => false
           end
        || Dom.classList_contains exactButton "disabled"
        || Dom.classList_contains exactButton "inactive" in
      if negb isDisabled then
        if Dom.click_throws exactButton then
          (JS.Ok (mkNext true (Some "exact-data-id-dispatch") None None),
           [Dom.ScrollIntoView exactButton; Dom.DispatchClick exactButton])
        else
          (JS.Ok (mkNext true (Some "exact-data-id-click") None None),
           [Dom.ScrollIntoView exactButton; Dom.Click exactButton])
      else (JS.Ok (mkNext false None None (Some "button-disabled")), [])
  | None =>
      (* Try numbered pagination buttons as fallback *)
      let numberButtons :=
        Dom.querySelectorAll d (Config.Pagination.pageButtons pagination) in
      let no_buttons := mkNext false None None (Some "no-buttons-found") in
      match numberButtons with
      | [] => (JS.Ok no_buttons, [])
      | _ =>
          let activeButton :=
            Dom.querySelector d
              (Config.Pagination.pageButtons pagination ++ ".active, "
               ++ Config.Pagination.pageButtons pagination ++ "[disabled]") in
          let currentPage : JS.outcome Z :=
            match activeButton with
            | None => JS.Ok 1
            | Some b =>
                match Dom.getAttribute b "data-id" with
                | None =>
                    JS.Throw (JS.mkError "TypeError"
                      "Cannot read properties of null (reading 'match')")
                | Some id =>
                    match JS.match_button_page id with
                    | Some digits => JS.Ok (JS.parseInt_digits digits)
                    | None => JS.Ok 1
                    end
                end
            end in
          match currentPage with
          | JS.Throw e => (JS.Throw e, [])
          | JS.Ok currentPage =>
              let nextPageNumber := currentPage + 1 in
              match Dom.querySelector d
                      ("button[data-id="
                       ++ JS.quoted ("button_page_" ++ JS.string_of_Z nextPageNumber)
                       ++ "]") with
              | Some nextPageButton =>
                  if negb (Dom.disabled nextPageButton) then
                    if Dom.click_throws nextPageButton then
                      (JS.Throw (JS.Error "click failed"), [])
                    else
                      (JS.Ok (mkNext true (Some "numbered-pagination")
                                (Some nextPageNumber) None),
                       [Dom.Click nextPageButton])
                  else (JS.Ok no_buttons, [])
              | None => (JS.Ok no_buttons, [])
              end
          end
      end
  end.

(** The loop of the category script: from the matched element upwards,
    stop at the first node that is a button, a link, carries an
    [onclick] handler or has an [addEventListener] method (every element
    has one), or at the body. *)
Fixpoint find_clickable (body : Dom.element) (clickableElement : Dom.element)
  : option Dom.element :=
  if Dom.same_node clickableElement body then Some clickableElement
  else if String.eqb (Dom.tagName clickableElement) "BUTTON"
          || String.eqb (Dom.tagName clickableElement) "A"
          || Dom.onclick clickableElement
          || true
  then Some clickableElement
  else match Dom.parentElement clickableElement with
       | Some parent => find_clickable body parent
       | None => None
       end.

Definition categoryClick_script (categorySelector : string) (d : Dom.document)
  : JS.outcome bool * list Dom.effect :=
  match Dom.querySelector d categorySelector with
  | Some categoryElement =>
      match find_clickable (Dom.body d) categoryElement with
      | Some clickableElement =>
          if negb (Dom.same_node clickableElement (Dom.body d))
          then
            if Dom.click_throws clickableElement
            then (JS.Throw (JS.Error "click failed"), [])
            else (JS.Ok true, [Dom.Click clickableElement])
          else
            if Dom.click_throws categoryElement
            then (JS.Throw (JS.Error "click failed"), [])
            else (JS.Ok true, [Dom.Click categoryElement])
      | None =>
          if Dom.click_throws categoryElement
          then (JS.Throw (JS.Error "click failed"), [])
          else (JS.Ok true, [Dom.Click categoryElement])
      end
  | None => (JS.Ok false, [])
  end.

Definition category_markers : string :=
  "[data-id*=" ++ JS.quoted "lbl_category_app.dashboard" ++ "]".

Definition scrollToTop_script (d : Dom.document)
  : JS.outcome unit * list Dom.effect :=
  (JS.Ok tt, [Dom.ScrollTo 0 0]).

(** [document.querySelectorAll(markers).length] *)
Definition countCategories_script (d : Dom.document)
  : JS.outcome Z * list Dom.effect :=
  (JS.Ok (Z.of_nat (List.length (Dom.querySelectorAll d category_markers))), []).

(** ** The asynchronous functions *)

Section WithDriver.
Context {E : Type} `{Driver E}.
Variable syscoConfig : Config.t.

Let delays := Config.delays syscoConfig.

Definition length_Z {A} (l : list A) : Z := Z.of_nat (List.length l).

(** The operation that [extractProductDetails] hands to [retry]. *)
Definition extractProductDetails_attempt (productUrl : string)
  : M (World E) SyscoModels.ProductData.t :=
  (* Navigate to product page *)
  page_goto productUrl "networkidle2" (Some 25000) ;;
  delay (Config.Delays.productDetails delays) ;;
  (* Click the Read More button for description if it exists *)
  readMoreButton <-
    page_query (Config.ProductDetails.readMoreButton
                  (Config.productDetails syscoConfig)) ;;
  match readMoreButton with
  | Some button =>
      elementHandle_click button ;;
      delay (Config.Delays.productDetails delays)
  | None => ret tt
  end ;;
  productDetails <-
    page_evaluate
      (fun d => (JS.Ok (productDetails_script
                          (Config.productDetails syscoConfig) d), [])) ;;
  match productDetails with
  | Some details =>
      if JS.truthy_value (SyscoModels.ProductData.sku details) then
        log Logger.info "Extracted product: % (SKU: %) - Pack: %, Weight: %"
          [ Logger.S (JS.to_string (SyscoModels.ProductData.product_name details));
            Logger.S (JS.to_string (SyscoModels.ProductData.sku details));
            Logger.S (JS.to_string (SyscoModels.ProductData.packaging_size details));
            Logger.S (JS.to_string (SyscoModels.ProductData.weight details)) ] ;;
        ret details
      else throw (JS.Error ("Failed to extract details from: " ++ productUrl))
  | None => throw (JS.Error ("Failed to extract details from: " ++ productUrl))
  end.

Definition extractProductDetails (productUrl : string)
  : M (World E) SyscoModels.ProductData.t :=
  Helpers.retry (extractProductDetails_attempt productUrl)
    {| Helpers.maxRetries := Config.Retry.maxRetries (Config.retry syscoConfig);
       Helpers.baseDelay := Config.Retry.baseDelay (Config.retry syscoConfig);
       Helpers.exponentialBackoff := true;
       Helpers.retryCondition := Helpers.shouldRetryError |}.

(** The [for] loop of [scrapeProductsFromPage] from index [i] on, with
    [total] the number of links of the page.  [extractProductDetails]
    returns an object or throws, so the test [if (productDetails)]
    holds whenever it is reached. *)
Fixpoint products_loop (total : Z) (productLinks : list string) (i : Z)
    (categoryProducts : list SyscoModels.ProductData.t)
  : M (World E) (list SyscoModels.ProductData.t) :=
  match productLinks with
  | [] => ret categoryProducts
  | link :: rest =>
      if length_Z categoryProducts <? Config.maxProductsPerCategory syscoConfig
      then
        categoryProducts' <-
          try_catch
            (log Logger.info "Extracting details from: %" [Logger.S link] ;;
             productDetails <- extractProductDetails link ;;
             log Logger.info "Product %/%: %"
               [ Logger.N (i + 1); Logger.N total;
                 Logger.S (JS.to_string
                             (SyscoModels.ProductData.product_name productDetails)) ] ;;
             (* Small delay between products *)
             delay (Config.Delays.betweenProducts delays) ;;
             ret (categoryProducts ++ [productDetails])%list)
            (fun error =>
               log Logger.error "Error processing product %:"
                 [Logger.N (i + 1); Logger.S (JS.message error)] ;;
               log Logger.warn "Failed to extract product %/%"
                 [Logger.N (i + 1); Logger.N total] ;;
               ret categoryProducts) ;;
        products_loop total rest (i + 1) categoryProducts'
      else ret categoryProducts
  end.

Definition scrapeProductsFromPage (categoryName : string) (pageNumber : Z)
  : M (World E) (list SyscoModels.ProductData.t) :=
  log Logger.info "=== SCRAPING % - PAGE % ==="
    [Logger.S categoryName; Logger.N pageNumber] ;;
  delay (Config.Delays.pageLoad delays) ;;
  (* Get product links from current page *)
  productLinks <-
    page_evaluate
      (fun d => (JS.Ok (productLinks_script
                          (Config.productListing syscoConfig) d), [])) ;;
  log Logger.info "Found % product links on page %"
    [Logger.N (length_Z productLinks); Logger.N pageNumber] ;;
  match productLinks with
  | [] =>
      log Logger.warn "No products found on page % for %"
        [Logger.N pageNumber; Logger.S categoryName] ;;
      ret []
  | _ =>
      (* Visit each product detail page *)
      categoryProducts <-
        products_loop (length_Z productLinks) productLinks 0 [] ;;
      log Logger.info "Page % complete: % products. Total: %"
        [ Logger.N pageNumber; Logger.N (length_Z categoryProducts);
          Logger.N (length_Z categoryProducts) ] ;;
      (* Save products to database after each page *)
      match categoryProducts with
      | [] => ret tt
      | _ =>
          log Logger.info "Saving % products from % page %..."
            [ Logger.N (length_Z categoryProducts); Logger.S categoryName;
              Logger.N pageNumber ] ;;
          try_catch
            (Gateway.batchUpsertProducts categoryProducts ;;
             log Logger.info "Successfully saved % products to database"
               [Logger.N (length_Z categoryProducts)])
            (fun dbError =>
               log Logger.error "Database save error for % page %:"
                 [ Logger.S categoryName; Logger.N pageNumber;
                   Logger.S (JS.message dbError) ])
      end ;;
      ret categoryProducts
  end.

Definition navigateToNextPage (categoryPageUrl : string) : M (World E) bool :=
  log Logger.info "Looking for next page button..." [] ;;
  (* Navigate back to category listing page *)
  log Logger.info "Navigating back to category listing page: %"
    [Logger.S categoryPageUrl] ;;
  page_goto categoryPageUrl "networkidle2" None ;;
  delay (Config.Delays.modalHandling delays) ;;
  (* Wait for products and pagination to fully load *)
  delay (Config.Delays.pagination delays) ;;
  (* Check for next page button *)
  nextPageClicked <-
    page_evaluate (nextPage_script (Config.pagination syscoConfig)) ;;
  if success nextPageClicked then
    log Logger.info "Next page button clicked using method: %"
      [Logger.S (match method nextPageClicked with
                 | Some m => m | None => "undefined" end)] ;;
    match page nextPageClicked with
    | Some n =>
        if n =? 0 then ret tt
        else log Logger.info "Navigated to page: %" [Logger.N n]
    | None => ret tt
    end ;;
    delay (Config.Delays.pagination delays) ;;
    (* Wait for new products to load *)
    try_catch
      (page_waitForSelector
         ("[href*=" ++ JS.quoted "/app/product-details/" ++ "]") 15000 ;;
       log Logger.info "New products loaded after pagination" [])
      (fun error =>
         log Logger.info
           "Product loading timeout, checking if page content changed..." []) ;;
    ret true
  else
    log Logger.info "Pagination ended - Reason: %"
      [Logger.S (match reason nextPageClicked with
                 | Some r => r | None => "undefined" end)] ;;
    ret false.

Definition returnToCategoryListPage : M (World E) unit :=
  log Logger.info "Returning to category list page..." [] ;;
  try_catch
    ((* Try navigating directly to the discover page *)
     currentUrl <- page_url ;;
     log Logger.info "Current URL before return: %" [Logger.S currentUrl] ;;
     (* If we're already on the discover page, just scroll to top *)
     done <-
       (if JS.includes currentUrl "/app/discover" then
          log Logger.info "Already on discover page, scrolling to top..." [] ;;
          page_evaluate scrollToTop_script ;;
          delay (Config.Delays.modalHandling delays) ;;
          (* Check if categories are visible *)
          count <- page_evaluate countCategories_script ;;
          if 0 <? count then
            log Logger.info "Categories are visible, no navigation needed" [] ;;
            ret true
          else ret false
        else ret false) ;;
     if (done : bool) then ret tt
     else
       (* Navigate back to discover page *)
       log Logger.info "Navigating back to discover page..." [] ;;
       page_goto (Config.Urls.discover (Config.urls syscoConfig))
         "domcontentloaded" (Some 30000) ;;
       delay (Config.Delays.pageLoad delays) ;;
       (* Verify we're on the right page with categories *)
       categoriesFound <- page_evaluate countCategories_script ;;
       if 0 <? categoriesFound then
         log Logger.info
           "Successfully returned to category list page with % categories visible"
           [Logger.N categoriesFound]
       else
         log Logger.warn
           "Returned to discover page but categories not immediately visible" [] ;;
         (* Try scrolling and waiting *)
         page_evaluate scrollToTop_script ;;
         delay (Config.Delays.modalHandling delays) ;;
         categoriesAfterScroll <- page_evaluate countCategories_script ;;
         if 0 <? categoriesAfterScroll then
           log Logger.info "Categories found after scrolling: %"
             [Logger.N categoriesAfterScroll]
         else
           log Logger.warn "Categories still not visible, continuing anyway..." [])
    (fun error =>
       log Logger.error "Failed to return to category list page:"
         [Logger.S (JS.message error)] ;;
       (* Last resort: try to refresh the discover page *)
       try_catch
         (log Logger.info "Last resort: refreshing discover page..." [] ;;
          page_goto (Config.Urls.discover (Config.urls syscoConfig))
            "networkidle2" (Some 30000) ;;
          delay (Config.Delays.pagination delays) ;;
          log Logger.info "Page refreshed successfully" [])
         (fun refreshError =>
            log Logger.error "Failed to refresh page:"
              [Logger.S (JS.message refreshError)] ;;
            throw (JS.Error "Could not return to category list page"))).

(** The [while] loop of [scrapeCategory].  It returns the accumulated
    products together with the page counter, which the closing log
    message prints.  [fuel] bounds the iterations left;
    [scrapeCategory] supplies as many as the loop can make. *)
Fixpoint pages_loop (fuel : nat) (categoryName : string) (currentPage : Z)
    (categoryPageUrl : string)
    (allCategoryProducts : list SyscoModels.ProductData.t)
  : M (World E) (list SyscoModels.ProductData.t * Z) :=
  match fuel with
  | O => ret (allCategoryProducts, currentPage)
  | S fuel' =>
      if (currentPage <=? Config.maxPagesPerCategory syscoConfig)
         && (length_Z allCategoryProducts
             <? Config.maxProductsPerCategory syscoConfig)
      then
        log Logger.info "=== % - PAGE % ==="
          [Logger.S categoryName; Logger.N currentPage] ;;
        (* Scrape products from current page *)
        pageProducts <- scrapeProductsFromPage categoryName currentPage ;;
        let allCategoryProducts' := (allCategoryProducts ++ pageProducts)%list in
        if Config.maxPagesPerCategory syscoConfig <=? currentPage then
          log Logger.info "Reached max pages limit (%) for %"
            [ Logger.N (Config.maxPagesPerCategory syscoConfig);
              Logger.S categoryName ] ;;
          ret (allCategoryProducts', currentPage)
        else
          (* Try to navigate to next page *)
          hasNextPage <- navigateToNextPage categoryPageUrl ;;
          if negb hasNextPage then
            log Logger.info "No more pages for %" [Logger.S categoryName] ;;
            ret (allCategoryProducts', currentPage)
          else
            categoryPageUrl' <- page_url ;;
            pages_loop fuel' categoryName (currentPage + 1) categoryPageUrl'
              allCategoryProducts'
      else ret (allCategoryProducts, currentPage)
  end.

Definition scrapeCategory (categoryName : string)
  : M (World E) (list SyscoModels.ProductData.t) :=
  log Logger.info "=== SCRAPING CATEGORY: % ===" [Logger.S categoryName] ;;
  delay (Config.Delays.betweenCategories delays) ;;
  match Config.lookup categoryName (Config.categorySelectors syscoConfig) with
  | None =>
      log Logger.error "Unknown category: %" [Logger.S categoryName] ;;
      ret []
  | Some selector =>
      if negb (JS.truthy selector) then
        log Logger.error "Unknown category: %" [Logger.S categoryName] ;;
        ret []
      else
        (* Look for and click the category using the specific data-id *)
        log Logger.info "Looking for category: % with selector: %"
          [Logger.S categoryName; Logger.S selector] ;;
        categoryClicked <- page_evaluate (categoryClick_script selector) ;;
        if negb categoryClicked then
          log Logger.error "Could not find or click category: %"
            [Logger.S categoryName] ;;
          ret []
        else
          log Logger.info "Clicked category %" [Logger.S categoryName] ;;
          delay (Config.Delays.afterCategoryClick delays) ;;
          (* Wait for navigation to category page *)
          try_catch
            (page_waitForNavigation "networkidle2" 10000)
            (fun error =>
               (* Continue even if navigation doesn't complete *)
               log Logger.info "Navigation timeout, continuing..." []) ;;
          currentUrl <- page_url ;;
          log Logger.info "Current URL after category click: %"
            [Logger.S currentUrl] ;;
          (* Scrape multiple pages *)
          result <-
            pages_loop (Z.to_nat (Config.maxPagesPerCategory syscoConfig))
              categoryName 1 currentUrl [] ;;
          let '(allCategoryProducts, currentPage) := result in
          log Logger.info "Category % complete: % products from % pages"
            [ Logger.S categoryName; Logger.N (length_Z allCategoryProducts);
              Logger.N currentPage ] ;;
          (* Navigate back to category list page for next category *)
          returnToCategoryListPage ;;
          ret allCategoryProducts
  end.

(** One iteration of the [for ... of] loop of [scrapeAllCategories]:
    the list of all products after the category was handled.  After
    the products of the category are appended nothing in the [try]
    block throws: the export has its own handler. *)
Definition category_step (category : string)
    (allProducts : list SyscoModels.ProductData.t)
  : M (World E) (list SyscoModels.ProductData.t) :=
  try_catch
    (categoryProducts <- scrapeCategory category ;;
     let allProducts' := (allProducts ++ categoryProducts)%list in
     log Logger.info "=== PROGRESS UPDATE ===" [] ;;
     log Logger.info "Category: % - Products: %"
       [Logger.S category; Logger.N (length_Z categoryProducts)] ;;
     log Logger.info "Total Products So Far: %"
       [Logger.N (length_Z allProducts')] ;;
     (* Save products after each category *)
     match categoryProducts with
     | [] => ret tt
     | _ =>
         log Logger.info "Exporting % products from % to CSV..."
           [Logger.N (length_Z categoryProducts); Logger.S category] ;;
         try_catch
           (Gateway.exportToCsv None false ;;
            log Logger.info "CSV export completed successfully" [])
           (fun csvError =>
              (* Continue processing other categories even if CSV
                 export fails *)
              log Logger.error "CSV export error for %:"
                [Logger.S category; Logger.S (JS.message csvError)])
     end ;;
     (* Small delay between categories *)
     delay (Config.Delays.betweenCategories delays) ;;
     ret allProducts')
    (fun error =>
       log Logger.error "Error scraping category %:"
         [Logger.S category; Logger.S (JS.message error)] ;;
       ret allProducts).

(** The loop over the configured categories. *)
Fixpoint categories_loop (categories : list string)
    (allProducts : list SyscoModels.ProductData.t)
  : M (World E) (list SyscoModels.ProductData.t) :=
  match categories with
  | [] => ret allProducts
  | category :: rest =>
      allProducts' <- category_step category allProducts ;;
      categories_loop rest allProducts'
  end.

Definition scrapeAllCategories : M (World E) (list SyscoModels.ProductData.t) :=
  categories_loop (Config.categories syscoConfig) [].

End WithDriver.

End Scraper.

(* ================================================================== *)
(** * A scripted site, for running the scraper on concrete pages *)
(* ================================================================== *)

Module Site.
Import Puppeteer Run.

(** The site shows one listing per category click; [catalog] gives, page
    by page, the hrefs of the links of the listing.  A product page shows
    its own address as the sku.  The next-page control is always present
    and enabled, and a category label named in [broken] throws when it is
    clicked. *)
Record state : Type := mkState {
  location : string;
  listing : nat;                                (* index of the listing page *)
  written : list (string * Csv.table)           (* files written so far *)
}.

Definition plain (n : nat) (tag text : string) (attrs : list (string * string))
    (link : string) (throws : bool) : Dom.element :=
  {| Dom.node := n; Dom.tagName := tag; Dom.textContent := text;
     Dom.attributes := attrs; Dom.disabled := false; Dom.classList := [];
     Dom.href := link; Dom.onclick := false; Dom.click_throws := throws;
     Dom.parentElement := None |}.

Definition body_element : Dom.element := plain 0 "BODY" "" [] "" false.

Definition next_button : Dom.element :=
  plain 1 "BUTTON" "Next" [("data-id", "button_page_next")] "" false.

(** The label of the i-th configured category. *)
Definition category_element (i : nat) (name : string) (throws : bool) : Dom.element :=
  plain (100 + i) "DIV" name [] "" throws.

Definition anchor (i : nat) (link : string) : Dom.element :=
  plain (1000 + i) "A" "" [("href", link)] link false.

Fixpoint anchors_from (i : nat) (links : list string) : list Dom.element :=
  match links with
  | [] => []
  | l :: ls => anchor i l :: anchors_from (S i) ls
  end.

Fixpoint find_category (i : nat) (selector : string)
    (selectors : list (string * string)) (broken : list string)
  : option Dom.element :=
  match selectors with
  | [] => None
  | (name, sel) :: rest =>
      if String.eqb selector sel
      then Some (category_element i name (existsb (String.eqb name) broken))
      else find_category (S i) selector rest broken
  end.

Fixpoint category_elements (i : nat) (selectors : list (string * string))
    (broken : list string) : list Dom.element :=
  match selectors with
  | [] => []
  | (name, _) :: rest =>
      category_element i name (existsb (String.eqb name) broken)
      :: category_elements (S i) rest broken
  end.

Definition is_product_page (cfg : Config.t) (st : state) : bool :=
  JS.includes (location st)
    (Config.ProductListing.productUrlFilter (Config.productListing cfg)).

Definition document_at (cfg : Config.t) (catalog : list (list string))
    (broken : list string) (st : state) : Dom.document :=
  if is_product_page cfg st then
    {| Dom.querySelector := fun selector =>
         if String.eqb selector
              (Config.ProductDetails.sku (Config.productDetails cfg))
         then Some (plain 2 "SPAN" (location st) [] "" false)
         else None;
       Dom.querySelectorAll := fun _ => [];
       Dom.body := body_element;
       Dom.location_href := location st |}
  else
    {| Dom.querySelector := fun selector =>
         if String.eqb selector
              (Config.Pagination.nextButton (Config.pagination cfg))
         then Some next_button
         else find_category 0 selector (Config.categorySelectors cfg) broken;
       Dom.querySelectorAll := fun selector =>
         if String.eqb selector
              (Config.ProductListing.productLinks (Config.productListing cfg))
         then anchors_from 0 (nth (listing st) catalog [])
         else if String.eqb selector Scraper.category_markers
                 && JS.includes (location st) "/app/discover"
         then category_elements 0 (Config.categorySelectors cfg) broken
         else [];
       Dom.body := body_element;
       Dom.location_href := location st |}.

Definition listing_url : string := "https://shop.sysco.com/app/catalog".

Definition apply_effect (st : state) (f : Dom.effect) : state :=
  match f with
  | Dom.Click el | Dom.DispatchClick el =>
      if Nat.eqb (Dom.node el) 1
      then mkState listing_url (S (listing st)) (written st)
      else if Nat.leb 100 (Dom.node el) && Nat.ltb (Dom.node el) 1000
      then mkState listing_url 0 (written st)
      else st
  | _ => st
  end.

Definition driver (cfg : Config.t) (catalog : list (list string))
    (broken : list string) : Driver state :=
  {| goto := fun target _ _ st =>
       (JS.Ok tt, mkState target (listing st) (written st));
     url := location;
     document_of := fun st => JS.Ok (document_at cfg catalog broken st);
     perform := fun effects st => fold_left apply_effect effects st;
     handle_click := fun _ st => (JS.Ok tt, st);
     waitForNavigation := fun _ _ st => (JS.Ok tt, st);
     waitForSelector := fun _ _ st => (JS.Ok tt, st);
     time_passes := fun _ st => st;
     clock := fun _ i => 1700000000 + Z.of_nat i;
     today := fun _ => "2025-01-15";
     existsSync := fun _ _ => true;
     mkdirSync := fun _ st => (JS.Ok tt, st);
     writeFileSync := fun path table st =>
       mkState (location st) (listing st) (written st ++ [(path, table)]);
     project_root := "/srv/sysco-scraper" |}.

(** A site that shows the same page whatever is asked: the label of
    every category, an enabled next-page control, one product link and
    the sku of that product. *)
Definition same_document (cfg : Config.t) : Dom.document :=
  {| Dom.querySelector := fun selector =>
       if String.eqb selector
            (Config.ProductDetails.sku (Config.productDetails cfg))
       then Some (plain 2 "SPAN" "1000001" [] "" false)
       else if String.eqb selector
                 (Config.Pagination.nextButton (Config.pagination cfg))
       then Some next_button
       else find_category 0 selector (Config.categorySelectors cfg) [];
     Dom.querySelectorAll := fun selector =>
       if String.eqb selector
            (Config.ProductListing.productLinks (Config.productListing cfg))
       then [anchor 0 "https://shop.sysco.com/app/product/product-details/1000001"]
       else [];
     Dom.body := body_element;
     Dom.location_href := listing_url |}.

Definition same_page_driver (cfg : Config.t) : Driver unit :=
  {| goto := fun _ _ _ st => (JS.Ok tt, st);
     url := fun _ => listing_url;
     document_of := fun _ => JS.Ok (same_document cfg);
     perform := fun _ st => st;
     handle_click := fun _ st => (JS.Ok tt, st);
     waitForNavigation := fun _ _ st => (JS.Ok tt, st);
     waitForSelector := fun _ _ st => (JS.Ok tt, st);
     time_passes := fun _ st => st;
     clock := fun _ i => 1700000000 + Z.of_nat i;
     today := fun _ => "2025-01-15";
     existsSync := fun _ _ => true;
     mkdirSync := fun _ st => (JS.Ok tt, st);
     writeFileSync := fun _ _ st => st;
     project_root := "/srv/sysco-scraper" |}.

Definition same_page_start : World unit := mkWorld tt SyscoModels.empty_db [].

(** The world at the category list, with an empty table and no log. *)
Definition start : World state :=
  mkWorld (mkState "https://shop.sysco.com/app/discover" 0 [])
          SyscoModels.empty_db [].

Definition product_link (sku : string) : string :=
  "https://shop.sysco.com/app/product/product-details/" ++ sku.

End Site.

(* ================================================================== *)
(** * Observations on the trace of a run *)
(* ================================================================== *)

Module Trace.

Definition page_banner : string := "=== % - PAGE % ===".
Definition advance_banner : string := "Looking for next page button...".
Definition export_banner : string := "Exporting % products from % to CSV...".

(** The page numbers that the category walker announced, in order. *)
Fixpoint pages_scraped (l : list Logger.entry) : list Z :=
  match l with
  | [] => []
  | e :: l' =>
      if String.eqb (Logger.template e) page_banner
      then match Logger.args e with
           | [_; Logger.N n] => n :: pages_scraped l'
           | _ => pages_scraped l'
           end
      else pages_scraped l'
  end.

(** How many times a template was logged. *)
Definition count (template : string) (l : list Logger.entry) : nat :=
  List.length (filter (fun e => String.eqb (Logger.template e) template) l).

(** The page-advance navigations that were attempted. *)
Definition advances (l : list Logger.entry) : nat := count advance_banner l.

(** The exports that were started. *)
Definition exports (l : list Logger.entry) : nat := count export_banner l.

(** What the per-page summary reported: page number and number of
    products extracted from that page. *)
Fixpoint page_summaries (l : list Logger.entry) : list (Z * Z) :=
  match l with
  | [] => []
  | e :: l' =>
      if String.eqb (Logger.template e) "Page % complete: % products. Total: %"
      then match Logger.args e with
           | [Logger.N p; Logger.N n; _] => (p, n) :: page_summaries l'
           | _ => page_summaries l'
           end
      else page_summaries l'
  end.

(** The [n] pages from page [p] on, and the pages [1 .. n]. *)
Fixpoint pages_from (p : Z) (n : nat) : list Z :=
  match n with
  | O => []
  | S n' => p :: pages_from (p + 1) n'
  end.

Definition first_pages (n : nat) : list Z := pages_from 1 n.

End Trace.

(* ================================================================== *)
(** * Concrete configurations and sites *)
(* ================================================================== *)

Module Scenario.
Import Run.

(** [MAX_PAGES_PER_CATEGORY] and [MAX_PRODUCTS_PER_CATEGORY] set, nothing
    else. *)
Definition limits (maxPages maxProducts : Z) : Config.environment :=
  Config.mkEnvironment None (Some maxPages) (Some maxProducts)
    None None None None None None None None None.

(** [SYSCO_LOCATION_ZIP] set, nothing else. *)
Definition located (zip : string) : Config.environment :=
  Config.mkEnvironment (Some zip) None None
    None None None None None None None None None.

(** A document in which no selector matches anything. *)
Definition blank_document : Dom.document :=
  {| Dom.querySelector := fun _ => None;
     Dom.querySelectorAll := fun _ => [];
     Dom.body := Site.body_element;
     Dom.location_href := "https://shop.sysco.com/app/product-details/1000001" |}.

(** Three listing pages of one product each. *)
Definition one_per_page : list (list string) :=
  [ [Site.product_link "1000001"];
    [Site.product_link "1000002"];
    [Site.product_link "1000003"] ].

(** One product on the first page, two on the second. *)
Definition one_then_two : list (list string) :=
  [ [Site.product_link "1000001"];
    [Site.product_link "1000002"; Site.product_link "1000003"] ].

(** A listing whose links are product-details links only. *)
Definition details_links_only : list (list string) :=
  [ [ "https://shop.sysco.com/app/product-details/1000001";
      "https://shop.sysco.com/app/product-details/1000002" ] ].

(** A listing without links. *)
Definition no_links : list (list string) := [ [] ].

(** The world a run ends in, and what it returned. *)
Definition walk (cfg : Config.t) (catalog : list (list string))
    (broken : list string) (categoryName : string)
  : JS.outcome (list SyscoModels.ProductData.t) * World Site.state :=
  @Scraper.scrapeCategory _ (Site.driver cfg catalog broken) cfg categoryName
    Site.start.

Definition traverse (cfg : Config.t) (catalog : list (list string))
    (broken : list string)
  : JS.outcome (list SyscoModels.ProductData.t) * World Site.state :=
  @Scraper.scrapeAllCategories _ (Site.driver cfg catalog broken) cfg Site.start.

(** Number of products a run returned, [-1] if it threw. *)
Definition returned {A} (o : JS.outcome (list A)) : Z :=
  match o with
  | JS.Ok l => Z.of_nat (List.length l)
  | JS.Throw _ => -1
  end.

End Scenario.

(* ================================================================== *)
(** * Relations between the worlds before and after an operation *)
(* ================================================================== *)

Module Laws.
Import Async Run.

(** Every message the modelled functions log, except the banner of a
    page of the category walker and the banner of a page-advance
    navigation. *)
Definition quiet_templates : list string :=
  [
    "All retry attempts failed. Last error: %";
    "Operation successful after % attempts";
    "Attempt % failed: %";
    "Waiting %ms before retry attempt %...";
    "Extracted product: % (SKU: %) - Pack: %, Weight: %";
    "Extracting details from: %";
    "Product %/%: %";
    "Error processing product %:";
    "Failed to extract product %/%";
    "=== SCRAPING % - PAGE % ===";
    "Found % product links on page %";
    "No products found on page % for %";
    "Page % complete: % products. Total: %";
    "Saving % products from % page %...";
    "Successfully saved % products to database";
    "Database save error for % page %:";
    "Navigating back to category listing page: %";
    "Next page button clicked using method: %";
    "Navigated to page: %";
    "New products loaded after pagination";
    "Product loading timeout, checking if page content changed...";
    "Pagination ended - Reason: %";
    "Returning to category list page...";
    "Current URL before return: %";
    "Already on discover page, scrolling to top...";
    "Categories are visible, no navigation needed";
    "Navigating back to discover page...";
    "Successfully returned to category list page with % categories visible";
    "Returned to discover page but categories not immediately visible";
    "Categories found after scrolling: %";
    "Categories still not visible, continuing anyway...";
    "Failed to return to category list page:";
    "Last resort: refreshing discover page...";
    "Page refreshed successfully";
    "Failed to refresh page:";
    "Reached max pages limit (%) for %";
    "No more pages for %";
    "=== SCRAPING CATEGORY: % ===";
    "Unknown category: %";
    "Looking for category: % with selector: %";
    "Could not find or click category: %";
    "Clicked category %";
    "Navigation timeout, continuing...";
    "Current URL after category click: %";
    "Category % complete: % products from % pages";
    "=== PROGRESS UPDATE ===";
    "Category: % - Products: %";
    "Total Products So Far: %";
    "Exporting % products from % to CSV...";
    "CSV export completed successfully";
    "CSV export error for %:";
    "Error scraping category %:" ].

Definition is_quiet (template : string) : bool :=
  negb (String.eqb template Trace.page_banner)
  && negb (String.eqb template Trace.advance_banner).

(** The product object is one the extraction step can return: its sku
    is a non-empty text and it has a product name. *)
Definition extracted (p : SyscoModels.ProductData.t) : Prop :=
  exists s n,
    SyscoModels.ProductData.sku p = JS.Str s /\ s <> ""
    /\ SyscoModels.ProductData.product_name p = JS.Str n.

(** The location a product page shows: the text of its location
    marker, or the literal that the script of [extractProductDetails]
    falls back on.  It is the [location_zip] of the object the script
    returns. *)
Definition shown_location (selectors : Config.ProductDetails.t)
    (d : Dom.document) : string :=
  match Dom.querySelector d (Config.ProductDetails.locationZip selectors) with
  | Some zipcodeElement =>
      JS.or_else (JS.trim (Dom.textContent zipcodeElement)) "97209"
  | None => "97209"
  end.

(** An extracted product of the location [z]. *)
Definition of_location (z : string) (p : SyscoModels.ProductData.t) : Prop :=
  extracted p /\ SyscoModels.key_zip p = Some z.

(** Every row of the table carries the location [z]. *)
Definition located (z : string) (d : SyscoModels.database) : Prop :=
  Forall (fun r => SyscoModels.Row.location_zip r = Some z) (SyscoModels.rows d).

(** Every product of the list is an extracted one and present in
    storage: a row carries its key [(sku, location_zip)]. *)
Definition all_stored (ps : list SyscoModels.ProductData.t)
    (d : SyscoModels.database) : Prop :=
  Forall (fun p => extracted p /\ SyscoModels.stored p d = true) ps.

(** The table holds the values of the products of the list, saved in
    this order with the session token [null]: under the key of each
    product that no later product of the list shares its sku with, a row
    carries the values that the product's upsert bound. *)
Definition holds_values (ps : list SyscoModels.ProductData.t)
    (d : SyscoModels.database) : Prop :=
  forall pre p post,
    ps = (pre ++ p :: post)%list ->
    (forall q, In q post ->
               SyscoModels.sql_conflict (SyscoModels.key_sku p)
                                        (SyscoModels.key_sku q) = false) ->
    exists r, In r (SyscoModels.rows d)
              /\ SyscoModels.Row.sku r = SyscoModels.key_sku p
              /\ SyscoModels.Row.location_zip r = SyscoModels.key_zip p
              /\ SyscoModels.assigned_columns r
                 = SyscoModels.bound_columns p JS.Null.

(** The entries that handling a category logs after its walk
    returned, around the export and when the walk threw. *)
Definition progress_entries (category : string)
    (all categoryProducts : list SyscoModels.ProductData.t) : list Logger.entry :=
  [ Logger.mk Logger.info "=== PROGRESS UPDATE ===" [];
    Logger.mk Logger.info "Category: % - Products: %"
      [Logger.S category; Logger.N (Scraper.length_Z categoryProducts)];
    Logger.mk Logger.info "Total Products So Far: %"
      [Logger.N (Scraper.length_Z (all ++ categoryProducts))] ].

Definition exporting_entry (category : string)
    (categoryProducts : list SyscoModels.ProductData.t) : Logger.entry :=
  Logger.mk Logger.info Trace.export_banner
    [Logger.N (Scraper.length_Z categoryProducts); Logger.S category].

Definition scrape_error_entry (category : string) (e : JS.error) : Logger.entry :=
  Logger.mk Logger.error "Error scraping category %:"
    [Logger.S category; Logger.S (JS.message e)].

Definition export_error_entry (category : string) (e : JS.error) : Logger.entry :=
  Logger.mk Logger.error "CSV export error for %:"
    [Logger.S category; Logger.S (JS.message e)].

Definition export_done_entry : Logger.entry :=
  Logger.mk Logger.info "CSV export completed successfully" [].

Section WithEnv.
Context {E : Type}.

(** The world with more entries in its log. *)
Definition with_log (w : World E) (l : list Logger.entry) : World E :=
  mkWorld (env w) (db w) (logged w ++ l).

(** [R] relates the world before an operation to the world after it,
    whether the operation returns or throws. *)
Definition holds_after {A} (R : World E -> World E -> Prop)
    (m : M (World E) A) : Prop :=
  forall w, R w (snd (m w)).

(** [m] returns, whatever the world, a value that satisfies [Q]. *)
Definition returns {A} (Q : A -> Prop) (m : M (World E) A) : Prop :=
  forall w, exists a w', m w = (JS.Ok a, w') /\ Q a.

(** When [m] is run in a world that satisfies [P], the value and the
    world satisfy [Q] if it returns, and the world satisfies [X] if it
    throws. *)
Definition hoare {A} (P : World E -> Prop) (m : M (World E) A)
    (Q : A -> World E -> Prop) (X : World E -> Prop) : Prop :=
  forall w, P w ->
    match m w with
    | (JS.Ok a, w') => Q a w'
    | (JS.Throw _, w') => X w'
    end.

(** The table is as it was. *)
Definition unchanged (w w' : World E) : Prop := db w' = db w.

(** The operation added entries to the log that announce the pages
    [pages] and [n] page-advance navigations. *)
Definition emits (pages : list Z) (n : nat) (w w' : World E) : Prop :=
  exists l, logged w' = (logged w ++ l)%list
            /\ Trace.pages_scraped l = pages /\ Trace.advances l = n.

(** Only quiet messages were logged. *)
Definition quiet (w w' : World E) : Prop := emits [] 0 w w'.

(** The walk of a category from page [p] on, with [maxPages] allowed:
    it announced consecutive pages from [p], none beyond [maxPages],
    and attempted at most one page-advance navigation per page, none
    after page [maxPages]. *)
Definition walked (maxPages p : Z) (w w' : World E) : Prop :=
  exists n a,
    emits (Trace.pages_from p n) a w w'
    /\ Z.of_nat n <= Z.max 0 (maxPages + 1 - p)
    /\ (a <= n)%nat
    /\ Z.of_nat a <= Z.max 0 (maxPages - p).

(** The state of the table while the categories are handled: every
    row carries the location [z], and the products collected so far
    are present in storage. *)
Definition settled (z : string) (ps : list SyscoModels.ProductData.t)
    (w : World E) : Prop :=
  located z (db w) /\ all_stored ps (db w).

(** The state of the table while a category is walked: as above for
    the products [before] of the categories handled before, and the
    products [acc] of the pages walked so far are of the location [z],
    present in storage and held with their values. *)
Definition walking (z : string) (before acc : list SyscoModels.ProductData.t)
    (w : World E) : Prop :=
  settled z (before ++ acc) w
  /\ Forall (of_location z) acc
  /\ holds_values acc (db w).

End WithEnv.
End Laws.

(* ================================================================== *)
(** * Insertion into an ordered list *)
(* ================================================================== *)

Module Sorting.
Section Insertion.
Context {A : Type}.
Variable leb : A -> A -> bool.

(** [x] put before the first element that it precedes or equals. *)
Fixpoint insert_by (x : A) (l : list A) : list A :=
  match l with
  | [] => [x]
  | y :: l' => if leb x y then x :: l else y :: insert_by x l'
  end.

Definition sort_by (l : list A) : list A := fold_right insert_by [] l.
End Insertion.
End Sorting.

(* ================================================================== *)
(** * [sysco-models.js]: the read-only queries *)
(* ================================================================== *)

Module Queries.
Import SyscoModels.

(** [getTotalProductCount()]: [SELECT COUNT( * ) as count FROM
    sysco_products]. *)
Definition getTotalProductCount (d : database) : Z :=
  Z.of_nat (List.length (rows d)).

(** [WHERE category = ?]: NULL, in the column or as the parameter, is
    equal to nothing. *)
Definition category_is (category : sql) (r : Row.t) : bool :=
  sql_conflict (Row.category r) category.

Fixpoint insert_newest_first (r : Row.t) (rs : list Row.t) : list Row.t :=
  match rs with
  | [] => [r]
  | r' :: rs' =>
      if Row.updated_date r' <=? Row.updated_date r then r :: rs
      else r' :: insert_newest_first r rs'
  end.

(** [ORDER BY updated_date DESC].  SQL leaves the order of rows with equal
    dates open; here they keep the order of the table. *)
Definition order_by_updated_desc (rs : list Row.t) : list Row.t :=
  fold_right insert_newest_first [] rs.

(** [getProductsByCategory(category, limit = null)].  The [LIMIT] clause
    is added when [limit] is truthy, so not for [0]; a negative [LIMIT]
    is no bound at all. *)
Definition getProductsByCategory (category : JS.value) (limit : option Z)
    (d : database) : list Row.t :=
  let selected :=
    order_by_updated_desc (filter (category_is (bind category)) (rows d)) in
  match limit with
  | None => selected
  | Some n =>
      if n =? 0 then selected
      else if n <? 0 then selected
      else firstn (Z.to_nat n) selected
  end.

(** [COUNT( * )] of the group of a value: NULLs form one group. *)
Definition count_of (v : sql) (vs : list sql) : Z :=
  Z.of_nat (List.length (filter (sql_eqb v) vs)).

(** The order of the values of a grouping column: NULL first, text by
    its bytes. *)
Definition key_leb (a b : sql) : bool :=
  match Gateway.sql_compare a b with
  | Gt => false
  | _ => true
  end.

(** [SELECT col, COUNT( * ) as count ... GROUP BY col]: one result row
    per distinct value of the column.  SQLite forms the groups by
    walking the column in order, so the groups come in the order of
    their values. *)
Definition group_by (col : Row.t -> sql) (d : database) : list (sql * Z) :=
  let vs := map col (rows d) in
  map (fun v => (v, count_of v vs))
      (Sorting.sort_by key_leb (Gateway.distinct [] vs)).

Fixpoint insert_largest_first (g : sql * Z) (gs : list (sql * Z))
  : list (sql * Z) :=
  match gs with
  | [] => [g]
  | g' :: gs' =>
      if snd g' <=? snd g then g :: gs
      else g' :: insert_largest_first g gs'
  end.

(** [ORDER BY count DESC]; groups of equal size keep the order they
    had. *)
Definition order_by_count_desc (gs : list (sql * Z)) : list (sql * Z) :=
  fold_right insert_largest_first [] gs.

(** [getProductCountByCategory()] *)
Definition getProductCountByCategory (d : database) : list (sql * Z) :=
  order_by_count_desc (group_by Row.category d).

(** [picture_url IS NOT NULL AND picture_url != ''].  The query writes
    the empty text, like ['now'] below, between double quotes; no column
    bears such a name, so SQLite reads a text. *)
Definition has_image (r : Row.t) : bool :=
  match Row.picture_url r with
  | Some s => negb (String.eqb s "")
  | None => false
  end.

(** [date(t)]: the day of a time given in seconds. *)
Definition date (t : timestamp) : Z := t / 86400.

Definition count_rows (f : Row.t -> bool) (d : database) : Z :=
  Z.of_nat (List.length (filter f (rows d))).

(** The object [getStatistics()] resolves with.  No query fails on an
    existing table, so every key is set. *)
Record statistics : Type := mkStatistics {
  total : Z;
  byCategory : list (sql * Z);
  byBrand : list (sql * Z);
  withImages : Z;
  recentlyScraped : Z
}.

(** [getStatistics()], with [now] the time of the call. *)
Definition getStatistics (now : timestamp) (d : database) : statistics :=
  {| total := Z.of_nat (List.length (rows d));
     byCategory := order_by_count_desc (group_by Row.category d);
     byBrand := firstn 10 (order_by_count_desc (group_by Row.brand_name d));
     withImages := count_rows has_image d;
     recentlyScraped :=
       count_rows (fun r => date (Row.scraped_date r) =? date now) d |}.

(** The sum of the counts of a grouped result. *)
Definition sum_counts (gs : list (sql * Z)) : Z :=
  fold_right (fun g acc => snd g + acc) 0 gs.

(** [updated_date] set, every other column kept. *)
Definition touch (now : timestamp) (r : Row.t) : Row.t :=
  do_update now r r.

End Queries.

(* ================================================================== *)
(** * [sysco-models.js]: what the export is asked to write *)
(* ================================================================== *)

Module CsvExport.
Import Puppeteer Run.

(** The columns of the file: [options.includeAll ? [...requiredColumns,
    ...additionalColumns] : requiredColumns]. *)
Definition export_columns (includeAll : bool) : list string :=
  if includeAll then (Gateway.requiredColumns ++ Gateway.additionalColumns)%list
  else Gateway.requiredColumns.

Section WithDriver.
Context {E : Type} `{Driver E}.

(** [outputPath || defaultPath] *)
Definition export_path (outputPath : option string) (w : World E) : string :=
  let defaultPath :=
    project_root ++ "/data/sysco_products_" ++ today (env w) ++ ".csv" in
  match outputPath with
  | Some p => JS.or_else p defaultPath
  | None => defaultPath
  end.
End WithDriver.
End CsvExport.

(* ================================================================== *)
(** * Observing a run of [retry] *)
(* ================================================================== *)

Module Probe.
Import Async.

(** What is observed of a run: the outcome of each invocation of the
    operation and each delay that was awaited, in order. *)
Record observed (A : Type) : Type := mkObserved {
  invocations : list (JS.outcome A);
  waits : list Z
}.
Arguments mkObserved {A} invocations waits.
Arguments invocations {A} o.
Arguments waits {A} o.

Definition nothing {A : Type} : observed A := mkObserved [] [].

Section Observe.
Context {St : Type} `{Runtime St} {A : Type}.

(** The runtime that notes the delays. *)
Definition Runtime_observed : Runtime (St * observed A) :=
  {| sleep := fun ms so =>
       (sleep ms (fst so),
        mkObserved (invocations (snd so)) (waits (snd so) ++ [ms])%list);
     write_log := fun e so => (write_log e (fst so), snd so) |}.

(** The operation, noting the outcome of each invocation. *)
Definition observe (operation : M St A) : M (St * observed A) A :=
  fun so =>
    let '(o, s') := operation (fst so) in
    (o, (s', mkObserved (invocations (snd so) ++ [o])%list (waits (snd so)))).

(** [retry(operation, options)] under observation. *)
Definition observed_retry (operation : M St A) (o : Helpers.options) (s : St)
  : JS.outcome A * (St * observed A) :=
  @Helpers.retry _ Runtime_observed _ (observe operation) o (s, nothing).
End Observe.

(** The attempts [a], [a + 1], ... ([k] of them). *)
Fixpoint attempts (a : Z) (k : nat) : list Z :=
  match k with
  | O => []
  | S k' => a :: attempts (a + 1) k'
  end.

(** The delays awaited after the attempts [1 .. k]. *)
Definition backoff (o : Helpers.options) (k : nat) : list Z :=
  map (Helpers.retryDelay_at o) (attempts 1 k).

Definition total (l : list Z) : Z := fold_right Z.add 0 l.

(** The error that reading [lastError.message] raises when no attempt was
    made. *)
Definition no_lastError : JS.error :=
  JS.mkError "TypeError" "Cannot read properties of undefined (reading 'message')".

End Probe.

(* ================================================================== *)
(** * What an operation can return and what it can throw *)
(* ================================================================== *)

Module Outcomes.
Import Async Run.

Section WithEnv.
Context {E : Type}.

(** Whenever [m] returns, the value satisfies [Q]. *)
Definition yields {A} (Q : A -> Prop) (m : M (World E) A) : Prop :=
  forall w a w', m w = (JS.Ok a, w') -> Q a.

(** Whenever [m] throws, the error satisfies [P]. *)
Definition fails_only {A} (P : JS.error -> Prop) (m : M (World E) A) : Prop :=
  forall w e w', m w = (JS.Throw e, w') -> P e.

End WithEnv.

(** The DOM actions of a script that click. *)
Definition is_click (f : Dom.effect) : bool :=
  match f with
  | Dom.Click _ | Dom.DispatchClick _ => true
  | _ => false
  end.

Definition clicked (f : Dom.effect) : option Dom.element :=
  match f with
  | Dom.Click el | Dom.DispatchClick el => Some el
  | _ => None
  end.

(** A button that the next-page script treats as usable: not disabled,
    not [aria-disabled], and of neither class [disabled] nor
    [inactive]. *)
Definition usable (b : Dom.element) : bool :=
  negb (Dom.disabled b
        || match Dom.getAttribute b "aria-disabled" with
           | Some v => String.eqb v "true"
           | None => false
           end
        || Dom.classList_contains b "disabled"
        || Dom.classList_contains b "inactive").

End Outcomes.

(* ================================================================== *)
(** * More of JavaScript's string functions *)
(* ================================================================== *)

Module Text.

(** The value of a character as a digit: [0-9], then [a-z] and [A-Z]
    for 10 to 35. *)
Definition digit_value (c : ascii) : option Z :=
  let n := Z.of_nat (nat_of_ascii c) in
  if (48 <=? n) && (n <=? 57) then Some (n - 48)
  else if (97 <=? n) && (n <=? 122) then Some (n - 87)
  else if (65 <=? n) && (n <=? 90) then Some (n - 55)
  else None.

(** The values of the longest prefix made of digits of the radix. *)
Fixpoint leading_digits (radix : Z) (s : string) : list Z :=
  match s with
  | EmptyString => []
  | String c s' =>
      match digit_value c with
      | Some v => if v <? radix then v :: leading_digits radix s' else []
      | None => []
      end
  end.

Definition value_of (radix : Z) (ds : list Z) : Z :=
  fold_left (fun acc v => acc * radix + v) ds 0.

(** The integer that [parseInt(s)], called without a radix, reads:
    leading white space is skipped, a sign is read, the prefix [0x] or
    [0X] selects radix 16, and the longest run of digits is the number.
    [None] stands for [NaN], which is what an empty run gives. *)
Definition integer_of (s : string) : option Z :=
  let t := JS.trim_start s in
  let '(sign, t1) :=
    match t with
    | String "-" r => (-1, r)
    | String "+" r => (1, r)
    | _ => (1, t)
    end in
  let '(radix, t2) :=
    match t1 with
    | String "0" (String "x" r) => (16, r)
    | String "0" (String "X" r) => (16, r)
    | _ => (10, t1)
    end in
  match leading_digits radix t2 with
  | [] => None
  | ds => Some (sign * value_of radix ds)
  end.

(** The double nearest to an integer [m >= 0], the one with the even
    significand when two are equally near.  Up to [2 ^ 53] every integer
    is a double; above, [m] is cut to its 53 leading bits and rounded on
    what is cut off. *)
Definition nearest_double (m : Z) : Z :=
  if m <=? 2 ^ 53 then m
  else
    let e := Z.log2 m - 52 in
    let q := Z.shiftr m e in
    let r := m - Z.shiftl q e in
    let half := 2 ^ (e - 1) in
    let q' := if (half <? r) || ((r =? half) && Z.odd q) then q + 1 else q in
    Z.shiftl q' e.

(** The number value of an integer. *)
Definition number_of (n : Z) : Z := Z.sgn n * nearest_double (Z.abs n).

(** [parseInt(s)]: the number value of the integer read.  (An integer
    of [2 ^ 1024] or more, which takes more than 300 digits, reads as
    [Infinity], a value that no setting of this model holds.) *)
Definition parseInt (s : string) : option Z :=
  match integer_of s with
  | Some n => Some (number_of n)
  | None => None
  end.

End Text.

(* ================================================================== *)
(** * [sysco-config.js]: the configuration as read from [process.env] *)
(* ================================================================== *)

Module Environment.

(** The variables of [process.env] that the settings of the browser and
    of the scraper are read from, each unset or a text. *)
Record t : Type := mk {
  HEADLESS : option string;
  VIEWPORT_WIDTH : option string;
  VIEWPORT_HEIGHT : option string;
  SYSCO_LOCATION_ZIP : option string;
  MAX_PAGES_PER_CATEGORY : option string;
  MAX_PRODUCTS_PER_CATEGORY : option string;
  DELAY_PAGE_LOAD : option string;
  DELAY_MODAL_HANDLING : option string;
  DELAY_BETWEEN_PRODUCTS : option string;
  DELAY_BETWEEN_CATEGORIES : option string;
  DELAY_AFTER_CATEGORY_CLICK : option string;
  DELAY_PAGINATION : option string;
  DELAY_PRODUCT_DETAILS : option string;
  MAX_RETRIES : option string;
  RETRY_BASE_DELAY : option string
}.

(** [parseInt(process.env.X)]: an unset variable is [undefined], which
    parses to [NaN]. *)
Definition number (v : option string) : option Z :=
  match v with
  | None => None
  | Some s => Text.parseInt s
  end.

(** The numbers that [syscoConfig.scraping] is built from. *)
Definition parsed (env : t) : Config.environment :=
  {| Config.SYSCO_LOCATION_ZIP := SYSCO_LOCATION_ZIP env;
     Config.MAX_PAGES_PER_CATEGORY := number (MAX_PAGES_PER_CATEGORY env);
     Config.MAX_PRODUCTS_PER_CATEGORY := number (MAX_PRODUCTS_PER_CATEGORY env);
     Config.DELAY_PAGE_LOAD := number (DELAY_PAGE_LOAD env);
     Config.DELAY_MODAL_HANDLING := number (DELAY_MODAL_HANDLING env);
     Config.DELAY_BETWEEN_PRODUCTS := number (DELAY_BETWEEN_PRODUCTS env);
     Config.DELAY_BETWEEN_CATEGORIES := number (DELAY_BETWEEN_CATEGORIES env);
     Config.DELAY_AFTER_CATEGORY_CLICK := number (DELAY_AFTER_CATEGORY_CLICK env);
     Config.DELAY_PAGINATION := number (DELAY_PAGINATION env);
     Config.DELAY_PRODUCT_DETAILS := number (DELAY_PRODUCT_DETAILS env);
     Config.MAX_RETRIES := number (MAX_RETRIES env);
     Config.RETRY_BASE_DELAY := number (RETRY_BASE_DELAY env) |}.

(** [syscoConfig.scraping] *)
Definition scraping (env : t) : Config.t := Config.syscoConfig (parsed env).

(** [syscoConfig.puppeteer] *)
Record puppeteer_options : Type := mkPuppeteer {
  headless : bool;
  viewport_width : Z;
  viewport_height : Z;
  args : list string;
  userAgent : string
}.

Definition puppeteer (env : t) : puppeteer_options :=
  {| (* process.env.HEADLESS !== 'false' *)
     headless :=
       match HEADLESS env with
       | Some v => negb (String.eqb v "false")
       | None => true
       end;
     viewport_width := Config.number_or (number (VIEWPORT_WIDTH env)) 1920;
     viewport_height := Config.number_or (number (VIEWPORT_HEIGHT env)) 1080;
     args :=
       [ "--no-sandbox"; "--disable-setuid-sandbox"; "--disable-dev-shm-usage";
         "--disable-accelerated-2d-canvas"; "--no-first-run"; "--no-zygote";
         "--disable-gpu" ];
     userAgent :=
       "Mozilla/5.0 (Windows NT 10.0; Win64; x64) AppleWebKit/537.36 (KHTML, like Gecko) Chrome/120.0.0.0 Safari/537.36" |}.

(** Nothing set. *)
Definition unset : t :=
  mk None None None None None None None None None None None None None None None.

(** The numeric settings of [syscoConfig.scraping]. *)
Definition numeric_settings (c : Config.t) : list Z :=
  [ Config.maxPagesPerCategory c;
    Config.maxProductsPerCategory c;
    Config.Delays.pageLoad (Config.delays c);
    Config.Delays.modalHandling (Config.delays c);
    Config.Delays.betweenProducts (Config.delays c);
    Config.Delays.betweenCategories (Config.delays c);
    Config.Delays.afterCategoryClick (Config.delays c);
    Config.Delays.pagination (Config.delays c);
    Config.Delays.productDetails (Config.delays c);
    Config.Retry.maxRetries (Config.retry c);
    Config.Retry.baseDelay (Config.retry c) ].

End Environment.

(* ================================================================== *)
(** * Concrete objects and stores *)
(* ================================================================== *)

Module Fixtures.
Import SyscoModels Run.

(** A product object that has a name and nothing else. *)
Definition unkeyed (name : string) : ProductData.t :=
  {| ProductData.sku := JS.Undefined;
     ProductData.product_name := JS.Str name;
     ProductData.brand_name := JS.Undefined;
     ProductData.packaging_information := JS.Undefined;
     ProductData.packaging_size := JS.Undefined;
     ProductData.picture_url := JS.Undefined;
     ProductData.description := JS.Undefined;
     ProductData.category := JS.Undefined;
     ProductData.product_url := JS.Undefined;
     ProductData.unit_size := JS.Undefined;
     ProductData.case_size := JS.Undefined;
     ProductData.weight := JS.Undefined;
     ProductData.upc := JS.Undefined;
     ProductData.gtin := JS.Undefined;
     ProductData.supplier := JS.Undefined;
     ProductData.manufacturer := JS.Undefined;
     ProductData.specifications := JS.Undefined;
     ProductData.nutrition_info := JS.Undefined;
     ProductData.ingredients := JS.Undefined;
     ProductData.allergens := JS.Undefined;
     ProductData.storage_instructions := JS.Undefined;
     ProductData.shelf_life := JS.Undefined;
     ProductData.location_zip := JS.Undefined;
     ProductData.structured_data := JS.Undefined |}.

(** The object [p] with its [category] set. *)
Definition in_category (p : ProductData.t) (c : string) : ProductData.t :=
  {| ProductData.sku := ProductData.sku p;
     ProductData.product_name := ProductData.product_name p;
     ProductData.brand_name := ProductData.brand_name p;
     ProductData.packaging_information := ProductData.packaging_information p;
     ProductData.packaging_size := ProductData.packaging_size p;
     ProductData.picture_url := ProductData.picture_url p;
     ProductData.description := ProductData.description p;
     ProductData.category := JS.Str c;
     ProductData.product_url := ProductData.product_url p;
     ProductData.unit_size := ProductData.unit_size p;
     ProductData.case_size := ProductData.case_size p;
     ProductData.weight := ProductData.weight p;
     ProductData.upc := ProductData.upc p;
     ProductData.gtin := ProductData.gtin p;
     ProductData.supplier := ProductData.supplier p;
     ProductData.manufacturer := ProductData.manufacturer p;
     ProductData.specifications := ProductData.specifications p;
     ProductData.nutrition_info := ProductData.nutrition_info p;
     ProductData.ingredients := ProductData.ingredients p;
     ProductData.allergens := ProductData.allergens p;
     ProductData.storage_instructions := ProductData.storage_instructions p;
     ProductData.shelf_life := ProductData.shelf_life p;
     ProductData.location_zip := ProductData.location_zip p;
     ProductData.structured_data := ProductData.structured_data p |}.

(** The scripted site at the category list, with one product stored. *)
Definition stocked : World Site.state :=
  mkWorld (Site.mkState "https://shop.sysco.com/app/discover" 0 [])
          store_with_other_location [].

(** The scripted site at the category list; the table holds the first
    product of its listings for another location. *)
Definition held_elsewhere : World Site.state :=
  mkWorld (Site.mkState "https://shop.sysco.com/app/discover" 0 [])
          (snd (upsertProduct 100
                  (sample (Site.product_link "1000001") "Carrots" "Sysco" "10001")
                  JS.Null empty_db))
          [].

(** The scripted site under the shipped configuration, with no listing. *)
Definition plain_site : Puppeteer.Driver Site.state :=
  Site.driver (Config.syscoConfig Config.no_environment) [] [].

(** A site on which no selector ever matches anything. *)
Definition blank_site : Puppeteer.Driver unit :=
  {| Puppeteer.goto := fun _ _ _ st => (JS.Ok tt, st);
     Puppeteer.url := fun _ => "about:blank";
     Puppeteer.document_of := fun _ => JS.Ok Scenario.blank_document;
     Puppeteer.perform := fun _ st => st;
     Puppeteer.handle_click := fun _ st => (JS.Ok tt, st);
     Puppeteer.waitForNavigation := fun _ _ st => (JS.Ok tt, st);
     Puppeteer.waitForSelector := fun _ _ st => (JS.Ok tt, st);
     Puppeteer.time_passes := fun _ st => st;
     Puppeteer.clock := fun _ i => 1700000000 + Z.of_nat i;
     Puppeteer.today := fun _ => "2025-01-15";
     Puppeteer.existsSync := fun _ _ => true;
     Puppeteer.mkdirSync := fun _ st => (JS.Ok tt, st);
     Puppeteer.writeFileSync := fun _ _ st => st;
     Puppeteer.project_root := "/srv/sysco-scraper" |}.

(** [MAX_RETRIES=-1], nothing else. *)
Definition retries_off : Environment.t :=
  Environment.mk None None None None None None None None None None None None None
    (Some "-1") None.

(** A numbered page button. *)
Definition page_button (n : Z) (active : bool) : Dom.element :=
  {| Dom.node := 10 + Z.to_nat n;
     Dom.tagName := "BUTTON";
     Dom.textContent := JS.string_of_Z n;
     Dom.attributes := [("data-id", "button_page_" ++ JS.string_of_Z n)];
     Dom.disabled := false;
     Dom.classList := if active then ["active"] else [];
     Dom.href := "";
     Dom.onclick := false;
     Dom.click_throws := false;
     Dom.parentElement := None |}.

(** A listing with numbered page buttons 1 to 3 and no next button; page
    2 is the active one. *)
Definition numbered_document : Dom.document :=
  let buttons := "button[data-id^=" ++ JS.quoted "button_page_" ++ "]" in
  {| Dom.querySelector := fun selector =>
       if String.eqb selector (buttons ++ ".active, " ++ buttons ++ "[disabled]")
       then Some (page_button 2 true)
       else if String.eqb selector
                 ("button[data-id=" ++ JS.quoted "button_page_3" ++ "]")
       then Some (page_button 3 false)
       else None;
     Dom.querySelectorAll := fun selector =>
       if String.eqb selector buttons
       then [page_button 1 false; page_button 2 true; page_button 3 false]
       else [];
     Dom.body := Site.body_element;
     Dom.location_href := Site.listing_url |}.

End Fixtures.

(* ================================================================== *)
(** * Properties of the persistence gateway *)
(* ================================================================== *)

Section PersistenceFacts.
Import SyscoModels.

Lemma sql_conflict_true (a b : sql) :
  sql_conflict a b = true <-> exists s, a = Some s /\ b = Some s.
Proof.
  destruct a as [x|], b as [y|]; simpl; split;
    try discriminate; try (intros [s [H1 H2]]; discriminate).
  - intros H. apply String.eqb_eq in H. subst. eauto.
  - intros [s [H1 H2]]. inversion H1; inversion H2; subst. apply String.eqb_refl.
Qed.

Lemma sql_conflict_refl (s : string) : sql_conflict (Some s) (Some s) = true.
Proof. simpl. apply String.eqb_refl. Qed.

Lemma sql_eqb_eq (a b : sql) : sql_eqb a b = true <-> a = b.
Proof.
  destruct a as [x|], b as [y|]; simpl; split; try discriminate; try reflexivity.
  - intros H. apply String.eqb_eq in H. now subst.
  - intros H. inversion H. apply String.eqb_refl.
Qed.

Lemma conflicts_key_sku (sku zip : sql) (r : Row.t) :
  conflicts_key sku zip r = true -> conflicts_sku sku r = true.
Proof. unfold conflicts_key, conflicts_sku. intros H. now apply andb_prop in H. Qed.

Lemma existsb_false_filter {A} (f : A -> bool) (l : list A) :
  existsb f l = false <-> filter f l = [].
Proof.
  induction l as [|x l IH]; simpl; [tauto|].
  destruct (f x); simpl; [split; discriminate | exact IH].
Qed.

Lemma existsb_false_forall {A} (f : A -> bool) (l : list A) :
  existsb f l = false <-> forall x, In x l -> f x = false.
Proof.
  induction l as [|x l IH]; simpl.
  - split; [intros _ y []| reflexivity].
  - rewrite orb_false_iff, IH. split.
    + intros [Hx Hl] y [<-|Hy]; auto.
    + intros H. split; [apply H; now left | intros y Hy; apply H; now right].
Qed.

Lemma map_guard_id {A} (f : A -> bool) (g : A -> A) (l : list A) :
  (forall x, In x l -> f x = false) ->
  map (fun r => if f r then g r else r) l = l.
Proof.
  induction l as [|x l IH]; simpl; intros H; [reflexivity|].
  rewrite (H x (or_introl eq_refl)), IH; [reflexivity|].
  intros y Hy. apply H. now right.
Qed.

(** The three ways the statement can end. *)
Lemma run_upsert_not_null now p sid db :
  bind (ProductData.product_name p) = None ->
  run_upsert now p sid db = (inl NotNull_product_name, db).
Proof. unfold run_upsert. simpl. intros ->. reflexivity. Qed.

Lemma run_upsert_insert now p sid db :
  bind (ProductData.product_name p) <> None ->
  existsb (conflicts_sku (key_sku p)) (rows db) = false ->
  run_upsert now p sid db =
    (inr (resolve_with (seq db + 1) 1),
     mkDb (rows db ++ [excluded_row now (seq db + 1) p sid])
          (seq db + 1) (seq db + 1)).
Proof.
  intros Hn Hs. unfold run_upsert. simpl Row.product_name.
  destruct (bind (ProductData.product_name p)) eqn:E; [|congruence].
  simpl Row.sku. simpl Row.location_zip. fold (key_sku p). fold (key_zip p).
  assert (Hk : existsb (conflicts_key (key_sku p) (key_zip p)) (rows db) = false).
  { apply existsb_false_forall. intros r Hr.
    destruct (conflicts_key (key_sku p) (key_zip p) r) eqn:C; [|reflexivity].
    apply conflicts_key_sku in C.
    rewrite (proj1 (existsb_false_forall _ _) Hs r Hr) in C. discriminate. }
  rewrite Hk, Hs. reflexivity.
Qed.

Lemma run_upsert_update now p sid db :
  bind (ProductData.product_name p) <> None ->
  existsb (conflicts_key (key_sku p) (key_zip p)) (rows db) = true ->
  run_upsert now p sid db =
    (inr (resolve_with (last_insert_rowid db) 1),
     mkDb (map (fun r => if conflicts_key (key_sku p) (key_zip p) r
                         then do_update now (excluded_row now (seq db + 1) p sid) r
                         else r) (rows db))
          (seq db + 1) (last_insert_rowid db)).
Proof.
  intros Hn Hk. unfold run_upsert. simpl Row.product_name.
  destruct (bind (ProductData.product_name p)) eqn:E; [|congruence].
  simpl Row.sku. simpl Row.location_zip. fold (key_sku p). fold (key_zip p).
  rewrite Hk. reflexivity.
Qed.

Lemma run_upsert_unique_sku now p sid db :
  bind (ProductData.product_name p) <> None ->
  existsb (conflicts_key (key_sku p) (key_zip p)) (rows db) = false ->
  existsb (conflicts_sku (key_sku p)) (rows db) = true ->
  run_upsert now p sid db = (inl Unique_sku, db).
Proof.
  intros Hn Hk Hs. unfold run_upsert. simpl Row.product_name.
  destruct (bind (ProductData.product_name p)) eqn:E; [|congruence].
  simpl Row.sku. simpl Row.location_zip. fold (key_sku p). fold (key_zip p).
  rewrite Hk, Hs. reflexivity.
Qed.

(** Case analysis on a call of [upsertProduct]. *)
Lemma upsertProduct_cases now p sid db :
  (upsertProduct now p sid db = (JS.Throw (error_of NotNull_product_name), db)
     /\ bind (ProductData.product_name p) = None)
  \/ (upsertProduct now p sid db = (JS.Throw (error_of Unique_sku), db)
     /\ existsb (conflicts_key (key_sku p) (key_zip p)) (rows db) = false
     /\ existsb (conflicts_sku (key_sku p)) (rows db) = true)
  \/ (upsertProduct now p sid db =
        (JS.Ok (resolve_with (seq db + 1) 1),
         mkDb (rows db ++ [excluded_row now (seq db + 1) p sid])
              (seq db + 1) (seq db + 1))
     /\ existsb (conflicts_sku (key_sku p)) (rows db) = false)
  \/ (upsertProduct now p sid db =
        (JS.Ok (resolve_with (last_insert_rowid db) 1),
         mkDb (map (fun r => if conflicts_key (key_sku p) (key_zip p) r
                             then do_update now (excluded_row now (seq db + 1) p sid) r
                             else r) (rows db))
              (seq db + 1) (last_insert_rowid db))
     /\ existsb (conflicts_key (key_sku p) (key_zip p)) (rows db) = true).
Proof.
  unfold upsertProduct.
  destruct (bind (ProductData.product_name p)) eqn:E.
  - assert (Hn : bind (ProductData.product_name p) <> None) by congruence.
    destruct (existsb (conflicts_key (key_sku p) (key_zip p)) (rows db)) eqn:Hk.
    + right; right; right. rewrite run_upsert_update by assumption. auto.
    + destruct (existsb (conflicts_sku (key_sku p)) (rows db)) eqn:Hs.
      * right; left. rewrite run_upsert_unique_sku by assumption. auto.
      * right; right; left. rewrite run_upsert_insert by assumption. auto.
  - left. rewrite run_upsert_not_null by assumption. auto.
Qed.

(** ** Upserting twice under one key *)

(** On a store that holds no row for the [sku] at all, two upserts under
    the same [(sku, location_zip)] leave exactly one row for the key: it
    carries the second call's values, the first call's [scraped_date] and
    the second call's [updated_date], and the table grew by that one
    row. *)
Lemma upsert_twice_same_key now1 now2 r1 r2 sid1 sid2 db s z :
  key_sku r1 = Some s -> key_zip r1 = Some z ->
  key_sku r2 = Some s -> key_zip r2 = Some z ->
  bind (ProductData.product_name r1) <> None ->
  bind (ProductData.product_name r2) <> None ->
  rows_with_sku (Some s) db = [] ->
  let db1 := snd (upsertProduct now1 r1 sid1 db) in
  let db2 := snd (upsertProduct now2 r2 sid2 db1) in
  exists row,
    rows_with_key (Some s) (Some z) db2 = [row]
    /\ assigned_columns row = bound_columns r2 sid2
    /\ Row.scraped_date row = now1
    /\ Row.updated_date row = now2
    /\ length (rows db2) = S (length (rows db)).
Proof.
  intros Hs1 Hz1 Hs2 Hz2 Hn1 Hn2 Hfresh db1 db2.
  apply existsb_false_filter in Hfresh.
  assert (Hrows : forall r, In r (rows db) -> conflicts_key (Some s) (Some z) r = false).
  { intros r Hr. destruct (conflicts_key (Some s) (Some z) r) eqn:C; [|reflexivity].
    apply conflicts_key_sku in C.
    rewrite (proj1 (existsb_false_forall _ _) Hfresh r Hr) in C. discriminate. }
  assert (E1 : db1 = mkDb (rows db ++ [excluded_row now1 (seq db + 1) r1 sid1])
                          (seq db + 1) (seq db + 1)).
  { unfold db1, upsertProduct. rewrite run_upsert_insert; [reflexivity|assumption|].
    now rewrite Hs1. }
  set (e1 := excluded_row now1 (seq db + 1) r1 sid1) in *.
  assert (C1 : conflicts_key (Some s) (Some z) e1 = true).
  { unfold conflicts_key, e1. simpl Row.sku. simpl Row.location_zip.
    fold (key_sku r1). fold (key_zip r1). rewrite Hs1, Hz1.
    now rewrite !sql_conflict_refl. }
  set (e2 := excluded_row now2 (seq db1 + 1) r2 sid2).
  assert (E2 : db2 = mkDb (rows db ++ [do_update now2 e2 e1])
                          (seq db1 + 1) (last_insert_rowid db1)).
  { unfold db2, upsertProduct. rewrite run_upsert_update; [|assumption|].
    - rewrite Hs2, Hz2. simpl snd. f_equal.
      rewrite E1 at 1. simpl rows. rewrite map_app. simpl map.
      rewrite C1. rewrite map_guard_id by exact Hrows. reflexivity.
    - rewrite Hs2, Hz2, E1. simpl rows. rewrite existsb_app. simpl.
      rewrite C1. now rewrite orb_true_r. }
  exists (do_update now2 e2 e1). repeat split.
  - unfold rows_with_key. rewrite E2. simpl rows. rewrite filter_app.
    rewrite (proj1 (existsb_false_filter _ _)
               (proj2 (existsb_false_forall _ _) Hrows)).
    simpl. change (conflicts_key (Some s) (Some z) (do_update now2 e2 e1))
      with (conflicts_key (Some s) (Some z) e1). now rewrite C1.
  - rewrite E2. simpl rows. rewrite !length_app. simpl. lia.
Qed.

Example upsert_twice_on_empty_store :
  exists row,
    rows_with_key (Some "7012345") (Some "10001")
      (snd (upsertProduct 300
              (sample "7012345" "Gala apples, case of 40" "Sysco Natural" "10001")
              JS.Null
              (snd (upsertProduct 200
                      (sample "7012345" "Gala apples" "Sysco" "10001")
                      JS.Null empty_db)))) = [row]
    /\ Row.brand_name row = Some "Sysco Natural"
    /\ Row.scraped_date row = 200
    /\ Row.updated_date row = 300.
Proof. eexists. vm_compute. repeat split. Qed.

(** ** What an upsert may touch *)

(** A stored row is either kept as it is or it is the row whose
    [sku] and [location_zip] both match the upserted object. *)
Lemma upsert_overwrites_only_matching_key now p sid db r :
  In r (rows db) ->
  In r (rows (snd (upsertProduct now p sid db)))
  \/ conflicts_key (key_sku p) (key_zip p) r = true.
Proof.
  intros Hr.
  destruct (upsertProduct_cases now p sid db)
    as [[-> _]|[[-> _]|[[-> _]|[-> _]]]]; simpl snd; simpl rows.
  - now left.
  - now left.
  - left. apply in_or_app. now left.
  - destruct (conflicts_key (key_sku p) (key_zip p) r) eqn:C; [now right|left].
    apply in_map_iff. exists r. now rewrite C.
Qed.

(** An upsert never removes a row and never changes a key column. *)
Lemma upsert_keeps_keys now p sid db r :
  In r (rows db) ->
  exists r', In r' (rows (snd (upsertProduct now p sid db)))
             /\ Row.sku r' = Row.sku r
             /\ Row.location_zip r' = Row.location_zip r
             /\ Row.scraped_date r' = Row.scraped_date r
             /\ Row.id r' = Row.id r.
Proof.
  intros Hr.
  destruct (upsertProduct_cases now p sid db)
    as [[-> _]|[[-> _]|[[-> _]|[-> _]]]]; simpl snd; simpl rows.
  - exists r; auto.
  - exists r; auto.
  - exists r; split; [apply in_or_app; now left | auto].
  - eexists. split.
    + apply in_map_iff. exists r. split; [reflexivity | exact Hr].
    + destruct (conflicts_key (key_sku p) (key_zip p) r); auto.
Qed.

Lemma upsert_stored_mono now p sid db q :
  stored q db = true -> stored q (snd (upsertProduct now p sid db)) = true.
Proof.
  unfold stored. rewrite !existsb_exists. intros [r [Hr Hq]].
  destruct (upsert_keeps_keys now p sid db r Hr) as [r' [Hr' [Es [Ez _]]]].
  exists r'. split; [exact Hr'|].
  unfold row_of_product in *. now rewrite Es, Ez.
Qed.

Lemma upsert_stored_self now p sid db res db' :
  upsertProduct now p sid db = (JS.Ok res, db') -> stored p db' = true.
Proof.
  intros H. unfold stored. apply existsb_exists.
  destruct (upsertProduct_cases now p sid db)
    as [[E _]|[[E _]|[[E _]|[E Hk]]]]; rewrite E in H; inversion H; subst; clear H.
  - exists (excluded_row now (seq db + 1) p sid). split.
    + simpl rows. apply in_or_app. right. now left.
    + unfold row_of_product. simpl Row.sku. simpl Row.location_zip.
      fold (key_sku p). fold (key_zip p).
      apply andb_true_intro. split; now apply sql_eqb_eq.
  - apply existsb_exists in Hk. destruct Hk as [r [Hr C]].
    exists (do_update now (excluded_row now (seq db + 1) p sid) r). split.
    + simpl rows. apply in_map_iff. exists r. now rewrite C.
    + unfold conflicts_key in C. apply andb_prop in C. destruct C as [Cs Cz].
      apply sql_conflict_true in Cs, Cz.
      destruct Cs as [s [Es Es']], Cz as [z [Ez Ez']].
      unfold row_of_product. simpl Row.sku. simpl Row.location_zip.
      rewrite Es, Ez, Es', Ez'. simpl. now rewrite !String.eqb_refl.
Qed.

(** ** The uniqueness invariant the table really enforces *)

Lemma sql_conflict_sym (a b : sql) : sql_conflict a b = sql_conflict b a.
Proof. destruct a, b; simpl; auto using String.eqb_sym. Qed.

Lemma sku_unique_snoc rs e :
  sku_unique rs = true ->
  existsb (conflicts_sku (Row.sku e)) rs = false ->
  sku_unique (rs ++ [e]) = true.
Proof.
  induction rs as [|r rs IH]; simpl; intros Hu He; [reflexivity|].
  apply andb_prop in Hu. destruct Hu as [Hr Hu].
  apply orb_false_iff in He. destruct He as [Hre He].
  rewrite existsb_app, IH by assumption. simpl.
  apply negb_true_iff in Hr. rewrite Hr. simpl.
  unfold conflicts_sku in *. rewrite sql_conflict_sym, Hre. reflexivity.
Qed.

Lemma sku_unique_map (f : Row.t -> Row.t) rs :
  (forall r, Row.sku (f r) = Row.sku r) ->
  sku_unique (map f rs) = sku_unique rs.
Proof.
  intros Hf. induction rs as [|r rs IH]; simpl; [reflexivity|].
  rewrite IH, Hf. f_equal. f_equal.
  clear IH. induction rs as [|r' rs IH]; simpl; [reflexivity|].
  rewrite IH. unfold conflicts_sku. now rewrite Hf.
Qed.

Lemma sku_unique_In rs a b :
  sku_unique rs = true -> In a rs -> In b rs ->
  sql_conflict (Row.sku a) (Row.sku b) = true -> a = b.
Proof.
  induction rs as [|r rs IH]; simpl; intros Hu Ha Hb C; [contradiction|].
  apply andb_prop in Hu. destruct Hu as [Hr Hu].
  apply negb_true_iff in Hr.
  pose proof (proj1 (existsb_false_forall _ _) Hr) as Hall.
  unfold conflicts_sku in Hall.
  destruct Ha as [<-|Ha], Hb as [<-|Hb]; auto.
  - rewrite sql_conflict_sym, (Hall b Hb) in C. discriminate.
  - rewrite (Hall a Ha) in C. discriminate.
Qed.

Lemma upsert_preserves_well_formed now p sid db :
  well_formed db = true ->
  well_formed (snd (upsertProduct now p sid db)) = true.
Proof.
  unfold well_formed. intros H. apply andb_prop in H. destruct H as [Hu Hn].
  destruct (upsertProduct_cases now p sid db)
    as [[-> _]|[[-> _]|[[E Hs]|[E Hk]]]]; simpl snd;
    try (now rewrite Hu, Hn).
  - rewrite E. simpl snd. simpl rows.
    assert (Hp : exists s, bind (ProductData.product_name p) = Some s).
    { unfold upsertProduct, run_upsert in E. simpl Row.product_name in E.
      destruct (bind (ProductData.product_name p)); [eauto|discriminate]. }
    destruct Hp as [s Hp].
    rewrite sku_unique_snoc; [|assumption|exact Hs].
    rewrite forallb_app, Hn. simpl. now rewrite Hp.
  - rewrite E. simpl snd. simpl rows.
    assert (Hp : exists s, bind (ProductData.product_name p) = Some s).
    { unfold upsertProduct, run_upsert in E. simpl Row.product_name in E.
      destruct (bind (ProductData.product_name p)); [eauto|discriminate]. }
    destruct Hp as [s Hp].
    rewrite sku_unique_map, Hu.
    + simpl. rewrite forallb_forall in *. intros r' Hr'.
      apply in_map_iff in Hr'. destruct Hr' as [r [<- Hr]].
      destruct (conflicts_key (key_sku p) (key_zip p) r); [|now apply Hn].
      simpl. now rewrite Hp.
    + intros r. now destruct (conflicts_key (key_sku p) (key_zip p) r).
Qed.

(** Once a [sku] is stored under one location, an upsert of the same
    [sku] under another location is rejected and changes nothing. *)
Lemma same_sku_other_location_rejected now p sid db r s :
  well_formed db = true ->
  In r (rows db) ->
  Row.sku r = Some s -> key_sku p = Some s ->
  sql_conflict (Row.location_zip r) (key_zip p) = false ->
  upsertProduct now p sid db = (JS.Throw (error_of Unique_sku), db)
  \/ upsertProduct now p sid db = (JS.Throw (error_of NotNull_product_name), db).
Proof.
  intros Hwf Hr Hs Hp Hz.
  unfold well_formed in Hwf. apply andb_prop in Hwf. destruct Hwf as [Hu _].
  destruct (bind (ProductData.product_name p)) eqn:En.
  - left. unfold upsertProduct. rewrite run_upsert_unique_sku; try congruence.
    + apply existsb_false_forall. intros r' Hr'.
      destruct (conflicts_key (key_sku p) (key_zip p) r') eqn:C; [|reflexivity].
      unfold conflicts_key in C. apply andb_prop in C. destruct C as [Cs Cz].
      assert (r' = r).
      { apply (sku_unique_In (rows db)); auto. rewrite Hs, <- Hp. exact Cs. }
      subst r'. rewrite Hz in Cz. discriminate.
    + apply existsb_exists. exists r. split; [exact Hr|].
      unfold conflicts_sku. rewrite Hs, Hp. apply sql_conflict_refl.
  - right. unfold upsertProduct. now rewrite run_upsert_not_null.
Qed.

(** ** The batch loop *)

Lemma batch_loop_spec clock sid ps : forall i acc db,
  fst (batch_loop clock sid i ps acc db) =
    mkBatch (saved acc + successes (batch_outcomes clock sid i ps db))
            (errors acc + failures (batch_outcomes clock sid i ps db)).
Proof.
  unfold successes, failures.
  induction ps as [|p ps IH]; intros i acc db; simpl.
  - destruct acc; simpl. f_equal; lia.
  - destruct (upsertProduct (clock i) p sid db) as [[res|e] db']; simpl;
      rewrite IH; simpl; f_equal; lia.
Qed.

Lemma batch_outcomes_length clock sid ps : forall i db,
  List.length (batch_outcomes clock sid i ps db) = List.length ps.
Proof.
  induction ps as [|p ps IH]; intros i db; simpl; [reflexivity|].
  destruct (upsertProduct (clock i) p sid db) as [o db']. simpl. now rewrite IH.
Qed.

Lemma batch_loop_stored_mono clock sid q ps : forall i acc db,
  stored q db = true ->
  stored q (snd (batch_loop clock sid i ps acc db)) = true.
Proof.
  induction ps as [|p ps IH]; intros i acc db H; simpl; [exact H|].
  pose proof (upsert_stored_mono (clock i) p sid db q H) as H'.
  destruct (upsertProduct (clock i) p sid db) as [[res|e] db']; simpl in H';
    now apply IH.
Qed.

Lemma batch_loop_stored clock sid ps : forall k p i acc db,
  nth_error ps k = Some p ->
  nth_error (batch_outcomes clock sid i ps db) k = Some true ->
  stored p (snd (batch_loop clock sid i ps acc db)) = true.
Proof.
  induction ps as [|p0 ps IH]; intros k p i acc db Hp Ho.
  - destruct k; discriminate.
  - simpl in Ho |- *.
    destruct (upsertProduct (clock i) p0 sid db) as [o db'] eqn:E.
    destruct k as [|k]; simpl in Hp, Ho.
    + inversion Hp; subst p0. inversion Ho as [Hres].
      destruct o as [res|e]; [|discriminate].
      apply batch_loop_stored_mono. eapply upsert_stored_self; eauto.
    + destruct o; eapply IH; eauto.
Qed.

(** A row that no later object of the batch shares its [sku] with is
    still there, unchanged, when the loop ends. *)
Lemma batch_loop_keeps_row clock sid r ps : forall i acc db,
  In r (rows db) ->
  (forall q, In q ps -> sql_conflict (Row.sku r) (key_sku q) = false) ->
  In r (rows (snd (batch_loop clock sid i ps acc db))).
Proof.
  induction ps as [|p ps IH]; intros i acc db Hr Hq; simpl; [exact Hr|].
  assert (Hr' : In r (rows (snd (upsertProduct (clock i) p sid db)))).
  { destruct (upsert_overwrites_only_matching_key (clock i) p sid db r Hr)
      as [H|C]; [exact H|].
    apply conflicts_key_sku in C. unfold conflicts_sku in C.
    rewrite (Hq p (or_introl eq_refl)) in C. discriminate. }
  destruct (upsertProduct (clock i) p sid db) as [[res|e] db']; simpl in Hr';
    apply IH; auto; intros q Hin; apply Hq; now right.
Qed.

(** After a resolved upsert the store holds a row with the object's key
    columns and the values the call bound. *)
Lemma upsert_stores_values now p sid db res db' :
  upsertProduct now p sid db = (JS.Ok res, db') ->
  exists r, In r (rows db')
            /\ Row.sku r = key_sku p /\ Row.location_zip r = key_zip p
            /\ assigned_columns r = bound_columns p sid.
Proof.
  intros H.
  destruct (upsertProduct_cases now p sid db)
    as [[E _]|[[E _]|[[E _]|[E Hk]]]]; rewrite E in H; inversion H; subst; clear H.
  - exists (excluded_row now (seq db + 1) p sid). repeat split.
    simpl rows. apply in_or_app. right. now left.
  - apply existsb_exists in Hk. destruct Hk as [r [Hr C]].
    exists (do_update now (excluded_row now (seq db + 1) p sid) r). split.
    + simpl rows. apply in_map_iff. exists r. now rewrite C.
    + unfold conflicts_key in C. apply andb_prop in C. destruct C as [Cs Cz].
      apply sql_conflict_true in Cs, Cz.
      destruct Cs as [s [Es Es']], Cz as [z [Ez Ez']].
      simpl Row.sku. simpl Row.location_zip.
      rewrite Es, Ez, Es', Ez'. repeat split.
Qed.

Lemma batch_loop_stores_values clock sid ps : forall k p i acc db,
  nth_error ps k = Some p ->
  nth_error (batch_outcomes clock sid i ps db) k = Some true ->
  (forall q, In q (skipn (S k) ps) -> sql_conflict (key_sku p) (key_sku q) = false) ->
  exists r, In r (rows (snd (batch_loop clock sid i ps acc db)))
            /\ Row.sku r = key_sku p /\ Row.location_zip r = key_zip p
            /\ assigned_columns r = bound_columns p sid.
Proof.
  induction ps as [|p0 ps IH]; intros k p i acc db Hp Ho Hq.
  - destruct k; discriminate.
  - simpl in Ho |- *.
    destruct (upsertProduct (clock i) p0 sid db) as [o db'] eqn:E.
    destruct k as [|k]; simpl in Hp, Ho, Hq.
    + inversion Hp; subst p0. inversion Ho as [Hres].
      destruct o as [res|e]; [|discriminate].
      destruct (upsert_stores_values _ _ _ _ _ _ E) as [r [Hr [Es [Ez Ev]]]].
      exists r. split; [|auto].
      apply batch_loop_keeps_row; [exact Hr|].
      intros q Hin. rewrite Es. now apply Hq.
    + destruct o; eapply IH; eauto.
Qed.

(** ** The claims on the persistence gateway *)

(** C1 (idempotence of the upsert), evaluated where it fails.  The store
    holds sku 7012345 for location 97209 and no row for the key
    (7012345, 10001).  Upserting two objects with that key, one after the
    other, is rejected both times by the column constraint on [sku]: the
    store is left with no row for the key instead of exactly one. *)
Theorem upsert_twice_rejected_when_sku_stored_elsewhere :
  let r1 := sample "7012345" "Gala apples" "Sysco" "10001" in
  let r2 := sample "7012345" "Gala apples, case of 40" "Sysco Natural" "10001" in
  let db0 := store_with_other_location in
  let db1 := snd (upsertProduct 200 r1 JS.Null db0) in
  let db2 := snd (upsertProduct 300 r2 JS.Null db1) in
  well_formed db0 = true
  /\ key_sku r1 = key_sku r2 /\ key_zip r1 = key_zip r2
  /\ rows_with_key (key_sku r1) (key_zip r1) db0 = []
  /\ fst (upsertProduct 200 r1 JS.Null db0) = JS.Throw (error_of Unique_sku)
  /\ fst (upsertProduct 300 r2 JS.Null db1) = JS.Throw (error_of Unique_sku)
  /\ rows_with_key (key_sku r1) (key_zip r1) db2 = []
  /\ db2 = db0.
Proof. vm_compute. repeat split. Qed.

(** C3 (composite-key uniqueness), evaluated where it fails.  On the
    empty store the object (7012345, 97209) is inserted; the object with
    the same sku and location 10001 is then rejected by the column
    constraint on [sku], so the store holds one row, not two, and the
    second object is not in storage. *)
Theorem same_sku_second_location_rejected :
  let r1 := sample "7012345" "Gala apples" "Sysco" "97209" in
  let r2 := sample "7012345" "Gala apples" "Sysco" "10001" in
  let db1 := snd (upsertProduct 100 r1 JS.Null empty_db) in
  let db2 := snd (upsertProduct 200 r2 JS.Null db1) in
  JS.resolved (fst (upsertProduct 100 r1 JS.Null empty_db)) = true
  /\ fst (upsertProduct 200 r2 JS.Null db1) = JS.Throw (error_of Unique_sku)
  /\ List.length (rows db2) = 1%nat
  /\ stored r1 db2 = true
  /\ stored r2 db2 = false.
Proof. vm_compute. repeat split. Qed.

(** C5 (batch isolation).  [batchUpsertProducts] attempts every object of
    the batch, each on the store its predecessors left; [saved] counts
    the upserts that resolved and [errors] those that were rejected;
    every object whose upsert resolved is present in storage when the
    call returns, with the values the call bound unless a later object of
    the batch carries the same sku.  In particular, when exactly the
    third of five upserts is rejected the call returns
    [{saved: 4, errors: 1}]. *)
Theorem batch_isolation clock sid ps db :
  let outs := batch_outcomes clock sid 0 ps db in
  let res := fst (batchUpsertProducts clock ps sid db) in
  let db' := snd (batchUpsertProducts clock ps sid db) in
  List.length outs = List.length ps
  /\ saved res = successes outs
  /\ errors res = failures outs
  /\ (forall k p, nth_error ps k = Some p -> nth_error outs k = Some true ->
        stored p db' = true
        /\ ((forall q, In q (skipn (S k) ps) ->
               sql_conflict (key_sku p) (key_sku q) = false) ->
            exists r, In r (rows db')
                      /\ Row.sku r = key_sku p /\ Row.location_zip r = key_zip p
                      /\ assigned_columns r = bound_columns p sid))
  /\ (outs = [true; true; false; true; true] -> res = mkBatch 4 1).
Proof.
  intros outs res db'.
  assert (Hres : res = mkBatch (successes outs) (failures outs)).
  { unfold res, outs, batchUpsertProducts. destruct ps as [|p ps]; [reflexivity|].
    rewrite batch_loop_spec. reflexivity. }
  assert (Hdb : db' = snd (batch_loop clock sid 0 ps (mkBatch 0 0) db)).
  { unfold db', batchUpsertProducts. now destruct ps. }
  split; [apply batch_outcomes_length|].
  split; [now rewrite Hres|]. split; [now rewrite Hres|]. split.
  - intros k p Hp Ho. rewrite Hdb. split.
    + eapply batch_loop_stored; eauto.
    + intros Hq. eapply batch_loop_stores_values; eauto.
  - intros E. rewrite Hres, E. reflexivity.
Qed.

(** The batch of five whose third object lacks a product name. *)
Example batch_of_five_run :
  let clock := fun i => 100 + Z.of_nat i in
  batch_outcomes clock JS.Null 0 batch_of_five empty_db
    = [true; true; false; true; true]
  /\ fst (batchUpsertProducts clock batch_of_five JS.Null empty_db) = mkBatch 4 1
  /\ map (fun p => stored p (snd (batchUpsertProducts clock batch_of_five JS.Null empty_db)))
         batch_of_five
     = [true; true; false; true; true].
Proof. vm_compute. repeat split. Qed.

End PersistenceFacts.

(* ================================================================== *)
(** * Properties of the retry policy *)
(* ================================================================== *)

Section RetryFacts.
Import Async Helpers.
Context {St : Type} `{Runtime St} {A : Type}.
Variable o : options.

(** One iteration of the loop, state by state. *)
Lemma retry_loop_S {S' : Type} `{Runtime S'} (operation : M S' A)
    fuel attempt lastError (s : S') :
  retry_loop (Datatypes.S fuel) operation o attempt lastError s =
  if attempt <=? maxRetries o + 1 then
    match operation s with
    | (JS.Ok a, s1) =>
        (JS.Ok a,
         if 1 <? attempt
         then write_log (Logger.mk Logger.info "Operation successful after % attempts"
                           [Logger.N attempt]) s1
         else s1)
    | (JS.Throw e, s1) =>
        let s2 := write_log (Logger.mk Logger.warn "Attempt % failed: %"
                               [Logger.N attempt; Logger.S (JS.message e)]) s1 in
        if negb (retryCondition o e) || (maxRetries o + 1 <=? attempt)
        then after_loop (Some e) s2
        else retry_loop fuel operation o (attempt + 1) (Some e)
               (sleep (retryDelay_at o attempt)
                  (write_log (Logger.mk Logger.info
                                "Waiting %ms before retry attempt %..."
                                [Logger.N (retryDelay_at o attempt);
                                 Logger.N (attempt + 1)]) s2))
    end
  else after_loop lastError s.
Proof.
  cbn [retry_loop]. destruct (attempt <=? maxRetries o + 1); [|reflexivity].
  unfold try_catch, bind. destruct (operation s) as [[a|e] s1].
  - destruct (1 <? attempt); reflexivity.
  - cbn. destruct (negb (retryCondition o e) || (maxRetries o + 1 <=? attempt));
      reflexivity.
Qed.

Lemma after_loop_throws {S' : Type} `{Runtime S'} lastError (s : S') :
  exists e s', @after_loop S' _ A lastError s = (JS.Throw e, s').
Proof. destruct lastError; cbn; do 2 eexists; reflexivity. Qed.

Variable operation : M St A.

(** The loop does not depend on the fuel once there is enough of it:
    [retry] is a total function of its arguments. *)
Lemma retry_loop_enough_fuel : forall fuel attempt lastError s,
  (iterations_left o attempt <= fuel)%nat ->
  retry_loop fuel operation o attempt lastError s
  = retry_loop (iterations_left o attempt) operation o attempt lastError s.
Proof.
  unfold iterations_left.
  induction fuel as [|fuel IH]; intros attempt lastError s Hfuel.
  - replace (Z.to_nat (maxRetries o + 2 - attempt)) with 0%nat by lia.
    reflexivity.
  - destruct (Z.leb_spec attempt (maxRetries o + 1)) as [Hle|Hgt].
    + replace (Z.to_nat (maxRetries o + 2 - attempt))
        with (Datatypes.S (Z.to_nat (maxRetries o + 2 - (attempt + 1)))) by lia.
      rewrite !retry_loop_S.
      destruct (attempt <=? maxRetries o + 1); [|reflexivity].
      destruct (operation s) as [[a|e] s1]; [reflexivity|]. cbv zeta.
      destruct (negb (retryCondition o e) || (maxRetries o + 1 <=? attempt));
        [reflexivity|].
      apply IH. lia.
    + replace (Z.to_nat (maxRetries o + 2 - attempt)) with 0%nat by lia.
      rewrite retry_loop_S.
      destruct (Z.leb_spec attempt (maxRetries o + 1)); [lia|reflexivity].
Qed.

(** History of a run of the loop on the instrumented operation: the
    invocations it adds all threw, except possibly the last one, whose
    value is then what the loop returns. *)
Lemma retry_loop_history : forall fuel attempt lastError s h,
  exists s' ext r,
    retry_loop fuel (recorded operation) o attempt lastError (s, h)
      = (r, (s', (h ++ ext)%list))
    /\ ((exists a pre, ext = (pre ++ [JS.Ok a])%list /\ all_thrown pre /\ r = JS.Ok a)
        \/ (all_thrown ext /\ exists e, r = JS.Throw e)).
Proof.
  assert (Hafter : forall lastError (s : St) (h : list (JS.outcome A)),
    exists s' r, @after_loop _ _ A lastError (s, h) = (r, (s', h))
                 /\ exists e, r = JS.Throw e).
  { intros [e|] s h; cbn; do 2 eexists; (split; [reflexivity|eauto]). }
  induction fuel as [|fuel IH]; intros attempt lastError s h.
  - destruct (Hafter lastError s h) as [s' [r [E He]]].
    exists s', [], r. rewrite app_nil_r. split; [exact E|].
    right. split; [constructor | exact He].
  - rewrite retry_loop_S.
    destruct (attempt <=? maxRetries o + 1).
    + unfold recorded. cbn [fst snd].
      destruct (operation s) as [[a|e] s1].
      * destruct (1 <? attempt); cbn;
          (eexists; exists [JS.Ok a]; eexists; split; [reflexivity|]);
          left; exists a, []; repeat split; constructor.
      * cbv zeta.
        destruct (negb (retryCondition o e) || (maxRetries o + 1 <=? attempt)).
        -- cbn. eexists; exists [JS.Throw e]; eexists; split; [reflexivity|].
           right. split; [repeat constructor | eauto].
        -- cbn [sleep write_log Runtime_recorded fst snd].
           match goal with
           | |- context [retry_loop fuel _ o ?a ?le (?s2, ?h2)] =>
               destruct (IH a le s2 h2) as [s' [ext [r [E Hr]]]]
           end.
           unfold recorded in E. rewrite E.
           exists s', (JS.Throw e :: ext), r.
           split; [now rewrite <- app_assoc|].
           destruct Hr as [[a [pre [-> [Hpre ->]]]]|[Hext He]].
           ++ left. exists a, (JS.Throw e :: pre). repeat split.
              constructor; [reflexivity | exact Hpre].
           ++ right. split; [constructor; [reflexivity | exact Hext] | exact He].
    + destruct (Hafter lastError s h) as [s' [r [E He]]].
      exists s', [], r. rewrite app_nil_r. split; [exact E|].
      right. split; [constructor | exact He].
Qed.

(** An operation that throws a retryable error whenever it is invoked
    is invoked once per iteration the loop can make, and the loop throws
    the error of the last invocation. *)
Lemma retry_loop_always_failing :
  (forall s, exists e, fst (operation s) = JS.Throw e /\ retryCondition o e = true) ->
  forall fuel attempt lastError s h,
    Z.of_nat (Datatypes.S fuel) = maxRetries o + 2 - attempt ->
    exists s' pre e,
      retry_loop (Datatypes.S fuel) (recorded operation) o attempt lastError (s, h)
        = (JS.Throw e, (s', (h ++ pre ++ [JS.Throw e])%list))
      /\ List.length pre = fuel
      /\ all_thrown pre.
Proof.
  intros Hfail.
  induction fuel as [|fuel IH]; intros attempt lastError s h Hfuel.
  - rewrite retry_loop_S.
    destruct (Z.leb_spec attempt (maxRetries o + 1)); [|lia].
    unfold recorded. cbn [fst snd].
    destruct (Hfail s) as [e [He Hc]].
    destruct (operation s) as [r s1]. cbn in He. subst r. cbv zeta.
    rewrite Hc. cbn [negb orb].
    destruct (Z.leb_spec (maxRetries o + 1) attempt); [|lia].
    cbn. eexists; exists [], e. repeat split. constructor.
  - rewrite retry_loop_S.
    destruct (Z.leb_spec attempt (maxRetries o + 1)); [|lia].
    unfold recorded. cbn [fst snd].
    destruct (Hfail s) as [e [He Hc]].
    destruct (operation s) as [r s1]. cbn in He. subst r. cbv zeta.
    rewrite Hc. cbn [negb orb].
    destruct (Z.leb_spec (maxRetries o + 1) attempt); [lia|].
    cbn [sleep write_log Runtime_recorded fst snd].
    match goal with
    | |- context [retry_loop (Datatypes.S fuel) _ o ?a ?le (?s2, ?h2)] =>
        destruct (IH a le s2 h2) as [s' [pre [e' [E [Hlen Hall]]]]]; [lia|]
    end.
    unfold recorded in E. rewrite E.
    exists s', (JS.Throw e :: pre), e'. repeat split.
    + now rewrite <- app_assoc.
    + cbn. now rewrite Hlen.
    + constructor; [reflexivity | exact Hall].
Qed.

(** What [retry] returns was returned by an invocation of the
    operation. *)
Lemma retry_loop_returns_from_operation : forall fuel attempt lastError s a s',
  retry_loop fuel operation o attempt lastError s = (JS.Ok a, s') ->
  exists s0 s1, operation s0 = (JS.Ok a, s1).
Proof.
  induction fuel as [|fuel IH]; intros attempt lastError s a s' Hrun.
  - cbn [retry_loop] in Hrun.
    destruct (after_loop_throws lastError s) as [e [s1 E]].
    rewrite E in Hrun. discriminate.
  - rewrite retry_loop_S in Hrun.
    destruct (attempt <=? maxRetries o + 1).
    + destruct (operation s) as [[x|e] s1] eqn:Eop.
      * inversion Hrun; subst. eauto.
      * cbv zeta in Hrun.
        destruct (negb (retryCondition o e) || (maxRetries o + 1 <=? attempt)).
        -- match type of Hrun with
           | after_loop ?le ?s2 = _ =>
               destruct (after_loop_throws le s2) as [e' [s3 E]]
           end.
           rewrite E in Hrun. discriminate.
        -- eapply IH; eauto.
    + destruct (after_loop_throws lastError s) as [e [s1 E]].
      rewrite E in Hrun. discriminate.
Qed.

Lemma retry_returns_from_operation s a s' :
  retry operation o s = (JS.Ok a, s') ->
  exists s0 s1, operation s0 = (JS.Ok a, s1).
Proof. unfold retry. apply retry_loop_returns_from_operation. Qed.

End RetryFacts.

Section RetryClaims.
Import Async Helpers.

(** C2 (retry bound and propagation).  With [maxRetries = 3], an
    operation that throws, whenever it is invoked, an error the
    classifier marks retryable is invoked exactly four times and [retry]
    throws the error of the fourth invocation.  Whatever the options, an
    invocation that returns is the last one [retry] makes and its result
    is what [retry] returns. *)
Theorem retry_bound_and_propagation
    {St : Type} `{Runtime St} {A : Type} (operation : M St A) :
  (forall o s,
     maxRetries o = 3 ->
     (forall s, exists e,
         fst (operation s) = JS.Throw e /\ retryCondition o e = true) ->
     exists s' pre e,
       retry (recorded operation) o (s, [])
         = (JS.Throw e, (s', (pre ++ [JS.Throw e])%list))
       /\ List.length (pre ++ [JS.Throw e]) = 4%nat
       /\ all_thrown pre)
  /\ (forall o s k a,
        nth_error (snd (snd (retry (recorded operation) o (s, [])))) k
          = Some (JS.Ok a) ->
        fst (retry (recorded operation) o (s, [])) = JS.Ok a
        /\ List.length (snd (snd (retry (recorded operation) o (s, [])))) = S k).
Proof.
  split.
  - intros o s Hmax Hfail. unfold retry. rewrite Hmax.
    change (Z.to_nat (3 + 1)) with 4%nat.
    destruct (retry_loop_always_failing o operation Hfail 3 1 None s [])
      as [s' [pre [e [E [Hlen Hall]]]]]; [rewrite Hmax; reflexivity|].
    exists s', pre, e. cbn [app] in E. repeat split; [exact E| |exact Hall].
    rewrite length_app, Hlen. reflexivity.
  - intros o s k a. unfold retry.
    destruct (retry_loop_history o operation (Z.to_nat (maxRetries o + 1)) 1 None s [])
      as [s' [ext [r [E Hr]]]].
    rewrite E. cbn [fst snd app]. intros Hk.
    destruct Hr as [[a0 [pre [-> [Hpre ->]]]]|[Hext _]].
    + destruct (Nat.lt_trichotomy k (List.length pre)) as [Hlt|[Heq|Hgt]].
      * rewrite nth_error_app1 in Hk by exact Hlt.
        apply nth_error_In in Hk.
        unfold all_thrown in Hpre. rewrite Forall_forall in Hpre.
        apply Hpre in Hk. discriminate.
      * subst k. rewrite nth_error_app2, Nat.sub_diag in Hk by lia.
        inversion Hk; subst. split; [reflexivity|].
        rewrite length_app. cbn. lia.
      * rewrite nth_error_app2 in Hk by lia.
        destruct (k - List.length pre)%nat as [|[|n]] eqn:En; try lia; discriminate.
    + apply nth_error_In in Hk.
      unfold all_thrown in Hext. rewrite Forall_forall in Hext.
      apply Hext in Hk. discriminate.
Qed.

(** The two runs of the specification's test list. *)
Example retry_always_failing_run :
  @retry _ Runtime_counter _ always_timing_out
     {| maxRetries := 3; baseDelay := 1000; exponentialBackoff := true;
        retryCondition := shouldRetryError |} 0%nat
  = (JS.Throw (JS.mkError "TimeoutError" "Navigation timeout exceeded"), 4%nat).
Proof. vm_compute. reflexivity. Qed.

Example retry_success_path_run :
  @retry _ Runtime_counter _ third_time_lucky
     {| maxRetries := 3; baseDelay := 1000; exponentialBackoff := true;
        retryCondition := shouldRetryError |} 0%nat
  = (JS.Ok "done", 3%nat).
Proof. vm_compute. reflexivity. Qed.

End RetryClaims.

(* ================================================================== *)
(** * Properties of the extraction scripts *)
(* ================================================================== *)

Section ScriptFacts.
Import Scraper SyscoModels.

Lemma getTextBySelector_absent d selector :
  Dom.querySelector d selector = None -> getTextBySelector d selector = "".
Proof. unfold getTextBySelector. now intros ->. Qed.

Lemma getAttributeBySelector_absent d selector attribute :
  Dom.querySelector d selector = None ->
  getAttributeBySelector d selector attribute = "".
Proof. unfold getAttributeBySelector. now intros ->. Qed.

(** Without an override the configured ZIP is the text 97209. *)
Lemma default_zipCode env :
  Config.SYSCO_LOCATION_ZIP env = None ->
  Config.location_zipCode (Config.syscoConfig env) = "97209".
Proof. unfold Config.syscoConfig. simpl. now intros ->. Qed.

(** C8 (location-ZIP defaulting), as stated, fails.  With
    [SYSCO_LOCATION_ZIP=10001] and a page on which nothing matches, the
    record's [location_zip] is the text 97209 and not the configured
    ZIP, and its [packaging_information] is a placeholder and not the
    empty string. *)
Lemma defaults_on_blank_page :
  let cfg := Config.syscoConfig (Scenario.located "10001") in
  let d := Scenario.blank_document in
  Dom.querySelector d (Config.ProductDetails.locationZip (Config.productDetails cfg))
    = None
  /\ Config.location_zipCode cfg = "10001"
  /\ exists r,
       productDetails_script (Config.productDetails cfg) d = Some r
       /\ ProductData.location_zip r = JS.Str "97209"
       /\ ProductData.location_zip r <> JS.Str (Config.location_zipCode cfg)
       /\ ProductData.packaging_information r = JS.Str "Standard packaging"
       /\ ProductData.packaging_information r <> JS.Str "".
Proof.
  cbv zeta. split; [reflexivity|]. split; [reflexivity|].
  eexists. split; [reflexivity|]. cbn.
  repeat split; try reflexivity; discriminate.
Qed.

(** C8, amended.  When the page has no location marker and the
    configured ZIP is not overridden, the record's [location_zip] is the
    configured ZIP.  A field whose element is absent takes its default:
    a fixed placeholder for [brand_name], [product_name], [description]
    and [packaging_information], the empty string for the other fields
    read from the page; [product_url] is the address of the page. *)
Theorem field_defaults (selectors : Config.ProductDetails.t) (d : Dom.document) :
  Dom.querySelector d (Config.ProductDetails.locationZip selectors) = None ->
  exists r,
    productDetails_script selectors d = Some r
    /\ (forall env, Config.SYSCO_LOCATION_ZIP env = None ->
          ProductData.location_zip r
          = JS.Str (Config.location_zipCode (Config.syscoConfig env)))
    /\ (Dom.querySelector d (Config.ProductDetails.brandName selectors) = None ->
          ProductData.brand_name r = JS.Str "Sysco")
    /\ (Dom.querySelector d (Config.ProductDetails.productName selectors) = None ->
          ProductData.product_name r = JS.Str "Product")
    /\ (Dom.querySelector d (Config.ProductDetails.description selectors) = None ->
          ProductData.description r = JS.Str "Premium quality product from Sysco")
    /\ (Dom.querySelector d (Config.ProductDetails.packagingInformation selectors) = None ->
          ProductData.packaging_information r = JS.Str "Standard packaging")
    /\ ProductData.product_url r = JS.Str (Dom.location_href d)
    /\ (Dom.querySelector d (Config.ProductDetails.sku selectors) = None ->
          ProductData.sku r = JS.Str "")
    /\ (Dom.querySelector d (Config.ProductDetails.packagingSize selectors) = None ->
          ProductData.packaging_size r = JS.Str "")
    /\ (Dom.querySelector d (Config.ProductDetails.pictureUrl selectors) = None ->
          ProductData.picture_url r = JS.Str "")
    /\ (Dom.querySelector d (Config.ProductDetails.category selectors) = None ->
          ProductData.category r = JS.Str "")
    /\ (Dom.querySelector d (Config.ProductDetails.ingredients selectors) = None ->
          ProductData.ingredients r = JS.Str "")
    /\ (Dom.querySelector d (Config.ProductDetails.gtin selectors) = None ->
          ProductData.gtin r = JS.Str "")
    /\ (Dom.querySelector d (Config.ProductDetails.upc selectors) = None ->
          ProductData.upc r = JS.Str "")
    /\ (Dom.querySelector d (Config.ProductDetails.caseSize selectors) = None ->
          ProductData.case_size r = JS.Str "")
    /\ (Dom.querySelector d (Config.ProductDetails.weight selectors) = None ->
          ProductData.weight r = JS.Str "")
    /\ (Dom.querySelector d (Config.ProductDetails.storageInstructions selectors) = None ->
          ProductData.storage_instructions r = JS.Str "").
Proof.
  intros Hzip. eexists. split; [reflexivity|].
  cbn [ProductData.location_zip ProductData.brand_name ProductData.product_name
       ProductData.description ProductData.packaging_information
       ProductData.product_url ProductData.sku ProductData.packaging_size
       ProductData.picture_url ProductData.category ProductData.ingredients
       ProductData.gtin ProductData.upc ProductData.case_size ProductData.weight
       ProductData.storage_instructions].
  rewrite Hzip.
  repeat split;
    try (intros env Henv; now rewrite default_zipCode);
    try (intros Habs;
         first [ rewrite (getTextBySelector_absent _ _ Habs)
               | rewrite (getAttributeBySelector_absent _ _ _ Habs) ];
         reflexivity).
Qed.

Lemma field_defaults_witness :
  exists r,
    productDetails_script
      (Config.productDetails (Config.syscoConfig Config.no_environment))
      Scenario.blank_document = Some r
    /\ ProductData.location_zip r
       = JS.Str (Config.location_zipCode (Config.syscoConfig Config.no_environment))
    /\ ProductData.brand_name r = JS.Str "Sysco".
Proof.
  destruct (field_defaults
              (Config.productDetails (Config.syscoConfig Config.no_environment))
              Scenario.blank_document eq_refl)
    as [r [Hr [Hzip [Hbrand _]]]].
  exists r. split; [exact Hr|]. split.
  - apply Hzip. reflexivity.
  - apply Hbrand. reflexivity.
Defined.

(** ** The links of a listing page *)

Lemma dedupe_from_In seen xs x :
  In x (JS.dedupe_from seen xs) -> In x xs /\ ~ In x seen.
Proof.
  revert seen. induction xs as [|y xs IH]; intros seen; simpl; [tauto|].
  destruct (existsb (String.eqb y) seen) eqn:Ex.
  - intros Hin. destruct (IH _ Hin). tauto.
  - intros [<-|Hin].
    + split; [now left|]. intros Hs.
      assert (existsb (String.eqb y) seen = true).
      { apply existsb_exists. exists y. split; [exact Hs | apply String.eqb_refl]. }
      congruence.
    + destruct (IH _ Hin) as [H1 H2]. split; [now right|].
      intros Hs. apply H2. now right.
Qed.

Lemma dedupe_from_NoDup seen xs : NoDup (JS.dedupe_from seen xs).
Proof.
  revert seen. induction xs as [|y xs IH]; intros seen; simpl; [constructor|].
  destruct (existsb (String.eqb y) seen); [apply IH|].
  constructor; [|apply IH].
  intros Hin. apply dedupe_from_In in Hin. destruct Hin as [_ Hn].
  apply Hn. now left.
Qed.

Lemma productLinks_script_In productListing d link :
  In link (productLinks_script productListing d) ->
  JS.includes link (Config.ProductListing.productUrlFilter productListing) = true
  /\ exists el,
       In el (Dom.querySelectorAll d
                (Config.ProductListing.productLinks productListing))
       /\ Dom.href el = link.
Proof.
  unfold productLinks_script, JS.new_Set. intros Hin.
  apply dedupe_from_In in Hin. destruct Hin as [Hin _].
  apply filter_In in Hin. destruct Hin as [Hin Hf]. split; [exact Hf|].
  apply in_map_iff in Hin. destruct Hin as [el [Hel Hin]]. eauto.
Qed.

Lemma productLinks_script_none productListing d :
  (forall el,
      In el (Dom.querySelectorAll d
               (Config.ProductListing.productLinks productListing)) ->
      JS.includes (Dom.href el)
        (Config.ProductListing.productUrlFilter productListing) = false) ->
  productLinks_script productListing d = [].
Proof.
  intros Hnone.
  destruct (productLinks_script productListing d) as [|link links] eqn:E;
    [reflexivity|].
  assert (Hin : In link (productLinks_script productListing d))
    by (rewrite E; now left).
  apply productLinks_script_In in Hin. destruct Hin as [Hf [el [Hel <-]]].
  rewrite (Hnone el Hel) in Hf. discriminate.
Qed.

End ScriptFacts.

(* ================================================================== *)
(** * Properties of the traversal *)
(* ================================================================== *)

Section PageFacts.
Import Async Puppeteer Run Scraper.
Context {E : Type} `{Driver E}.
Variable syscoConfig : Config.t.

(** A listing page without a link that passes the filter yields no
    product: nothing is extracted and nothing is written to the table. *)
Lemma scrapeProductsFromPage_no_links categoryName pageNumber (w : World E) d :
  document_of (time_passes (Config.Delays.pageLoad (Config.delays syscoConfig))
                 (env w)) = JS.Ok d ->
  productLinks_script (Config.productListing syscoConfig) d = [] ->
  exists w',
    scrapeProductsFromPage syscoConfig categoryName pageNumber w = (JS.Ok [], w')
    /\ db w' = db w
    /\ Trace.count "Extracting details from: %" (logged w')
       = Trace.count "Extracting details from: %" (logged w).
Proof.
  intros Hd Hlinks.
  unfold scrapeProductsFromPage, bind, log, delay, page_evaluate.
  cbn [write_log sleep Runtime_World env db logged].
  rewrite Hd, Hlinks. cbn [write_log Runtime_World env db logged length_Z].
  eexists. split; [reflexivity|]. split; [reflexivity|].
  cbn [logged]. unfold Trace.count. rewrite !filter_app, !length_app. cbn. lia.
Qed.

End PageFacts.

Section LinkClaims.
Import Async Puppeteer Run Scraper.



End LinkClaims.

Section Runs.
Import Run SyscoModels.

(** C7 (per-category product cap), evaluated where it fails.  With
    [MAX_PRODUCTS_PER_CATEGORY=2], a first page of one product and a
    second page of two, the walk of the category returns three products:
    the second page extracts two although one was already collected, and
    the category total exceeds the cap. *)
Theorem category_cap_exceeded :
  let cfg := Config.syscoConfig (Scenario.limits 2 2) in
  let run := Scenario.walk cfg Scenario.one_then_two [] "Produce" in
  Config.maxProductsPerCategory cfg = 2
  /\ Trace.page_summaries (logged (snd run)) = [(1, 1); (2, 2)]
  /\ Scenario.returned (fst run) = 3
  /\ List.length (rows (db (snd run))) = 3%nat.
Proof. vm_compute. repeat split. Qed.



(** A run in which the walk of the second category throws: the six
    other categories complete, each is followed by an export, and their
    products are in the table. *)
Example traverse_with_broken_category :
  let cfg := Config.syscoConfig (Scenario.limits 2 2) in
  let run := Scenario.traverse cfg Scenario.one_then_two ["Meat & Seafood"] in
  Scenario.returned (fst run) = 18
  /\ Trace.count "Error scraping category %:" (logged (snd run)) = 1%nat
  /\ Trace.count "=== PROGRESS UPDATE ===" (logged (snd run)) = 6%nat
  /\ Trace.exports (logged (snd run)) = 6%nat
  /\ List.length (Site.written (env (snd run))) = 6%nat
  /\ List.length (rows (db (snd run))) = 3%nat.
Proof. vm_compute. repeat split. Qed.

End Runs.

(* ================================================================== *)
(** * Relations that every operation of the scraper maintains *)
(* ================================================================== *)

Section InvariantRules.
Import Async Puppeteer Run Scraper Laws.
Context {E : Type} `{Driver E}.

Variable R : World E -> World E -> Prop.
Variable allowed : string -> bool.
Hypothesis R_refl : forall w, R w w.
Hypothesis R_trans : forall a b c, R a b -> R b c -> R a c.
Hypothesis R_env : forall w e, R w (mkWorld e (db w) (logged w)).
Hypothesis R_log : forall w e,
  allowed (Logger.template e) = true -> R w (write_log e w).
Hypothesis R_db : forall w ps,
  R w (mkWorld (env w)
         (snd (SyscoModels.batchUpsertProducts (clock (env w)) ps JS.Null (db w)))
         (logged w)).

Lemma inv_ret {A} (a : A) : holds_after R (ret a).
Proof. intros w. apply R_refl. Qed.

Lemma inv_throw {A} e : holds_after R (@throw _ A e).
Proof. intros w. apply R_refl. Qed.

Lemma inv_bind {A B} (m : M (World E) A) (k : A -> M (World E) B) :
  holds_after R m -> (forall a, holds_after R (k a)) -> holds_after R (bind m k).
Proof.
  intros Hm Hk w. unfold bind. specialize (Hm w).
  destruct (m w) as [[a|e] w1]; simpl in *; [|exact Hm].
  eapply R_trans; [exact Hm | apply Hk].
Qed.

Lemma inv_try_catch {A} (m : M (World E) A) (h : JS.error -> M (World E) A) :
  holds_after R m -> (forall e, holds_after R (h e)) ->
  holds_after R (try_catch m h).
Proof.
  intros Hm Hh w. unfold try_catch. specialize (Hm w).
  destruct (m w) as [[a|e] w1]; simpl in *; [exact Hm|].
  eapply R_trans; [exact Hm | apply Hh].
Qed.

Lemma inv_log l template args :
  allowed template = true -> holds_after R (log l template args).
Proof. intros Ha w. unfold log. simpl. now apply R_log. Qed.

Lemma inv_delay ms : holds_after R (delay ms).
Proof. intros w. unfold delay. simpl. apply R_env. Qed.

Lemma inv_on_env {A} (f : E -> JS.outcome A * E) : holds_after R (on_env f).
Proof. intros w. unfold on_env. destruct (f (env w)). simpl. apply R_env. Qed.

Lemma inv_page_url : holds_after R page_url.
Proof. intros w. apply R_refl. Qed.

Lemma inv_page_evaluate {A} (script : Dom.document -> JS.outcome A * list Dom.effect) :
  holds_after R (page_evaluate script).
Proof.
  intros w. unfold page_evaluate.
  destruct (document_of (env w)) as [d|e]; [|apply R_refl].
  destruct (script d). simpl. apply R_env.
Qed.

Lemma inv_page_query selector : holds_after R (page_query selector).
Proof.
  intros w. unfold page_query.
  destruct (document_of (env w)); apply R_refl.
Qed.

Lemma inv_batchUpsertProducts ps : holds_after R (Gateway.batchUpsertProducts ps).
Proof.
  intros w. unfold Gateway.batchUpsertProducts.
  pose proof (R_db w ps) as Hdb.
  destruct (SyscoModels.batchUpsertProducts (clock (env w)) ps JS.Null (db w)).
  exact Hdb.
Qed.

Lemma inv_exportToCsv outputPath includeAll :
  holds_after R (Gateway.exportToCsv outputPath includeAll).
Proof.
  intros w. unfold Gateway.exportToCsv. cbv zeta.
  match goal with
  | |- context [if ?c then (JS.Ok tt, env w) else ?m] =>
      destruct (if c then (JS.Ok tt, env w) else m) as [[[]|err] e1]
  end; simpl; [|apply R_env].
  destruct (Gateway.select_all_ordered (db w)); simpl; apply R_env.
Qed.

(** After a first log call, whatever maintains [R] maintains it from
    the world that holds the logged entry. *)
Lemma inv_after_log {A} l template args (k : unit -> M (World E) A) :
  holds_after R (k tt) ->
  forall w, R (write_log (Logger.mk l template args) w)
              (snd (bind (log l template args) k w)).
Proof. intros Hk w. unfold bind, log. apply Hk. Qed.

Hypothesis quiet_allowed : forall t, In t quiet_templates -> allowed t = true.

Ltac allowed_template :=
  first [ assumption
        | apply quiet_allowed; unfold quiet_templates; cbn [In];
          repeat (first [left; reflexivity | right]) ].

Ltac inv_step :=
  match goal with
  | |- holds_after _ (bind _ _) => apply inv_bind; [ | intros ? ]
  | |- holds_after _ (try_catch _ _) => apply inv_try_catch; [ | intros ? ]
  | |- holds_after _ (ret _) => apply inv_ret
  | |- holds_after _ (throw _) => apply inv_throw
  | |- holds_after _ (log _ _ _) => apply inv_log; allowed_template
  | |- holds_after _ (delay _) => apply inv_delay
  | |- holds_after _ (page_goto _ _ _) => apply inv_on_env
  | |- holds_after _ (page_waitForNavigation _ _) => apply inv_on_env
  | |- holds_after _ (page_waitForSelector _ _) => apply inv_on_env
  | |- holds_after _ (elementHandle_click _) => apply inv_on_env
  | |- holds_after _ page_url => apply inv_page_url
  | |- holds_after _ (page_evaluate _) => apply inv_page_evaluate
  | |- holds_after _ (page_query _) => apply inv_page_query
  | |- holds_after _ (Gateway.batchUpsertProducts _) => apply inv_batchUpsertProducts
  | |- holds_after _ (Gateway.exportToCsv _ _) => apply inv_exportToCsv
  | |- holds_after _ (if ?b then _ else _) => destruct b
  | |- holds_after _ (match ?x with _ => _ end) => destruct x
  | |- holds_after _ (let '(_, _) := ?x in _) => destruct x
  end.

Lemma inv_after_loop {A} lastError : holds_after R (@Helpers.after_loop _ _ A lastError).
Proof. unfold Helpers.after_loop. repeat inv_step. Qed.

Lemma inv_retry_loop {A} (operation : M (World E) A) o :
  holds_after R operation ->
  forall fuel attempt lastError,
    holds_after R (Helpers.retry_loop fuel operation o attempt lastError).
Proof.
  intros Hop. induction fuel as [|fuel IH]; intros attempt lastError;
    cbn [Helpers.retry_loop]; [apply inv_after_loop|].
  destruct (attempt <=? Helpers.maxRetries o + 1); [|apply inv_after_loop].
  apply inv_try_catch.
  - repeat inv_step. exact Hop.
  - intros error. apply inv_bind; [inv_step|intros _].
    destruct (negb (Helpers.retryCondition o error)
              || (Helpers.maxRetries o + 1 <=? attempt));
      [apply inv_after_loop|].
    cbv zeta. repeat inv_step. apply IH.
Qed.

Lemma inv_retry {A} (operation : M (World E) A) o :
  holds_after R operation -> holds_after R (Helpers.retry operation o).
Proof. intros Hop. unfold Helpers.retry. now apply inv_retry_loop. Qed.

Variable syscoConfig : Config.t.

Lemma inv_extractProductDetails productUrl :
  holds_after R (extractProductDetails syscoConfig productUrl).
Proof.
  unfold extractProductDetails. apply inv_retry.
  unfold extractProductDetails_attempt. repeat inv_step.
Qed.

Lemma inv_products_loop total productLinks : forall i categoryProducts,
  holds_after R (products_loop syscoConfig total productLinks i categoryProducts).
Proof.
  induction productLinks as [|link rest IH]; intros i categoryProducts;
    cbn [products_loop]; [apply inv_ret|].
  destruct (length_Z categoryProducts <? Config.maxProductsPerCategory syscoConfig);
    [|apply inv_ret].
  apply inv_bind; [|intros a; apply IH].
  repeat inv_step. apply inv_extractProductDetails.
Qed.

Lemma inv_scrapeProductsFromPage categoryName pageNumber :
  holds_after R (scrapeProductsFromPage syscoConfig categoryName pageNumber).
Proof.
  unfold scrapeProductsFromPage.
  repeat first [apply inv_products_loop | inv_step].
Qed.

Lemma inv_returnToCategoryListPage :
  holds_after R (returnToCategoryListPage syscoConfig).
Proof. unfold returnToCategoryListPage. repeat inv_step. Qed.

(** [navigateToNextPage] after its first log call. *)
Lemma inv_navigateToNextPage_tail categoryPageUrl w :
  R (write_log (Logger.mk Logger.info Trace.advance_banner []) w)
    (snd (navigateToNextPage syscoConfig categoryPageUrl w)).
Proof.
  unfold navigateToNextPage. apply inv_after_log. repeat inv_step.
Qed.

(** The functions that log the two banners, for a relation that allows
    them. *)
Section Loud.
Hypothesis page_allowed : allowed Trace.page_banner = true.
Hypothesis advance_allowed : allowed Trace.advance_banner = true.

Lemma inv_navigateToNextPage categoryPageUrl :
  holds_after R (navigateToNextPage syscoConfig categoryPageUrl).
Proof.
  intros w. eapply R_trans; [|apply inv_navigateToNextPage_tail].
  now apply R_log.
Qed.

Lemma inv_pages_loop categoryName : forall fuel currentPage url all,
  holds_after R (pages_loop syscoConfig fuel categoryName currentPage url all).
Proof.
  induction fuel as [|fuel IH]; intros currentPage url all;
    cbn [pages_loop]; [apply inv_ret|].
  repeat first [ apply IH | apply inv_scrapeProductsFromPage
               | apply inv_navigateToNextPage
               | apply inv_log; exact page_allowed | inv_step ].
Qed.

Lemma inv_scrapeCategory categoryName :
  holds_after R (scrapeCategory syscoConfig categoryName).
Proof.
  unfold scrapeCategory.
  repeat first [ apply inv_pages_loop | apply inv_returnToCategoryListPage
               | inv_step ].
Qed.

Lemma inv_category_step category all :
  holds_after R (category_step syscoConfig category all).
Proof.
  unfold category_step. repeat first [apply inv_scrapeCategory | inv_step].
Qed.

Lemma inv_categories_loop categories : forall all,
  holds_after R (categories_loop syscoConfig categories all).
Proof.
  induction categories as [|c rest IH]; intros all; cbn [categories_loop];
    [apply inv_ret|].
  apply inv_bind; [apply inv_category_step | intros a; apply IH].
Qed.
End Loud.

End InvariantRules.

(* ================================================================== *)
(** * What leaves the table alone, and the walker's banners *)
(* ================================================================== *)

Section Instances.
Import Async Puppeteer Run Scraper Laws SyscoModels.
Context {E : Type} `{Driver E}.

Lemma unchanged_refl (w : World E) : unchanged w w.
Proof. reflexivity. Qed.

Lemma unchanged_trans (a b c : World E) :
  unchanged a b -> unchanged b c -> unchanged a c.
Proof. unfold unchanged. intros Hab Hbc. now rewrite Hbc. Qed.

Lemma emits_refl (w : World E) : emits [] 0 w w.
Proof. exists []. now rewrite app_nil_r. Qed.

Lemma pages_scraped_app l1 l2 :
  Trace.pages_scraped (l1 ++ l2) = (Trace.pages_scraped l1 ++ Trace.pages_scraped l2)%list.
Proof.
  induction l1 as [|e l1 IH]; simpl; [reflexivity|].
  destruct (String.eqb (Logger.template e) Trace.page_banner); [|exact IH].
  destruct (Logger.args e) as [|a [|[s|n] [|c l]]]; simpl; now rewrite ?IH.
Qed.

Lemma count_app t l1 l2 :
  Trace.count t (l1 ++ l2) = (Trace.count t l1 + Trace.count t l2)%nat.
Proof. unfold Trace.count. now rewrite filter_app, length_app. Qed.

(** Traces compose. *)
Lemma emits_trans p1 n1 p2 n2 (a b c : World E) :
  emits p1 n1 a b -> emits p2 n2 b c -> emits (p1 ++ p2) (n1 + n2) a c.
Proof.
  intros [l1 [E1 [P1 A1]]] [l2 [E2 [P2 A2]]].
  exists (l1 ++ l2)%list. split; [|split].
  - now rewrite E2, E1, app_assoc.
  - now rewrite pages_scraped_app, P1, P2.
  - unfold Trace.advances in *. now rewrite count_app, A1, A2.
Qed.

Lemma quiet_trans (a b c : World E) : quiet a b -> quiet b c -> quiet a c.
Proof. intros Hab Hbc. exact (emits_trans _ _ _ _ _ _ _ Hab Hbc). Qed.

Lemma quiet_log (w : World E) e :
  is_quiet (Logger.template e) = true -> quiet w (write_log e w).
Proof.
  unfold is_quiet. intros Hq. apply andb_prop in Hq. destruct Hq as [Hp Ha].
  apply negb_true_iff in Hp, Ha.
  exists [e]. split; [reflexivity|]. split.
  - simpl. now rewrite Hp.
  - unfold Trace.advances, Trace.count. simpl. now rewrite Ha.
Qed.

Lemma quiet_templates_are_quiet t : In t quiet_templates -> is_quiet t = true.
Proof.
  assert (Hall : forallb is_quiet quiet_templates = true) by (vm_compute; reflexivity).
  rewrite forallb_forall in Hall. apply Hall.
Qed.

Variable syscoConfig : Config.t.

(** *** What leaves the table alone *)

Lemma unchanged_env (w : World E) e : unchanged w (mkWorld e (db w) (logged w)).
Proof. reflexivity. Qed.

Lemma unchanged_log (w : World E) e :
  (fun _ : string => true) (Logger.template e) = true -> unchanged w (write_log e w).
Proof. reflexivity. Qed.

Ltac unchanged_rules :=
  first [ exact unchanged_refl | exact unchanged_trans | exact unchanged_env
        | exact unchanged_log | reflexivity | (intros; reflexivity) ].

Lemma unchanged_products_loop total productLinks i categoryProducts :
  holds_after unchanged
    (products_loop syscoConfig total productLinks i categoryProducts).
Proof. apply (inv_products_loop unchanged (fun _ => true)); unchanged_rules. Qed.

Lemma unchanged_navigateToNextPage u :
  holds_after unchanged (navigateToNextPage syscoConfig u).
Proof. apply (inv_navigateToNextPage unchanged (fun _ => true)); unchanged_rules. Qed.

Lemma unchanged_returnToCategoryListPage :
  holds_after unchanged (returnToCategoryListPage syscoConfig).
Proof.
  apply (inv_returnToCategoryListPage unchanged (fun _ => true)); unchanged_rules.
Qed.

(** *** Which operations log no banner *)

Lemma quiet_env (w : World E) e : quiet w (mkWorld e (db w) (logged w)).
Proof. exists []. simpl. now rewrite app_nil_r. Qed.

Lemma quiet_db (w : World E) ps :
  quiet w (mkWorld (env w)
             (snd (SyscoModels.batchUpsertProducts (clock (env w)) ps JS.Null (db w)))
             (logged w)).
Proof. exists []. simpl. now rewrite app_nil_r. Qed.

Ltac quiet_rules :=
  first [ exact emits_refl | exact quiet_trans | exact quiet_env
        | exact quiet_log | exact quiet_db | exact quiet_templates_are_quiet ].

Lemma quiet_scrapeProductsFromPage c p :
  holds_after quiet (scrapeProductsFromPage syscoConfig c p).
Proof. apply (inv_scrapeProductsFromPage quiet is_quiet); quiet_rules. Qed.

Lemma quiet_returnToCategoryListPage :
  holds_after quiet (returnToCategoryListPage syscoConfig).
Proof. apply (inv_returnToCategoryListPage quiet is_quiet); quiet_rules. Qed.

(** A page-advance navigation logs its banner once. *)
Lemma navigateToNextPage_trace u (w : World E) :
  emits [] 1 w (snd (navigateToNextPage syscoConfig u w)).
Proof.
  assert (H1 : emits [] 1 w (write_log (Logger.mk Logger.info Trace.advance_banner []) w)).
  { exists [Logger.mk Logger.info Trace.advance_banner []]. repeat split. }
  assert (H2 : quiet (write_log (Logger.mk Logger.info Trace.advance_banner []) w)
                     (snd (navigateToNextPage syscoConfig u w))).
  { apply (inv_navigateToNextPage_tail quiet is_quiet); quiet_rules. }
  exact (emits_trans _ _ _ _ _ _ _ H1 H2).
Qed.

(** *** The trace of a category walk *)

Let maxPages := Config.maxPagesPerCategory syscoConfig.

Lemma walked_of_quiet p (w w' : World E) : quiet w w' -> walked maxPages p w w'.
Proof. intros Hq. exists 0%nat, 0%nat. simpl. repeat split; try lia. exact Hq. Qed.

Lemma walked_quiet_l p (a b c : World E) :
  quiet a b -> walked maxPages p b c -> walked maxPages p a c.
Proof.
  intros Hq [n [k [He Hb]]]. exists n, k. split; [|exact Hb].
  exact (emits_trans _ _ _ _ _ _ _ Hq He).
Qed.

Lemma walked_quiet_r p (a b c : World E) :
  walked maxPages p a b -> quiet b c -> walked maxPages p a c.
Proof.
  intros [n [k [He Hb]]] Hq. exists n, k. split; [|exact Hb].
  pose proof (emits_trans _ _ _ _ _ _ _ He Hq) as Ht.
  now rewrite app_nil_r, Nat.add_0_r in Ht.
Qed.

Lemma walked_bind_l {A B} p (m : M (World E) A) (k : A -> M (World E) B) :
  holds_after quiet m -> (forall a, holds_after (walked maxPages p) (k a)) ->
  holds_after (walked maxPages p) (Async.bind m k).
Proof.
  intros Hm Hk w. unfold Async.bind. specialize (Hm w).
  destruct (m w) as [[a|e] w1]; simpl in *.
  - eapply walked_quiet_l; [exact Hm | apply Hk].
  - now apply walked_of_quiet.
Qed.

Lemma walked_bind_r {A B} p (m : M (World E) A) (k : A -> M (World E) B) :
  holds_after (walked maxPages p) m -> (forall a, holds_after quiet (k a)) ->
  holds_after (walked maxPages p) (Async.bind m k).
Proof.
  intros Hm Hk w. unfold Async.bind. specialize (Hm w).
  destruct (m w) as [[a|e] w1]; simpl in *; [|exact Hm].
  eapply walked_quiet_r; [exact Hm | apply Hk].
Qed.

Lemma emits_page_banner c p (w : World E) :
  emits [p] 0 w
    (write_log (Logger.mk Logger.info Trace.page_banner [Logger.S c; Logger.N p]) w).
Proof. eexists. split; [reflexivity|]. split; reflexivity. Qed.

(** The loop announces consecutive pages and stays within the page
    limit. *)
Lemma pages_loop_walked c : forall fuel p u all,
  holds_after (walked maxPages p) (pages_loop syscoConfig fuel c p u all).
Proof.
  induction fuel as [|fuel IH]; intros p u all w; cbn [pages_loop].
  - apply walked_of_quiet, emits_refl.
  - fold maxPages.
    destruct (Z.leb_spec p maxPages) as [Hle|Hgt]; cbn [andb];
      [|apply walked_of_quiet, emits_refl].
    destruct (length_Z all <? Config.maxProductsPerCategory syscoConfig);
      [|apply walked_of_quiet, emits_refl].
    unfold Async.bind at 1. unfold log at 1. cbn [fst snd].
    pose proof (emits_page_banner c p w) as Hp.
    set (w1 := write_log _ w) in *.
    unfold Async.bind at 1.
    pose proof (quiet_scrapeProductsFromPage c p w1) as Hq.
    destruct (scrapeProductsFromPage syscoConfig c p w1) as [[pp|e] w2];
      cbn [snd] in Hq.
    + pose proof (emits_trans _ _ _ _ _ _ _ Hp Hq) as H12. cbn [app Nat.add] in H12.
      destruct (Z.leb_spec maxPages p) as [Hlast|Hmore].
      * exists 1%nat, 0%nat. split; [|lia].
        eapply (emits_trans [p] 0 [] 0); [exact H12|].
        apply (inv_log quiet is_quiet quiet_log). reflexivity.
      * unfold Async.bind at 1.
        pose proof (navigateToNextPage_trace u w2) as Hn.
        destruct (navigateToNextPage syscoConfig u w2) as [[b|e] w3];
          cbn [snd] in Hn;
          pose proof (emits_trans _ _ _ _ _ _ _ H12 Hn) as H13;
          cbn [app Nat.add] in H13.
        -- destruct b; cbn [negb].
           ++ unfold Async.bind at 1, page_url at 1.
              destruct (IH (p + 1) (url (env w3)) (all ++ pp)%list w3)
                as [n [a [He [Hb1 [Hb2 Hb3]]]]].
              exists (S n), (S a). split; [|lia].
              exact (emits_trans _ _ _ _ _ _ _ H13 He).
           ++ exists 1%nat, 1%nat. split; [|lia].
              eapply (emits_trans [p] 1 [] 0); [exact H13|].
              apply (inv_log quiet is_quiet quiet_log). reflexivity.
        -- exists 1%nat, 1%nat. split; [exact H13 | lia].
    + exists 1%nat, 0%nat. split; [|lia].
      exact (emits_trans _ _ _ _ _ _ _ Hp Hq).
Qed.

Lemma walked_of_quiet_op {A} p (m : M (World E) A) :
  holds_after quiet m -> holds_after (walked maxPages p) m.
Proof. intros Hm w. apply walked_of_quiet, Hm. Qed.

Ltac quiet_step :=
  match goal with
  | |- holds_after quiet (Async.bind _ _) =>
      apply (inv_bind quiet quiet_trans); [ | intros ? ]
  | |- holds_after quiet (try_catch _ _) =>
      apply (inv_try_catch quiet quiet_trans); [ | intros ? ]
  | |- holds_after quiet (ret _) => apply (inv_ret quiet emits_refl)
  | |- holds_after quiet (throw _) => apply (inv_throw quiet emits_refl)
  | |- holds_after quiet (log _ _ _) =>
      apply (inv_log quiet is_quiet quiet_log); reflexivity
  | |- holds_after quiet (delay _) => apply (inv_delay quiet quiet_env)
  | |- holds_after quiet (page_evaluate _) =>
      apply (inv_page_evaluate quiet emits_refl quiet_env)
  | |- holds_after quiet page_url => apply (inv_page_url quiet emits_refl)
  | |- holds_after quiet (page_waitForNavigation _ _) =>
      apply (inv_on_env quiet quiet_env)
  | |- holds_after quiet (returnToCategoryListPage _) =>
      apply quiet_returnToCategoryListPage
  | |- holds_after quiet (if ?b then _ else _) => destruct b
  | |- holds_after quiet (match ?x with _ => _ end) => destruct x
  end.

(** The walk of a category announces pages [1 .. n] for some [n] within
    the page limit, and attempts fewer page-advance navigations than the
    limit. *)
Lemma scrapeCategory_walked c :
  holds_after (walked maxPages 1) (scrapeCategory syscoConfig c).
Proof.
  unfold scrapeCategory.
  apply walked_bind_l; [quiet_step|intros _].
  apply walked_bind_l; [quiet_step|intros _].
  destruct (Config.lookup c (Config.categorySelectors syscoConfig)) as [selector|];
    [|apply walked_of_quiet_op; repeat quiet_step].
  destruct (negb (JS.truthy selector));
    [apply walked_of_quiet_op; repeat quiet_step|].
  apply walked_bind_l; [quiet_step|intros _].
  apply walked_bind_l; [quiet_step|intros categoryClicked].
  destruct (negb categoryClicked);
    [apply walked_of_quiet_op; repeat quiet_step|].
  apply walked_bind_l; [quiet_step|intros _].
  apply walked_bind_l; [quiet_step|intros _].
  apply walked_bind_l; [repeat quiet_step|intros _].
  apply walked_bind_l; [quiet_step|intros currentUrl].
  apply walked_bind_l; [quiet_step|intros _].
  apply walked_bind_r; [apply pages_loop_walked|intros [all currentPage]].
  repeat quiet_step.
Qed.

End Instances.

(* ================================================================== *)
(** * Operations that always return *)
(* ================================================================== *)

Section ReturnRules.
Import Async Puppeteer Run Scraper Laws.
Context {E : Type} `{Driver E}.

Lemma returns_ret {A} (Q : A -> Prop) a : Q a -> returns Q (@ret (World E) A a).
Proof. intros Ha w. exists a, w. now split. Qed.

Lemma returns_bind {A B} (Q1 : A -> Prop) (Q : B -> Prop)
    (m : M (World E) A) (k : A -> M (World E) B) :
  returns Q1 m -> (forall a, Q1 a -> returns Q (k a)) -> returns Q (bind m k).
Proof.
  intros Hm Hk w. destruct (Hm w) as [a [w1 [E1 Ha]]].
  destruct (Hk a Ha w1) as [b [w2 [E2 Hb]]].
  exists b, w2. unfold bind. now rewrite E1.
Qed.

Lemma returns_weaken {A} (Q Q' : A -> Prop) (m : M (World E) A) :
  (forall a, Q a -> Q' a) -> returns Q m -> returns Q' m.
Proof.
  intros Himp Hm w. destruct (Hm w) as [a [w1 [E1 Ha]]]. exists a, w1. auto.
Qed.

Lemma returns_log l template args :
  returns (fun _ => True) (@log (World E) _ l template args).
Proof. intros w. eexists; eexists. split; [reflexivity|exact I]. Qed.

Lemma returns_delay ms : returns (fun _ => True) (@delay (World E) _ ms).
Proof. intros w. eexists; eexists. split; [reflexivity|exact I]. Qed.

Lemma returns_page_url : returns (fun _ => True) (@page_url E _).
Proof. intros w. eexists; eexists. split; [reflexivity|exact I]. Qed.

(** A handler that always returns makes the whole [try] return. *)
Lemma returns_try_catch {A} (Q : A -> Prop)
    (m : M (World E) A) (h : JS.error -> M (World E) A) :
  (forall w a w', m w = (JS.Ok a, w') -> Q a) ->
  (forall e, returns Q (h e)) ->
  returns Q (try_catch m h).
Proof.
  intros Hm Hh w. unfold try_catch.
  destruct (m w) as [[a|e] w1] eqn:E1.
  - exists a, w1. split; [reflexivity|]. eapply Hm; eauto.
  - apply Hh.
Qed.

Lemma returns_batchUpsertProducts ps :
  returns (fun _ => True) (@Gateway.batchUpsertProducts E _ ps).
Proof.
  intros w. unfold Gateway.batchUpsertProducts.
  destruct (SyscoModels.batchUpsertProducts (clock (env w)) ps JS.Null (db w)).
  eexists; eexists. split; [reflexivity|exact I].
Qed.

(** *** What returns when the driver does not fail *)

Lemma returns_page_goto target waitUntil timeout :
  (forall t wu to e, exists e', goto t wu to e = (JS.Ok tt, e')) ->
  returns (fun _ => True) (page_goto target waitUntil timeout).
Proof.
  intros Hgoto w. unfold page_goto, on_env.
  destruct (Hgoto target waitUntil timeout (env w)) as [e' ->].
  eexists; eexists. split; [reflexivity|exact I].
Qed.

Lemma returns_page_evaluate {A} (Q : A -> Prop)
    (script : Dom.document -> JS.outcome A * list Dom.effect) :
  (forall e : E, exists d, document_of e = JS.Ok d) ->
  (forall (e : E) d, document_of e = JS.Ok d ->
                     exists a fx, script d = (JS.Ok a, fx) /\ Q a) ->
  returns Q (page_evaluate script).
Proof.
  intros Hdoc Hscript w. unfold page_evaluate.
  destruct (Hdoc (env w)) as [d Hd]. rewrite Hd.
  destruct (Hscript _ _ Hd) as [a [fx [-> Ha]]].
  eexists; eexists. split; [reflexivity|exact Ha].
Qed.

Variable syscoConfig : Config.t.

(** The loop over the links of a page returns, and adds at most one
    product per link. *)
Lemma products_loop_returns total productLinks : forall i categoryProducts,
  returns (fun r => (List.length r
                     <= List.length categoryProducts + List.length productLinks)%nat)
          (products_loop syscoConfig total productLinks i categoryProducts).
Proof.
  induction productLinks as [|link rest IH]; intros i acc; cbn [products_loop].
  - apply returns_ret. simpl. lia.
  - destruct (length_Z acc <? Config.maxProductsPerCategory syscoConfig);
      [|apply returns_ret; simpl; lia].
    eapply returns_bind with
      (Q1 := fun r => (List.length r <= S (List.length acc))%nat).
    + apply returns_try_catch.
      * intros w a w'. unfold bind, log, delay, ret. cbn [fst snd].
        destruct (extractProductDetails syscoConfig link _) as [[pd|e] w1];
          [|discriminate].
        intros Heq. inversion Heq; subst. rewrite length_app. simpl. lia.
      * intros e.
        eapply returns_bind; [apply returns_log|intros _ _].
        eapply returns_bind; [apply returns_log|intros _ _].
        apply returns_ret. lia.
    + intros r Hr. eapply returns_weaken; [|apply IH].
      intros r' Hr'. simpl. simpl in Hr'. lia.
Qed.

Section DriverWorks.
Variable k : nat.
Hypothesis scripts_run : forall e : E, exists d, document_of e = JS.Ok d.
Hypothesis navigation_works :
  forall t wu to e, exists e', goto t wu to e = (JS.Ok tt, e').
Hypothesis next_usable :
  forall (e : E) d, document_of e = JS.Ok d ->
    exists r fx, nextPage_script (Config.pagination syscoConfig) d = (JS.Ok r, fx)
                 /\ success r = true.
Hypothesis few_links :
  forall (e : E) d, document_of e = JS.Ok d ->
    (List.length (productLinks_script (Config.productListing syscoConfig) d)
     <= k)%nat.

Lemma scrapeProductsFromPage_returns categoryName pageNumber :
  returns (fun r => (List.length r <= k)%nat)
          (scrapeProductsFromPage syscoConfig categoryName pageNumber).
Proof.
  unfold scrapeProductsFromPage.
  eapply returns_bind; [apply returns_log|intros _ _].
  eapply returns_bind; [apply returns_delay|intros _ _].
  eapply returns_bind with (Q1 := fun links => (List.length links <= k)%nat).
  { apply returns_page_evaluate; [exact scripts_run|].
    intros e d Hd. eexists; eexists. split; [reflexivity|].
    exact (few_links e d Hd). }
  intros links Hlinks.
  eapply returns_bind; [apply returns_log|intros _ _].
  destruct links as [|l ls]; [
    eapply returns_bind; [apply returns_log|intros _ _];
    apply returns_ret; simpl; lia |].
  eapply returns_bind; [apply products_loop_returns|].
  intros r Hr. simpl in Hr.
  eapply returns_bind; [apply returns_log|intros _ _].
  eapply returns_bind with (Q1 := fun _ => True).
  { destruct r; [now apply returns_ret|].
    eapply returns_bind; [apply returns_log|intros _ _].
    apply returns_try_catch; [auto|].
    intros e. apply returns_log. }
  intros _ _. apply returns_ret. simpl in Hlinks. lia.
Qed.

Lemma navigateToNextPage_returns categoryPageUrl :
  returns (fun b => b = true) (navigateToNextPage syscoConfig categoryPageUrl).
Proof.
  unfold navigateToNextPage.
  eapply returns_bind; [apply returns_log|intros _ _].
  eapply returns_bind; [apply returns_log|intros _ _].
  eapply returns_bind; [apply returns_page_goto, navigation_works|intros _ _].
  eapply returns_bind; [apply returns_delay|intros _ _].
  eapply returns_bind; [apply returns_delay|intros _ _].
  eapply returns_bind with (Q1 := fun r => success r = true).
  { apply returns_page_evaluate; [exact scripts_run | exact next_usable]. }
  intros r Hr. rewrite Hr.
  eapply returns_bind; [apply returns_log|intros _ _].
  eapply returns_bind with (Q1 := fun _ => True).
  { destruct (page r) as [n|]; [|now apply returns_ret].
    destruct (n =? 0); [now apply returns_ret | apply returns_log]. }
  intros _ _.
  eapply returns_bind; [apply returns_delay|intros _ _].
  eapply returns_bind with (Q1 := fun _ => True).
  { apply returns_try_catch; [auto|]. intros e. apply returns_log. }
  intros _ _. now apply returns_ret.
Qed.

End DriverWorks.
End ReturnRules.

(* ================================================================== *)
(** * The walk of a category when the driver does not fail *)
(* ================================================================== *)

Ltac quiet_op :=
  repeat
    match goal with
    | |- Laws.holds_after Laws.quiet (Async.bind _ _) =>
        apply (inv_bind Laws.quiet quiet_trans); [ | intros ? ]
    | |- Laws.holds_after Laws.quiet (Async.try_catch _ _) =>
        apply (inv_try_catch Laws.quiet quiet_trans); [ | intros ? ]
    | |- Laws.holds_after Laws.quiet (Async.ret _) =>
        apply (inv_ret Laws.quiet emits_refl)
    | |- Laws.holds_after Laws.quiet (Async.throw _) =>
        apply (inv_throw Laws.quiet emits_refl)
    | |- Laws.holds_after Laws.quiet (Async.log _ _ _) =>
        apply (inv_log Laws.quiet Laws.is_quiet quiet_log); reflexivity
    | |- Laws.holds_after Laws.quiet (Async.delay _) =>
        apply (inv_delay Laws.quiet quiet_env)
    | |- Laws.holds_after Laws.quiet (Run.page_evaluate _) =>
        apply (inv_page_evaluate Laws.quiet emits_refl quiet_env)
    | |- Laws.holds_after Laws.quiet Run.page_url =>
        apply (inv_page_url Laws.quiet emits_refl)
    | |- Laws.holds_after Laws.quiet (Run.page_waitForNavigation _ _) =>
        apply (inv_on_env Laws.quiet quiet_env)
    | |- Laws.holds_after Laws.quiet (Gateway.exportToCsv _ _) =>
        apply (inv_exportToCsv Laws.quiet quiet_env)
    | |- Laws.holds_after Laws.quiet (Scraper.returnToCategoryListPage _) =>
        apply quiet_returnToCategoryListPage
    | |- Laws.holds_after Laws.quiet (if ?b then _ else _) => destruct b
    | |- Laws.holds_after Laws.quiet (match ?x with _ => _ end) => destruct x
    end.

Section ExactWalk.
Import Async Puppeteer Run Scraper Laws.
Context {E : Type} `{Driver E}.

(** A quiet operation that returns, followed by a continuation with a
    known trace. *)
Lemma emits_after_quiet {A B} (Q : A -> Prop) pages n
    (m : M (World E) A) (k : A -> M (World E) B) :
  returns Q m -> holds_after quiet m ->
  (forall a, Q a -> holds_after (emits pages n) (k a)) ->
  holds_after (emits pages n) (bind m k).
Proof.
  intros Hr Hq Hk w. unfold bind.
  destruct (Hr w) as [a [w1 [E1 Ha]]]. specialize (Hq w). rewrite E1 in *.
  cbn [snd] in Hq. exact (emits_trans _ _ _ _ _ _ _ Hq (Hk a Ha w1)).
Qed.

(** An operation with a known trace that returns, followed by a quiet
    continuation. *)
Lemma emits_then_quiet {A B} pages n
    (m : M (World E) A) (k : A -> M (World E) B) :
  (forall w, exists a w', m w = (JS.Ok a, w') /\ emits pages n w w') ->
  (forall a, holds_after quiet (k a)) ->
  holds_after (emits pages n) (bind m k).
Proof.
  intros Hm Hk w. unfold bind.
  destruct (Hm w) as [a [w1 [E1 He]]]. rewrite E1.
  pose proof (emits_trans _ _ _ _ _ _ _ He (Hk a w1)) as Ht.
  now rewrite app_nil_r, Nat.add_0_r in Ht.
Qed.

Variable syscoConfig : Config.t.
Variable k : nat.
Let maxPages := Config.maxPagesPerCategory syscoConfig.
Let maxProducts := Config.maxProductsPerCategory syscoConfig.

Hypothesis scripts_run : forall e : E, exists d, document_of e = JS.Ok d.
Hypothesis navigation_works :
  forall t wu to e, exists e', goto t wu to e = (JS.Ok tt, e').
Hypothesis next_usable :
  forall (e : E) d, document_of e = JS.Ok d ->
    exists r fx, nextPage_script (Config.pagination syscoConfig) d = (JS.Ok r, fx)
                 /\ success r = true.
Hypothesis few_links :
  forall (e : E) d, document_of e = JS.Ok d ->
    (List.length (productLinks_script (Config.productListing syscoConfig) d)
     <= k)%nat.

(** While the product cap is out of reach the loop scrapes every page up
    to the page limit, with one page-advance navigation between two
    pages. *)
Lemma pages_loop_full c : forall fuel p u all (w : World E),
  1 <= p <= maxPages ->
  Z.of_nat fuel = maxPages + 1 - p ->
  length_Z all + (maxPages - p) * Z.of_nat k < maxProducts ->
  exists r w',
    pages_loop syscoConfig fuel c p u all w = (JS.Ok r, w')
    /\ emits (Trace.pages_from p fuel) (fuel - 1) w w'.
Proof.
  unfold maxPages, maxProducts.
  induction fuel as [|fuel IH]; intros p u all w Hp Hfuel Hcap; [lia|].
  cbn [pages_loop].
  set (maxPages' := Config.maxPagesPerCategory syscoConfig) in *.
  set (maxProducts' := Config.maxProductsPerCategory syscoConfig) in *.
  destruct (Z.leb_spec p maxPages') as [Hle|]; [|lia].
  assert (Hk : 0 <= (maxPages' - p) * Z.of_nat k) by nia.
  destruct (Z.ltb_spec (length_Z all) maxProducts') as [Hlt|]; [|lia].
  cbn [andb].
  unfold bind at 1. unfold log at 1. cbn [fst snd].
  pose proof (emits_page_banner c p w) as Hpage.
  set (w1 := write_log _ w) in *.
  unfold bind at 1.
  destruct (scrapeProductsFromPage_returns syscoConfig k scripts_run few_links c p w1)
    as [pp [w2 [E1 Hpp]]].
  pose proof (quiet_scrapeProductsFromPage syscoConfig c p w1) as Hq.
  rewrite E1 in *. cbn [snd] in Hq.
  pose proof (emits_trans _ _ _ _ _ _ _ Hpage Hq) as H12. cbn [app Nat.add] in H12.
  destruct (Z.leb_spec maxPages' p) as [Hlast|Hmore].
  - assert (fuel = 0%nat) by lia. subst fuel.
    unfold bind, log, ret. cbn [fst snd].
    eexists; eexists. split; [reflexivity|]. cbn [Trace.pages_from Nat.sub].
    eapply (emits_trans [p] 0 [] 0); [exact H12|].
    apply (inv_log quiet is_quiet quiet_log). reflexivity.
  - unfold bind at 1.
    destruct (navigateToNextPage_returns syscoConfig scripts_run navigation_works
                next_usable u w2) as [b [w3 [E2 ->]]].
    pose proof (navigateToNextPage_trace syscoConfig u w2) as Hn.
    rewrite E2 in *. cbn [snd] in Hn. cbn [negb].
    unfold bind at 1, page_url at 1.
    destruct (IH (p + 1) (url (env w3)) (all ++ pp)%list w3)
      as [r [w4 [E3 He]]]; [lia|lia| |].
    { unfold length_Z in *. rewrite length_app. nia. }
    exists r, w4. split; [exact E3|].
    pose proof (emits_trans _ _ _ _ _ _ _ H12 Hn) as H13. cbn [app Nat.add] in H13.
    pose proof (emits_trans _ _ _ _ _ _ _ H13 He) as H14.
    cbn [app Trace.pages_from]. 
    replace (S fuel - 1)%nat with (1 + (fuel - 1))%nat by lia. exact H14.
Qed.

Variable categoryName selector : string.
Hypothesis category_known :
  Config.lookup categoryName (Config.categorySelectors syscoConfig) = Some selector.
Hypothesis selector_truthy : JS.truthy selector = true.
Hypothesis category_found :
  forall (e : E) d, document_of e = JS.Ok d ->
    exists fx, categoryClick_script selector d = (JS.Ok true, fx).
Hypothesis pages_allowed : 1 <= maxPages.
Hypothesis cap_out_of_reach : (maxPages - 1) * Z.of_nat k < maxProducts.

(** The walk of a category then announces every page up to the limit
    and attempts one page-advance navigation fewer. *)
Lemma scrapeCategory_full :
  holds_after (emits (Trace.first_pages (Z.to_nat maxPages)) (Z.to_nat maxPages - 1))
              (scrapeCategory syscoConfig categoryName).
Proof.
  unfold scrapeCategory.
  eapply emits_after_quiet; [apply returns_log|quiet_op|intros _ _].
  eapply emits_after_quiet; [apply returns_delay|quiet_op|intros _ _].
  rewrite category_known, selector_truthy. cbn [negb].
  eapply emits_after_quiet; [apply returns_log|quiet_op|intros _ _].
  eapply emits_after_quiet with (Q := fun b => b = true).
  { apply returns_page_evaluate; [exact scripts_run|].
    intros e d Hd. destruct (category_found e d Hd) as [fx Hfx]. eauto. }
  { quiet_op. }
  intros b ->. cbn [negb].
  eapply emits_after_quiet; [apply returns_log|quiet_op|intros _ _].
  eapply emits_after_quiet; [apply returns_delay|quiet_op|intros _ _].
  eapply emits_after_quiet with (Q := fun _ => True).
  { apply returns_try_catch; [auto|]. intros e. apply returns_log. }
  { quiet_op. }
  intros _ _.
  eapply emits_after_quiet; [apply returns_page_url|quiet_op|intros currentUrl _].
  eapply emits_after_quiet; [apply returns_log|quiet_op|intros _ _].
  apply emits_then_quiet.
  - intros w. unfold Trace.first_pages.
    apply pages_loop_full; unfold maxPages, maxProducts in *; try lia.
    unfold length_Z. simpl. lia.
  - intros [all currentPage]. quiet_op.
Qed.

End ExactWalk.

(* ================================================================== *)
(** * What a walk returns is in the table *)
(* ================================================================== *)

Section HoareRules.
Import Async Puppeteer Run Scraper Laws.
Context {E : Type} `{Driver E}.

Lemma hoare_ret {A} (P : World E -> Prop) (Q : A -> World E -> Prop) X a :
  (forall w, P w -> Q a w) -> hoare P (ret a) Q X.
Proof. intros HQ w Hw. now apply HQ. Qed.

Lemma hoare_bind {A B} (P : World E -> Prop) (Q1 : A -> World E -> Prop)
    (Q : B -> World E -> Prop) X (m : M (World E) A) (k : A -> M (World E) B) :
  hoare P m Q1 X -> (forall a, hoare (Q1 a) (k a) Q X) ->
  hoare P (Async.bind m k) Q X.
Proof.
  intros Hm Hk w Hw. unfold Async.bind. specialize (Hm w Hw).
  destruct (m w) as [[a|e] w1]; [|exact Hm]. now apply Hk.
Qed.

Lemma hoare_try_catch {A} (P : World E -> Prop) (Q : A -> World E -> Prop) X1 X
    (m : M (World E) A) (h : JS.error -> M (World E) A) :
  hoare P m Q X1 -> (forall e, hoare X1 (h e) Q X) -> hoare P (try_catch m h) Q X.
Proof.
  intros Hm Hh w Hw. unfold try_catch. specialize (Hm w Hw).
  destruct (m w) as [[a|e] w1]; [exact Hm|]. now apply Hh.
Qed.

Lemma hoare_weaken {A} (P P' : World E -> Prop) (Q Q' : A -> World E -> Prop)
    (X X' : World E -> Prop) m :
  (forall w, P' w -> P w) -> (forall a w, Q a w -> Q' a w) ->
  (forall w, X w -> X' w) ->
  hoare P m Q X -> hoare P' m Q' X'.
Proof.
  intros HP HQ HX Hm w Hw. specialize (Hm w (HP w Hw)).
  destruct (m w) as [[a|e] w1]; auto.
Qed.

Lemma hoare_conj {A} (P : World E -> Prop) (Q Q' : A -> World E -> Prop) X X' m :
  hoare P m Q X -> hoare P m Q' X' ->
  hoare P m (fun a w => Q a w /\ Q' a w) (fun w => X w /\ X' w).
Proof.
  intros H1 H2 w Hw. specialize (H1 w Hw). specialize (H2 w Hw).
  destruct (m w) as [[a|e] w1]; auto.
Qed.

(** A fact that does not depend on the world can be taken out of the
    precondition. *)
Lemma hoare_assume {A} (fact : Prop) (P : World E -> Prop)
    (Q : A -> World E -> Prop) X m :
  (fact -> hoare P m Q X) -> hoare (fun w => P w /\ fact) m Q X.
Proof. intros Hm w [Hw Hf]. now apply Hm. Qed.

Lemma hoare_pure {A} (fact : Prop) (Q : A -> World E -> Prop) X m :
  (fact -> hoare (fun _ => True) m Q X) -> hoare (fun _ => fact) m Q X.
Proof. intros Hm w Hf. now apply Hm. Qed.

Lemma hoare_any {A} (P : World E -> Prop) (m : M (World E) A) :
  hoare P m (fun _ _ => True) (fun _ => True).
Proof. intros w _. now destruct (m w) as [[a|e] w1]. Qed.

(** An operation that leaves the table alone maintains whatever holds
    of the table. *)
Lemma hoare_unchanged {A} (P : World E -> Prop) (m : M (World E) A) :
  (forall w w', unchanged w w' -> P w -> P w') ->
  holds_after unchanged m -> hoare P m (fun _ w' => P w') P.
Proof.
  intros HP Hm w Hw. specialize (Hm w).
  destruct (m w) as [[a|e] w1]; simpl in Hm; eapply HP; eauto.
Qed.

Lemma hoare_frame {A} (P X : World E -> Prop) (m : M (World E) A) :
  (forall w w', unchanged w w' -> P w -> P w') ->
  (forall w, P w -> X w) ->
  holds_after unchanged m -> hoare P m (fun _ w' => P w') X.
Proof.
  intros HP HX Hm. eapply hoare_weaken; [| | |apply hoare_unchanged; eauto]; auto.
Qed.

(** A call of the logger leaves the table alone and does not throw. *)
Lemma hoare_log (P : World E -> Prop) X l template args :
  (forall w w', unchanged w w' -> P w -> P w') ->
  hoare P (log l template args) (fun _ w' => P w') X.
Proof. intros HP w Hw. unfold log. simpl. eapply HP; [|exact Hw]. reflexivity. Qed.

Lemma hoare_run {A} (P : World E -> Prop) (Q : A -> World E -> Prop) X m w a w' :
  hoare P m Q X -> P w -> m w = (JS.Ok a, w') -> Q a w'.
Proof. intros Hm Hw Hrun. specialize (Hm w Hw). now rewrite Hrun in Hm. Qed.

Lemma hoare_thrown {A} (P : World E -> Prop) (Q : A -> World E -> Prop) X m w e w' :
  hoare P m Q X -> P w -> m w = (JS.Throw e, w') -> X w'.
Proof. intros Hm Hw Hrun. specialize (Hm w Hw). now rewrite Hrun in Hm. Qed.

End HoareRules.

Ltac unchanged_op :=
  repeat
    match goal with
    | |- Laws.holds_after Laws.unchanged (Async.bind _ _) =>
        apply (inv_bind Laws.unchanged unchanged_trans); [ | intros ? ]
    | |- Laws.holds_after Laws.unchanged (Async.try_catch _ _) =>
        apply (inv_try_catch Laws.unchanged unchanged_trans); [ | intros ? ]
    | |- Laws.holds_after Laws.unchanged (Async.ret _) =>
        apply (inv_ret Laws.unchanged unchanged_refl)
    | |- Laws.holds_after Laws.unchanged (Async.throw _) =>
        apply (inv_throw Laws.unchanged unchanged_refl)
    | |- Laws.holds_after Laws.unchanged (Async.log _ _ _) =>
        apply (inv_log Laws.unchanged (fun _ => true) unchanged_log); reflexivity
    | |- Laws.holds_after Laws.unchanged (Async.delay _) =>
        apply (inv_delay Laws.unchanged unchanged_env)
    | |- Laws.holds_after Laws.unchanged (Run.page_evaluate _) =>
        apply (inv_page_evaluate Laws.unchanged unchanged_refl unchanged_env)
    | |- Laws.holds_after Laws.unchanged Run.page_url =>
        apply (inv_page_url Laws.unchanged unchanged_refl)
    | |- Laws.holds_after Laws.unchanged (Run.page_waitForNavigation _ _) =>
        apply (inv_on_env Laws.unchanged unchanged_env)
    | |- Laws.holds_after Laws.unchanged (Gateway.exportToCsv _ _) =>
        apply (inv_exportToCsv Laws.unchanged unchanged_env)
    | |- Laws.holds_after Laws.unchanged (Scraper.returnToCategoryListPage _) =>
        apply unchanged_returnToCategoryListPage
    | |- Laws.holds_after Laws.unchanged (Scraper.navigateToNextPage _ _) =>
        apply unchanged_navigateToNextPage
    | |- Laws.holds_after Laws.unchanged (Scraper.products_loop _ _ _ _ _) =>
        apply unchanged_products_loop
    | |- Laws.holds_after Laws.unchanged (if ?b then _ else _) => destruct b
    | |- Laws.holds_after Laws.unchanged (match ?x with _ => _ end) => destruct x
    end.

(* ================================================================== *)
(** ** Upserting the products of one location *)
(* ================================================================== *)

Section OneLocation.
Import SyscoModels Laws.
Variable z : string.

Lemma of_location_key p :
  of_location z p ->
  exists s, key_sku p = Some s /\ key_zip p = Some z
            /\ bind (ProductData.product_name p) <> None.
Proof.
  intros [[s [n [Hs [_ Hn]]]] Hz]. exists s. unfold key_sku.
  rewrite Hs, Hn. repeat split; [exact Hz | discriminate].
Qed.

(** In a table whose rows all carry the location of the product, the
    upsert of an extracted product is never rejected. *)
Lemma upsert_of_location now p sid d :
  located z d -> of_location z p ->
  exists res d',
    upsertProduct now p sid d = (JS.Ok res, d') /\ located z d'.
Proof.
  intros Hloc Hp. destruct (of_location_key p Hp) as [s [Hs [Hz Hn]]].
  unfold located in *. rewrite Forall_forall in Hloc.
  destruct (upsertProduct_cases now p sid d)
    as [[_ Hnull]|[[_ [Hk Hsku]]|[[E _]|[E _]]]].
  - contradiction.
  - exfalso. apply existsb_exists in Hsku. destruct Hsku as [r [Hr C]].
    assert (Ck : conflicts_key (key_sku p) (key_zip p) r = true).
    { unfold conflicts_key. unfold conflicts_sku in C. rewrite C.
      rewrite (Hloc r Hr), Hz. apply sql_conflict_refl. }
    rewrite (proj1 (existsb_false_forall _ _) Hk r Hr) in Ck. discriminate.
  - eexists; eexists. split; [exact E|]. cbn [rows].
    apply Forall_forall. intros r Hr. apply in_app_or in Hr.
    destruct Hr as [Hr|[<-|[]]]; [now apply Hloc|].
    cbn [Row.location_zip excluded_row]. exact Hz.
  - eexists; eexists. split; [exact E|]. cbn [rows].
    apply Forall_forall. intros r Hr. apply in_map_iff in Hr.
    destruct Hr as [r0 [<- Hr0]].
    destruct (conflicts_key (key_sku p) (key_zip p) r0);
      [cbn [Row.location_zip do_update]|]; now apply Hloc.
Qed.

(** So every upsert of a batch of such products resolves. *)
Lemma batch_loop_of_location clock sid ps : forall i acc d,
  located z d -> Forall (of_location z) ps ->
  located z (snd (batch_loop clock sid i ps acc d))
  /\ forall k p, nth_error ps k = Some p ->
                 nth_error (batch_outcomes clock sid i ps d) k = Some true.
Proof.
  induction ps as [|p ps IH]; intros i acc d Hloc Hall.
  - split; [exact Hloc|]. intros [|k] q Hq; discriminate.
  - inversion Hall as [|? ? Hp Hps]; subst.
    destruct (upsert_of_location (clock i) p sid d Hloc Hp) as [res [d' [E Hloc']]].
    cbn [batch_loop batch_outcomes]. rewrite E. cbn [JS.resolved].
    destruct (IH (S i) (mkBatch (saved acc + 1) (errors acc)) d' Hloc' Hps)
      as [Hl Ho].
    split; [exact Hl|].
    intros [|k] q Hq; cbn [nth_error] in *; [reflexivity|].
    now apply Ho with (p := q).
Qed.

Lemma holds_values_nil d : holds_values [] d.
Proof. intros pre p post Heq. destruct pre; discriminate. Qed.

Lemma nth_error_middle {A} (l : list A) x l' :
  nth_error (l ++ x :: l') (List.length l) = Some x.
Proof. induction l as [|y l IH]; simpl; [reflexivity | exact IH]. Qed.

Lemma skipn_middle {A} (l : list A) x l' :
  skipn (S (List.length l)) (l ++ x :: l') = l'.
Proof. induction l as [|y l IH]; simpl; [reflexivity | exact IH]. Qed.

(** What a batch of such products leaves: the rows still carry the
    location, the products saved before and those of the batch are
    present in storage, and the values of both are held. *)
Lemma batch_of_location clock ps before acc d :
  located z d -> all_stored (before ++ acc) d -> holds_values acc d ->
  Forall (of_location z) ps ->
  let d' := snd (batchUpsertProducts clock ps JS.Null d) in
  located z d'
  /\ all_stored (before ++ acc ++ ps) d'
  /\ holds_values (acc ++ ps) d'.
Proof.
  intros Hloc Hst Hval Hall d'.
  assert (Hd' : d' = snd (batch_loop clock JS.Null 0 ps (mkBatch 0 0) d)).
  { unfold d', batchUpsertProducts. now destruct ps. }
  destruct (batch_loop_of_location clock JS.Null ps 0 (mkBatch 0 0) d Hloc Hall)
    as [Hloc' Hout].
  rewrite Hd'. split; [exact Hloc'|]. split.
  - unfold all_stored in *. rewrite app_assoc. apply Forall_app. split.
    + eapply Forall_impl; [|exact Hst]. cbv beta. intros q [Hq Hs].
      split; [exact Hq|]. now apply batch_loop_stored_mono.
    + apply Forall_forall. intros q Hq. split.
      * rewrite Forall_forall in Hall. now destruct (Hall q Hq).
      * apply In_nth_error in Hq. destruct Hq as [k Hk].
        eapply batch_loop_stored; eauto.
  - intros pre p post Heq Hlast.
    apply app_eq_app in Heq. destruct Heq as [l [[Hacc Hpost]|[Hpre Hps]]].
    + destruct l as [|p' l].
      * (* [p] is the first product of the batch *)
        cbn [app] in Hpost. subst ps.
        apply (batch_loop_stores_values clock JS.Null (p :: post) 0 p);
          [reflexivity | now apply Hout with (p := p) | exact Hlast].
      * (* [p] was saved before the batch *)
        cbn [app] in Hpost. inversion Hpost; subst p' post.
        destruct (Hval pre p l Hacc) as [r [Hr [Es [Ez Ev]]]].
        { intros q Hq. apply Hlast. apply in_or_app. now left. }
        exists r. split; [|auto].
        apply batch_loop_keeps_row; [exact Hr|].
        intros q Hq. rewrite Es. apply Hlast. apply in_or_app. now right.
    + (* [p] is a later product of the batch *)
      subst ps.
      pose proof (batch_loop_stores_values clock JS.Null (l ++ p :: post)
                    (List.length l) p 0 (mkBatch 0 0) d
                    (nth_error_middle l p post)) as Hv.
      apply Hv.
      * apply Hout with (p := p). apply nth_error_middle.
      * rewrite skipn_middle. exact Hlast.
Qed.

End OneLocation.

(* ================================================================== *)
(** ** The walk of a site that shows one location *)
(* ================================================================== *)

Section Persistence.
Import Async Puppeteer Run Scraper Laws SyscoModels.
Context {E : Type} `{Driver E}.
Variable syscoConfig : Config.t.
Variable z : string.

Hypothesis shows_z : forall (e : E) d,
  document_of e = JS.Ok d ->
  shown_location (Config.productDetails syscoConfig) d = z.

(** The extraction step returns extracted products of the location the
    site shows. *)
Lemma extractProductDetails_attempt_of_location productUrl (w : World E) p w' :
  extractProductDetails_attempt syscoConfig productUrl w = (JS.Ok p, w') ->
  of_location z p.
Proof.
  unfold extractProductDetails_attempt.
  unfold Async.bind at 1.
  destruct (page_goto _ _ _ w) as [[?|?] w1]; [|discriminate].
  unfold Async.bind at 1.
  destruct (delay _ w1) as [[?|?] w2]; [|discriminate].
  unfold Async.bind at 1.
  destruct (page_query _ w2) as [[readMoreButton|?] w3]; [|discriminate].
  unfold Async.bind at 1.
  match goal with
  | |- context [match ?m w3 with _ => _ end] =>
      destruct (m w3) as [[?|?] w4]; [|discriminate]
  end.
  unfold Async.bind at 1. unfold page_evaluate.
  destruct (document_of (env w4)) as [d|e] eqn:Hd; [|discriminate].
  unfold productDetails_script.
  cbn [ProductData.sku JS.truthy_value].
  match goal with
  | |- context [if negb ?c then _ else _] => destruct (negb c) eqn:Ht
  end; [|discriminate].
  unfold Async.bind, log, ret. cbn [fst snd].
  intros Hrun. inversion Hrun; subst; clear Hrun.
  apply negb_true_iff in Ht.
  split.
  - eexists; eexists.
    cbn [ProductData.sku ProductData.product_name].
    split; [reflexivity|]. split; [|reflexivity].
    intros Heq. rewrite Heq in Ht. discriminate.
  - unfold key_zip. cbn [ProductData.location_zip location_zip_or_default bind].
    apply f_equal. exact (shows_z (env w4) d Hd).
Qed.

Lemma extractProductDetails_of_location productUrl :
  hoare (fun _ : World E => True) (extractProductDetails syscoConfig productUrl)
        (fun p _ => of_location z p) (fun _ => True).
Proof.
  intros w _.
  destruct (extractProductDetails syscoConfig productUrl w) as [[p|e] w'] eqn:Hrun;
    [|exact I].
  unfold extractProductDetails in Hrun.
  apply retry_returns_from_operation in Hrun. destruct Hrun as [w0 [w1 Hop]].
  exact (extractProductDetails_attempt_of_location productUrl w0 p w1 Hop).
Qed.

Ltac skip :=
  eapply hoare_bind; [apply hoare_any | intros ?; cbv beta].

(** The loop over the links of a page returns such products only. *)
Lemma products_loop_of_location total productLinks : forall i categoryProducts,
  Forall (of_location z) categoryProducts ->
  hoare (fun _ : World E => True)
        (products_loop syscoConfig total productLinks i categoryProducts)
        (fun r _ => Forall (of_location z) r) (fun _ => True).
Proof.
  induction productLinks as [|link rest IH]; intros i acc Hacc; cbn [products_loop].
  - apply hoare_ret. auto.
  - destruct (length_Z acc <? Config.maxProductsPerCategory syscoConfig);
      [|apply hoare_ret; auto].
    eapply hoare_bind with (Q1 := fun r _ => Forall (of_location z) r).
    + eapply hoare_try_catch with (X1 := fun _ => True).
      * skip.
        eapply hoare_bind; [apply extractProductDetails_of_location|].
        intros pd; cbv beta. apply hoare_pure. intros Hpd.
        skip. skip. apply hoare_ret. intros w _. cbv beta.
        apply Forall_app. split; [exact Hacc|]. now constructor.
      * intros e. skip. skip. apply hoare_ret. auto.
    + intros r. apply hoare_pure. intros Hr. now apply IH.
Qed.

(** *** The invariants of the walk *)

Lemma settled_unchanged ps (w w' : World E) :
  unchanged w w' -> settled z ps w -> settled z ps w'.
Proof. unfold unchanged, settled. now intros ->. Qed.

Lemma walking_unchanged before acc (w w' : World E) :
  unchanged w w' -> walking z before acc w -> walking z before acc w'.
Proof. unfold unchanged, walking, settled. now intros ->. Qed.

Lemma all_stored_app ps qs d :
  all_stored (ps ++ qs) d <-> all_stored ps d /\ all_stored qs d.
Proof. unfold all_stored. apply Forall_app. Qed.

Lemma walking_settled before acc (w : World E) :
  walking z before acc w -> settled z before w.
Proof.
  intros [[Hloc Hst] _]. split; [exact Hloc|].
  now apply all_stored_app in Hst.
Qed.

Lemma walking_all before acc (w : World E) :
  walking z before acc w -> settled z (before ++ acc) w.
Proof. now intros [Hs _]. Qed.

Lemma settled_before before acc (w : World E) :
  settled z (before ++ acc) w -> settled z before w.
Proof.
  intros [Hloc Hst]. split; [exact Hloc|]. now apply all_stored_app in Hst.
Qed.

Lemma walking_start before (w : World E) :
  settled z before w -> walking z before [] w.
Proof.
  intros Hs. split; [now rewrite app_nil_r|].
  split; [constructor | apply holds_values_nil].
Qed.

(** Saving the products of a page. *)
Lemma batchUpsertProducts_walking before acc ps :
  Forall (of_location z) ps ->
  hoare (walking z before acc) (Gateway.batchUpsertProducts ps)
        (fun _ w' => walking z before (acc ++ ps) w') (fun _ : World E => False).
Proof.
  intros Hall w [[Hloc Hst] [Hacc Hval]]. unfold Gateway.batchUpsertProducts.
  pose proof (batch_of_location z (clock (env w)) ps before acc (db w)
                Hloc Hst Hval Hall) as Hb.
  destruct (SyscoModels.batchUpsertProducts (clock (env w)) ps JS.Null (db w))
    as [res d'].
  cbn [snd] in Hb. destruct Hb as [Hloc' [Hst' Hval']].
  split; [split; assumption|].
  split; [|exact Hval']. apply Forall_app. now split.
Qed.

Ltac stays :=
  first [ intros ? ?; apply walking_unchanged
        | intros ? ?; apply settled_unchanged ].

Ltac thrown :=
  first [ intros ? Hx; exact Hx
        | intros ? Hx; exact (walking_settled _ _ _ Hx)
        | intros ? Hx; exact (settled_before _ _ _ Hx)
        | intros ? Hx; exact (settled_before _ _ _ (walking_all _ _ _ Hx))
        | intros ? _; exact I ].

Ltac frame :=
  eapply hoare_bind;
  [ apply hoare_frame; [ stays | thrown | unchanged_op ]
  | intros ?; cbv beta ].

(** The products a page returns are in the table, with their values,
    when it returns. *)
Lemma scrapeProductsFromPage_walking before acc categoryName pageNumber :
  hoare (walking z before acc)
        (scrapeProductsFromPage syscoConfig categoryName pageNumber)
        (fun r w' => walking z before (acc ++ r) w')
        (walking (E:=E) z before acc).
Proof.
  unfold scrapeProductsFromPage.
  frame. frame.
  eapply hoare_bind; [apply hoare_frame; [stays | thrown | unchanged_op]|].
  intros links; cbv beta.
  frame.
  destruct links as [|l ls].
  { frame. apply hoare_ret. intros w Hw. now rewrite app_nil_r. }
  eapply hoare_bind with
    (Q1 := fun r w' => walking z before acc w' /\ Forall (of_location z) r).
  { eapply hoare_weaken with
      (Q := fun r w' => walking z before acc w' /\ Forall (of_location z) r)
      (X := fun w' => walking z before acc w' /\ True);
      [intros ? Hw; exact Hw | intros ? ? Ha; exact Ha | intros ? [Hx _]; exact Hx|].
    apply hoare_conj.
    - apply hoare_unchanged; [stays | unchanged_op].
    - eapply hoare_weaken;
        [ | | | apply (products_loop_of_location (length_Z (l :: ls)) (l :: ls) 0 [])];
        cbv beta; auto. }
  intros r. apply hoare_assume. intros Hr.
  frame.
  eapply hoare_bind with (Q1 := fun _ w' => walking z before (acc ++ r) w').
  { destruct r as [|p ps].
    - apply hoare_ret. intros w Hw. now rewrite app_nil_r.
    - frame.
      eapply hoare_try_catch with (X1 := fun _ => False).
      + eapply hoare_bind; [now apply batchUpsertProducts_walking|].
        intros ?; cbv beta. apply hoare_log. stays.
      + intros e w []. }
  intros ?; cbv beta.
  apply hoare_ret. auto.
Qed.

(** The loop over the pages. *)
Lemma pages_loop_walking before c : forall fuel p u acc,
  hoare (walking z before acc) (pages_loop syscoConfig fuel c p u acc)
        (fun r w' => walking z before (fst r) w')
        (settled (E:=E) z before).
Proof.
  induction fuel as [|fuel IH]; intros p u acc; cbn [pages_loop].
  - apply hoare_ret. auto.
  - destruct ((p <=? Config.maxPagesPerCategory syscoConfig)
              && (length_Z acc <? Config.maxProductsPerCategory syscoConfig));
      [|apply hoare_ret; auto].
    frame.
    eapply hoare_bind with (Q1 := fun pp w' => walking z before (acc ++ pp) w').
    { eapply hoare_weaken;
        [ | | |apply (scrapeProductsFromPage_walking before acc c p)];
        cbv beta;
        [ intros ? Hw; exact Hw | intros ? ? Ha; exact Ha
        | intros ? Hx; exact (walking_settled _ _ _ Hx) ]. }
    intros pp; cbv beta zeta.
    destruct (Config.maxPagesPerCategory syscoConfig <=? p).
    + frame. apply hoare_ret. auto.
    + eapply hoare_bind; [apply hoare_frame; [stays | thrown | unchanged_op]|].
      intros b; cbv beta.
      destruct (negb b).
      * frame. apply hoare_ret. auto.
      * eapply hoare_bind; [apply hoare_frame; [stays | thrown | unchanged_op]|].
        intros u'; cbv beta. apply IH.
Qed.

(** The products a category walk returns are in the table, with their
    values, when it returns; when it throws, the products collected
    before are still there. *)
Lemma scrapeCategory_walking before c :
  hoare (settled z before) (scrapeCategory syscoConfig c)
        (fun ps w' => walking z before ps w')
        (settled (E:=E) z before).
Proof.
  unfold scrapeCategory.
  frame. frame.
  destruct (Config.lookup c (Config.categorySelectors syscoConfig)) as [selector|].
  2:{ frame. apply hoare_ret. intros w. apply walking_start. }
  destruct (negb (JS.truthy selector)).
  { frame. apply hoare_ret. intros w. apply walking_start. }
  frame.
  eapply hoare_bind; [apply hoare_frame; [stays | thrown | unchanged_op]|].
  intros clicked; cbv beta.
  destruct (negb clicked).
  { frame. apply hoare_ret. intros w. apply walking_start. }
  frame. frame. frame.
  eapply hoare_bind; [apply hoare_frame; [stays | thrown | unchanged_op]|].
  intros currentUrl; cbv beta.
  frame.
  eapply hoare_bind with (Q1 := fun r w' => walking z before (fst r) w').
  { eapply hoare_weaken;
      [ | | |apply (pages_loop_walking before c
                      (Z.to_nat (Config.maxPagesPerCategory syscoConfig))
                      1 currentUrl [])];
      cbv beta;
      [ intros ?; apply walking_start | intros ? ? Ha; exact Ha
      | intros ? Hx; exact Hx ]. }
  intros [all currentPage]; cbv beta iota. cbn [fst].
  frame. frame.
  apply hoare_ret. auto.
Qed.

(** Handling a category keeps the products collected so far in the
    table and adds only products that are in the table. *)
Lemma category_step_settled category all :
  hoare (settled z all) (category_step syscoConfig category all)
        (fun r w' => settled z r w') (fun _ : World E => True).
Proof.
  unfold category_step.
  eapply hoare_try_catch with (X1 := settled z all).
  - eapply hoare_bind with (Q1 := fun ps w' => walking z all ps w');
      [apply scrapeCategory_walking|].
    intros ps; cbv beta zeta.
    eapply hoare_weaken with (P := settled z (all ++ ps))
                             (Q := fun r w' => settled z r w')
                             (X := settled z all);
      [intros w; apply walking_all | auto | auto |].
    frame. frame. frame. frame. frame.
    apply hoare_ret. auto.
  - intros e. frame. apply hoare_ret. auto.
Qed.

Lemma categories_loop_settled categories : forall all,
  hoare (settled z all) (categories_loop syscoConfig categories all)
        (fun r w' => settled z r w') (fun _ : World E => True).
Proof.
  induction categories as [|c rest IH]; intros all; cbn [categories_loop].
  - apply hoare_ret. auto.
  - eapply hoare_bind; [apply category_step_settled|].
    intros all'. apply IH.
Qed.

End Persistence.

(* ================================================================== *)
(** * The claims on pagination *)
(* ================================================================== *)

Section PaginationClaims.
Import Async Puppeteer Run Scraper Laws.
Context {E : Type} `{Driver E}.
Variable syscoConfig : Config.t.

Lemma bind_ext {A B} (m : M (World E) A) (k1 k2 : A -> M (World E) B) w :
  (forall a w1, k1 a w1 = k2 a w1) -> Async.bind m k1 w = Async.bind m k2 w.
Proof. intros Hk. unfold Async.bind. destruct (m w) as [[a|e] w1]; auto. Qed.

(** The loop does not depend on the fuel once there is enough of it:
    [scrapeCategory] is a total function of its arguments. *)
Lemma pages_loop_enough_fuel c : forall fuel p u all (w : World E),
  (Z.to_nat (Config.maxPagesPerCategory syscoConfig + 1 - p) <= fuel)%nat ->
  pages_loop syscoConfig fuel c p u all w
  = pages_loop syscoConfig
      (Z.to_nat (Config.maxPagesPerCategory syscoConfig + 1 - p)) c p u all w.
Proof.
  induction fuel as [|fuel IH]; intros p u all w Hfuel.
  - replace (Z.to_nat (Config.maxPagesPerCategory syscoConfig + 1 - p))
      with 0%nat by lia.
    reflexivity.
  - destruct (Z.leb_spec p (Config.maxPagesPerCategory syscoConfig)) as [Hle|Hgt].
    + replace (Z.to_nat (Config.maxPagesPerCategory syscoConfig + 1 - p))
        with (S (Z.to_nat (Config.maxPagesPerCategory syscoConfig + 1 - (p + 1))))
        by lia.
      cbn [pages_loop].
      destruct ((p <=? Config.maxPagesPerCategory syscoConfig)
                && (length_Z all <? Config.maxProductsPerCategory syscoConfig));
        [|reflexivity].
      apply bind_ext; intros _ w1.
      apply bind_ext; intros pp w2.
      destruct (Config.maxPagesPerCategory syscoConfig <=? p); [reflexivity|].
      apply bind_ext; intros b w3.
      destruct (negb b); [reflexivity|].
      apply bind_ext; intros u' w4.
      apply IH. lia.
    + replace (Z.to_nat (Config.maxPagesPerCategory syscoConfig + 1 - p))
        with 0%nat by lia.
      cbn [pages_loop].
      destruct (Z.leb_spec p (Config.maxPagesPerCategory syscoConfig)); [lia|].
      reflexivity.
Qed.


End PaginationClaims.


(* ================================================================== *)
(** * The claims on the traversal of the categories *)
(* ================================================================== *)

Section TraversalClaims.
Import Async Puppeteer Run Scraper Laws.
Context {E : Type} `{Driver E}.
Variable syscoConfig : Config.t.

Lemma insert_sorted_length r rs :
  List.length (Gateway.insert_sorted r rs) = S (List.length rs).
Proof.
  induction rs as [|r' rs IH]; simpl; [reflexivity|].
  destruct (Gateway.row_leb r r'); simpl; [reflexivity|now rewrite IH].
Qed.

Lemma select_all_ordered_length d :
  List.length (Gateway.select_all_ordered d) = List.length (SyscoModels.rows d).
Proof.
  unfold Gateway.select_all_ordered.
  induction (SyscoModels.rows d) as [|r rs IH]; simpl; [reflexivity|].
  now rewrite insert_sorted_length, IH.
Qed.

(** An export that resolves wrote one record for every stored row, under
    the required columns, and left the table and the log alone. *)
Lemma exportToCsv_writes_all_rows (w : World E) r w' :
  Gateway.exportToCsv None false w = (JS.Ok r, w') ->
  exists e1,
    env w' = writeFileSync (Gateway.filePath r)
               (Csv.mk Gateway.requiredColumns
                  (map (fun row => map (fun col => Gateway.column col row)
                                       Gateway.requiredColumns)
                       (Gateway.select_all_ordered (db w)))) e1
    /\ Gateway.totalProducts r = Z.of_nat (List.length (SyscoModels.rows (db w)))
    /\ db w' = db w /\ logged w' = logged w.
Proof.
  unfold Gateway.exportToCsv. cbv zeta.
  match goal with
  | |- context [if ?c then (JS.Ok tt, env w) else ?m] =>
      destruct (if c then (JS.Ok tt, env w) else m) as [[[]|err] e1]
  end; [|discriminate].
  pose proof (select_all_ordered_length (db w)) as Hlen.
  destruct (Gateway.select_all_ordered (db w)) as [|row rows] eqn:Erows;
    [discriminate|].
  intros Hrun. inversion Hrun; subst; clear Hrun. cbn [env db logged Gateway.filePath
    Gateway.totalProducts].
  exists e1. repeat split. simpl in Hlen. now rewrite <- Hlen.
Qed.

Let betweenCategories := Config.Delays.betweenCategories (Config.delays syscoConfig).

(** Handling one category, case by case on what its walk did. *)
Lemma category_step_run category all (w : World E) :
  category_step syscoConfig category all w =
  match scrapeCategory syscoConfig category w with
  | (JS.Throw e, w1) => (JS.Ok all, with_log w1 [scrape_error_entry category e])
  | (JS.Ok [], w1) =>
      (JS.Ok (all ++ [])%list,
       sleep betweenCategories (with_log w1 (progress_entries category all [])))
  | (JS.Ok (p :: ps), w1) =>
      let w2 := with_log w1 (progress_entries category all (p :: ps)
                             ++ [exporting_entry category (p :: ps)])%list in
      match Gateway.exportToCsv None false w2 with
      | (JS.Ok _, w3) =>
          (JS.Ok (all ++ p :: ps)%list,
           sleep betweenCategories (with_log w3 [export_done_entry]))
      | (JS.Throw e, w3) =>
          (JS.Ok (all ++ p :: ps)%list,
           sleep betweenCategories (with_log w3 [export_error_entry category e]))
      end
  end.
Proof.
  unfold category_step, try_catch, Async.bind at 1.
  destruct (scrapeCategory syscoConfig category w) as [[ps|e] w1].
  - unfold Async.bind, log, delay, ret, with_log, progress_entries.
    cbn [fst snd write_log sleep Runtime_World env db logged].
    destruct ps as [|p ps].
    + cbn [fst snd write_log sleep Runtime_World env db logged app].
      rewrite <- !app_assoc. reflexivity.
    + cbn [fst snd write_log sleep Runtime_World env db logged app].
      rewrite <- !app_assoc. cbn [app].
      unfold try_catch.
      destruct (Gateway.exportToCsv None false _) as [[r|e] w3]; reflexivity.
  - unfold Async.bind, log, ret, with_log.
    cbn [fst snd write_log Runtime_World env db logged]. reflexivity.
Qed.

Lemma exports_progress category all ps :
  Trace.exports (progress_entries category all ps) = 0%nat.
Proof. reflexivity. Qed.


(** *** One failing category *)

Lemma category_step_returns category all :
  returns (fun _ => True) (category_step syscoConfig category all).
Proof.
  intros w. rewrite category_step_run.
  destruct (scrapeCategory syscoConfig category w) as [[[|p ps]|e] w1].
  - eexists; eexists. split; [reflexivity|exact I].
  - cbv zeta. destruct (Gateway.exportToCsv None false _) as [[r|e] w3];
      eexists; eexists; (split; [reflexivity|exact I]).
  - eexists; eexists. split; [reflexivity|exact I].
Qed.

Lemma categories_loop_returns categories : forall all,
  returns (fun _ => True) (categories_loop syscoConfig categories all).
Proof.
  induction categories as [|c rest IH]; intros all; cbn [categories_loop].
  - now apply returns_ret.
  - eapply returns_bind; [apply category_step_returns|]. intros a _. apply IH.
Qed.

Lemma category_step_extends category all (w : World E) all' w' :
  category_step syscoConfig category all w = (JS.Ok all', w') ->
  exists rest, all' = (all ++ rest)%list.
Proof.
  rewrite category_step_run.
  destruct (scrapeCategory syscoConfig category w) as [[[|p ps]|e] w1].
  - intros Hrun. inversion Hrun. eauto.
  - cbv zeta. destruct (Gateway.exportToCsv None false _) as [[r|e] w3];
      intros Hrun; inversion Hrun; eauto.
  - intros Hrun. inversion Hrun. exists []. now rewrite app_nil_r.
Qed.

Lemma categories_loop_extends categories : forall all (w : World E) all' w',
  categories_loop syscoConfig categories all w = (JS.Ok all', w') ->
  exists rest, all' = (all ++ rest)%list.
Proof.
  induction categories as [|c rest IH]; intros all w all' w'; cbn [categories_loop].
  - intros Hrun. inversion Hrun. exists []. now rewrite app_nil_r.
  - unfold Async.bind.
    destruct (category_step syscoConfig c all w) as [[a|e] w1] eqn:Es; [|discriminate].
    intros Hrun. apply IH in Hrun. destruct Hrun as [r2 ->].
    apply category_step_extends in Es. destruct Es as [r1 ->].
    exists (r1 ++ r2)%list. now rewrite app_assoc.
Qed.

Lemma categories_loop_app pre post : forall all (w : World E),
  categories_loop syscoConfig (pre ++ post) all w
  = Async.bind (categories_loop syscoConfig pre all)
      (fun a => categories_loop syscoConfig post a) w.
Proof.
  induction pre as [|c pre IH]; intros all w; cbn [app categories_loop].
  - reflexivity.
  - unfold Async.bind.
    destruct (category_step syscoConfig c all w) as [[a|e] w1]; [|reflexivity].
    rewrite IH. reflexivity.
Qed.

End TraversalClaims.

(* ================================================================== *)
(** * More on the table: what an upsert reports, keeps and repeats *)
(* ================================================================== *)

Section StoreLaws.
Import SyscoModels Queries.

Lemma batchUpsertProducts_loop clock ps sid db :
  batchUpsertProducts clock ps sid db = batch_loop clock sid 0 ps (mkBatch 0 0) db.
Proof. now destruct ps. Qed.

Lemma upsert_row_count now p sid db :
  (List.length (rows db) <= List.length (rows (snd (upsertProduct now p sid db))))%nat
  /\ (List.length (rows (snd (upsertProduct now p sid db)))
      <= S (List.length (rows db)))%nat
  /\ (JS.resolved (fst (upsertProduct now p sid db)) = false ->
      snd (upsertProduct now p sid db) = db).
Proof.
  destruct (upsertProduct_cases now p sid db)
    as [[-> _]|[[-> _]|[[-> _]|[-> _]]]]; simpl;
    rewrite ?length_app, ?length_map; simpl;
    repeat split; try lia; try discriminate; reflexivity.
Qed.

(** X1.  What a resolved upsert reports.  [changes] is 1 whether the
    statement inserted or updated, and [isNew] is [false] only when the
    statement updated a stored row on a connection that has not inserted
    anything yet: once the connection has inserted a row, an update
    reports [isNew = true] as well. *)
Theorem upsert_isNew_flag now p sid db res db' :
  upsertProduct now p sid db = (JS.Ok res, db') ->
  0 <= seq db ->
  changes res = 1
  /\ (isNew res = false <->
      List.length (rows db') = List.length (rows db)
      /\ last_insert_rowid db <= 0).
Proof.
  intros Hrun Hseq.
  destruct (upsertProduct_cases now p sid db)
    as [[E _]|[[E _]|[[E _]|[E _]]]]; rewrite E in Hrun; inversion Hrun; subst;
    clear Hrun; simpl rows; simpl changes.
  - split; [reflexivity|]. unfold resolve_with. simpl isNew.
    replace (0 <? seq db + 1) with true by (symmetry; apply Z.ltb_lt; lia).
    rewrite length_app. simpl. split; [discriminate | intros [H _]; lia].
  - split; [reflexivity|]. unfold resolve_with. simpl isNew.
    rewrite length_map. split.
    + intros H. apply Z.ltb_ge in H. auto.
    + intros [_ H]. now apply Z.ltb_ge.
Qed.

Lemma upsert_isNew_flag_witness :
  let p := sample "7012345" "Gala apples" "Sysco" "97209" in
  let db := store_with_other_location in
  changes (resolve_with (last_insert_rowid db) 1) = 1
  /\ (isNew (resolve_with (last_insert_rowid db) 1) = false <->
      List.length (rows (snd (upsertProduct 200 p JS.Null db)))
      = List.length (rows db)
      /\ last_insert_rowid db <= 0).
Proof.
  apply (upsert_isNew_flag 200 (sample "7012345" "Gala apples" "Sysco" "97209")
           JS.Null store_with_other_location).
  - vm_compute. reflexivity.
  - vm_compute. discriminate.
Defined.

(** ** The invariant of the table *)

Lemma filter_length_mono {A} (f g : A -> bool) (l : list A) :
  (forall x, f x = true -> g x = true) ->
  (List.length (filter f l) <= List.length (filter g l))%nat.
Proof.
  intros Hfg. induction l as [|x l IH]; simpl; [lia|].
  destruct (f x) eqn:Ef.
  - rewrite (Hfg x Ef). simpl. lia.
  - destruct (g x); simpl; lia.
Qed.

Lemma sku_unique_one_row rs s :
  sku_unique rs = true ->
  (List.length (filter (conflicts_sku (Some s)) rs) <= 1)%nat.
Proof.
  induction rs as [|r rs IH]; simpl; intros Hu; [lia|].
  apply andb_prop in Hu. destruct Hu as [Hr Hu].
  apply negb_true_iff in Hr.
  destruct (conflicts_sku (Some s) r) eqn:C; [|now apply IH].
  simpl. unfold conflicts_sku in C. apply sql_conflict_true in C.
  destruct C as [s' [Es Es']]. inversion Es'; subst s'. rewrite Es in Hr.
  apply existsb_false_filter in Hr. fold (conflicts_sku (Some s)) in Hr.
  rewrite Hr. simpl. lia.
Qed.

Lemma batch_loop_well_formed clock sid ps : forall i acc db,
  well_formed db = true ->
  well_formed (snd (batch_loop clock sid i ps acc db)) = true.
Proof.
  induction ps as [|p ps IH]; intros i acc db Hwf; simpl; [exact Hwf|].
  pose proof (upsert_preserves_well_formed (clock i) p sid db Hwf) as H.
  destruct (upsertProduct (clock i) p sid db) as [[res|e] db']; simpl in H;
    now apply IH.
Qed.

(** X2.  The invariant the table keeps.  Whatever batch is upserted into
    a store in which no two rows share a sku and every row has a product
    name, the store is again such a store: it holds at most one row per
    sku, hence at most one per key [(sku, location_zip)].  The empty
    table is such a store. *)
Theorem table_invariant_kept clock ps sid db :
  well_formed db = true ->
  let db' := snd (batchUpsertProducts clock ps sid db) in
  well_formed db' = true
  /\ (forall sku, (List.length (rows_with_sku (Some sku) db') <= 1)%nat)
  /\ (forall sku zip,
        (List.length (rows_with_key (Some sku) (Some zip) db') <= 1)%nat)
  /\ well_formed empty_db = true.
Proof.
  intros Hwf db'.
  assert (Hwf' : well_formed db' = true).
  { unfold db'. rewrite batchUpsertProducts_loop. now apply batch_loop_well_formed. }
  assert (Hu : sku_unique (rows db') = true).
  { unfold well_formed in Hwf'. now apply andb_prop in Hwf'. }
  split; [exact Hwf'|]. split; [|split; [|reflexivity]].
  - intros sku. now apply sku_unique_one_row.
  - intros sku zip. unfold rows_with_key.
    eapply Nat.le_trans; [|apply (sku_unique_one_row _ sku Hu)].
    apply filter_length_mono. intros r. apply conflicts_key_sku.
Qed.

Lemma table_invariant_kept_witness :
  let db' := snd (batchUpsertProducts (fun i => 100 + Z.of_nat i) batch_of_five
                    JS.Null empty_db) in
  well_formed db' = true
  /\ (forall sku, (List.length (rows_with_sku (Some sku) db') <= 1)%nat)
  /\ (forall sku zip,
        (List.length (rows_with_key (Some sku) (Some zip) db') <= 1)%nat)
  /\ well_formed empty_db = true.
Proof.
  apply (table_invariant_kept (fun i => 100 + Z.of_nat i) batch_of_five JS.Null
           empty_db).
  reflexivity.
Defined.

(** ** What a batch never does *)

Lemma batch_loop_keeps_keys clock sid ps : forall i acc db r,
  In r (rows db) ->
  exists r', In r' (rows (snd (batch_loop clock sid i ps acc db)))
             /\ Row.id r' = Row.id r
             /\ Row.sku r' = Row.sku r
             /\ Row.location_zip r' = Row.location_zip r
             /\ Row.scraped_date r' = Row.scraped_date r.
Proof.
  induction ps as [|p ps IH]; intros i acc db r Hr; simpl.
  - exists r. auto.
  - destruct (upsert_keeps_keys (clock i) p sid db r Hr)
      as [r1 [Hr1 [Es [Ez [Ed Ei]]]]].
    destruct (upsertProduct (clock i) p sid db) as [[res|e] db1]; simpl in Hr1.
    + destruct (IH (S i) (mkBatch (saved acc + 1) (errors acc)) db1 r1 Hr1)
        as [r' [Hr' [Ei' [Es' [Ez' Ed']]]]].
      exists r'. repeat split; try exact Hr'; congruence.
    + destruct (IH (S i) (mkBatch (saved acc) (errors acc + 1)) db1 r1 Hr1)
        as [r' [Hr' [Ei' [Es' [Ez' Ed']]]]].
      exists r'. repeat split; try exact Hr'; congruence.
Qed.

Lemma batch_loop_row_count clock sid ps : forall i acc db,
  (List.length (rows db)
   <= List.length (rows (snd (batch_loop clock sid i ps acc db))))%nat
  /\ Z.of_nat (List.length (rows (snd (batch_loop clock sid i ps acc db))))
     <= Z.of_nat (List.length (rows db))
        + (saved (fst (batch_loop clock sid i ps acc db)) - saved acc).
Proof.
  induction ps as [|p ps IH]; intros i acc db; simpl; [split; lia|].
  pose proof (upsert_row_count (clock i) p sid db) as [Hlo [Hhi Hsame]].
  destruct (upsertProduct (clock i) p sid db) as [[res|e] db1]; simpl in *.
  - destruct (IH (S i) (mkBatch (saved acc + 1) (errors acc)) db1) as [H1 H2].
    simpl in H2. split; lia.
  - rewrite (Hsame eq_refl).
    destruct (IH (S i) (mkBatch (saved acc) (errors acc + 1)) db) as [H1 H2].
    simpl in H2. split; lia.
Qed.

(** X3.  What upserting never does to the rows already stored.  After
    [batchUpsertProducts], every row that was in the table is still
    there with the [id], [sku], [location_zip] and [scraped_date] it
    had: no row is deleted, no key is rewritten, and the date of the
    first scrape survives every later scrape.  The table has at least
    as many rows as before and at most [saved] more. *)
Theorem batch_keeps_stored_rows clock ps sid db r :
  In r (rows db) ->
  let res := fst (batchUpsertProducts clock ps sid db) in
  let db' := snd (batchUpsertProducts clock ps sid db) in
  (exists r', In r' (rows db')
              /\ Row.id r' = Row.id r
              /\ Row.sku r' = Row.sku r
              /\ Row.location_zip r' = Row.location_zip r
              /\ Row.scraped_date r' = Row.scraped_date r)
  /\ (List.length (rows db) <= List.length (rows db'))%nat
  /\ Z.of_nat (List.length (rows db'))
     <= Z.of_nat (List.length (rows db)) + saved res.
Proof.
  intros Hr res db'. unfold res, db'. rewrite batchUpsertProducts_loop.
  split; [now apply batch_loop_keeps_keys|].
  destruct (batch_loop_row_count clock sid ps 0 (mkBatch 0 0) db) as [H1 H2].
  simpl in H2. split; [exact H1 | lia].
Qed.

Lemma batch_keeps_stored_rows_witness :
  let clock := fun i => 200 + Z.of_nat i in
  let db := store_with_other_location in
  let ps := [ sample "7012345" "Gala apples, case of 40" "Sysco Natural" "97209";
              sample "7012346" "Pears" "Sysco" "97209" ] in
  let res := fst (batchUpsertProducts clock ps JS.Null db) in
  let db' := snd (batchUpsertProducts clock ps JS.Null db) in
  (exists r', In r' (rows db')
              /\ Row.id r' = 1
              /\ Row.sku r' = Some "7012345"
              /\ Row.location_zip r' = Some "97209"
              /\ Row.scraped_date r' = 100)
  /\ (List.length (rows db) <= List.length (rows db'))%nat
  /\ Z.of_nat (List.length (rows db'))
     <= Z.of_nat (List.length (rows db)) + saved res.
Proof.
  apply (batch_keeps_stored_rows (fun i => 200 + Z.of_nat i)
           [ sample "7012345" "Gala apples, case of 40" "Sysco Natural" "97209";
             sample "7012346" "Pears" "Sysco" "97209" ]
           JS.Null store_with_other_location
           (excluded_row 100 1 (sample "7012345" "Gala apples" "Sysco" "97209")
              JS.Null)).
  vm_compute. left. reflexivity.
Defined.

(** ** Repeating an upsert *)

Lemma conflicts_key_do_update sku zip now e r :
  conflicts_key sku zip (do_update now e r) = conflicts_key sku zip r.
Proof. reflexivity. Qed.

Lemma map_ext_guard {A} (f : A -> bool) (g h : A -> A) (l : list A) :
  (forall x, In x l -> f x = true -> g x = h x) ->
  map (fun r => if f r then g r else r) l = map (fun r => if f r then h r else r) l.
Proof.
  intros Hgh. apply map_ext_in. intros x Hx.
  destruct (f x) eqn:Ef; [now apply Hgh | reflexivity].
Qed.

(** X4.  Repeating an upsert.  When an upsert of an object whose [sku]
    and [location_zip] are both texts has resolved, upserting the same
    object again (same session) resolves as well and adds no row: in the
    rows stored under the object's key it changes [updated_date], which
    becomes the time of the second call, and nothing else, and every
    other row is left as it is.  The statement still draws an id, so the
    AUTOINCREMENT counter advances by one; [last_insert_rowid] is
    unchanged. *)
Theorem upsert_again_only_touches_updated_date now1 now2 p sid db res db1 s z :
  upsertProduct now1 p sid db = (JS.Ok res, db1) ->
  key_sku p = Some s -> key_zip p = Some z ->
  exists res2,
    upsertProduct now2 p sid db1 =
      (JS.Ok res2,
       mkDb (map (fun r => if conflicts_key (Some s) (Some z) r
                           then touch now2 r else r) (rows db1))
            (seq db1 + 1) (last_insert_rowid db1))
    /\ rows_with_key (Some s) (Some z) db1 <> [].
Proof.
  intros Hrun Hs Hz.
  assert (Hn : bind (ProductData.product_name p) <> None).
  { intros Hnone. unfold upsertProduct in Hrun.
    rewrite run_upsert_not_null in Hrun by exact Hnone. discriminate. }
  assert (Hstored : existsb (conflicts_key (Some s) (Some z)) (rows db1) = true).
  { destruct (upsertProduct_cases now1 p sid db)
      as [[E _]|[[E _]|[[E _]|[E Hk]]]]; rewrite E in Hrun; inversion Hrun; subst;
      clear Hrun; simpl rows.
    - rewrite existsb_app. simpl. unfold conflicts_key at 2.
      simpl Row.sku. simpl Row.location_zip.
      fold (key_sku p). fold (key_zip p). rewrite Hs, Hz, !sql_conflict_refl.
      simpl. now rewrite orb_true_r.
    - rewrite Hs, Hz in Hk. apply existsb_exists in Hk.
      destruct Hk as [r [Hr C]]. apply existsb_exists.
      exists (do_update now1 (excluded_row now1 (seq db + 1) p sid) r). split.
      + apply in_map_iff. exists r. rewrite Hs, Hz, C. auto.
      + now rewrite conflicts_key_do_update. }
  eexists. split.
  - unfold upsertProduct. rewrite run_upsert_update; [|exact Hn|now rewrite Hs, Hz].
    rewrite Hs, Hz. f_equal. f_equal. apply map_ext_guard. intros r Hr C.
    destruct (upsertProduct_cases now1 p sid db)
      as [[E _]|[[E _]|[[E Hfresh]|[E Hk]]]]; rewrite E in Hrun; inversion Hrun;
      subst; clear Hrun; simpl rows in Hr.
    + apply in_app_or in Hr. destruct Hr as [Hr|[<-|[]]]; [|reflexivity].
      apply conflicts_key_sku in C. rewrite <- Hs in C.
      rewrite (proj1 (existsb_false_forall _ _) Hfresh r Hr) in C. discriminate.
    + apply in_map_iff in Hr. destruct Hr as [r0 [<- Hr0]].
      rewrite Hs, Hz in C |- *.
      destruct (conflicts_key (Some s) (Some z) r0) eqn:C0; [reflexivity|].
      rewrite C0 in C. discriminate.
  - unfold rows_with_key. intros Hnil.
    apply existsb_false_filter in Hnil. rewrite Hnil in Hstored. discriminate.
Qed.

Lemma upsert_again_only_touches_updated_date_witness :
  let p := sample "7012345" "Gala apples" "Sysco" "97209" in
  let db1 := store_with_other_location in
  exists res2,
    upsertProduct 300 p JS.Null db1 =
      (JS.Ok res2,
       mkDb (map (fun r => if conflicts_key (Some "7012345") (Some "97209") r
                           then touch 300 r else r) (rows db1))
            (seq db1 + 1) (last_insert_rowid db1))
    /\ rows_with_key (Some "7012345") (Some "97209") db1 <> [].
Proof.
  apply (upsert_again_only_touches_updated_date 100 300
           (sample "7012345" "Gala apples" "Sysco" "97209") JS.Null empty_db
           (resolve_with 1 1) store_with_other_location "7012345" "97209");
    reflexivity.
Defined.

(** ** Objects without a key *)

Lemma batch_loop_keyless clock sid ps : forall i acc db,
  Forall (fun p => key_sku p = None
                   /\ bind (ProductData.product_name p) <> None) ps ->
  fst (batch_loop clock sid i ps acc db)
    = mkBatch (saved acc + Z.of_nat (List.length ps)) (errors acc)
  /\ List.length (rows (snd (batch_loop clock sid i ps acc db)))
     = (List.length (rows db) + List.length ps)%nat.
Proof.
  induction ps as [|p ps IH]; intros i acc db Hall; simpl.
  - destruct acc; simpl. split; [f_equal; lia | lia].
  - inversion Hall as [|? ? [Hs Hn] Hrest]; subst.
    unfold upsertProduct. rewrite run_upsert_insert; [|exact Hn|].
    + destruct (IH (S i) (mkBatch (saved acc + 1) (errors acc))
                  (mkDb (rows db ++ [excluded_row (clock i) (seq db + 1) p sid])
                        (seq db + 1) (seq db + 1)) Hrest) as [H1 H2].
      rewrite H1, H2. simpl. rewrite length_app. simpl.
      split; [f_equal; lia | lia].
    + rewrite Hs. apply existsb_false_forall. intros r _.
      unfold conflicts_sku. now destruct (Row.sku r).
Qed.

(** X5.  Objects without a sku are never matched.  An object whose [sku]
    is missing or [null] binds NULL, which conflicts with no row: when
    every object of a batch lacks its [sku] (and has a product name),
    every upsert resolves and each one appends a row, whatever the table
    holds, so that upserting the same batch again stores everything a
    second time. *)
Theorem keyless_objects_always_inserted clock ps sid db :
  Forall (fun p => key_sku p = None
                   /\ bind (ProductData.product_name p) <> None) ps ->
  let once := batchUpsertProducts clock ps sid db in
  let twice := batchUpsertProducts clock ps sid (snd once) in
  fst once = mkBatch (Z.of_nat (List.length ps)) 0
  /\ fst twice = mkBatch (Z.of_nat (List.length ps)) 0
  /\ List.length (rows (snd once)) = (List.length (rows db) + List.length ps)%nat
  /\ List.length (rows (snd twice))
     = (List.length (rows db) + 2 * List.length ps)%nat.
Proof.
  intros Hall once twice. unfold twice, once.
  rewrite !batchUpsertProducts_loop.
  destruct (batch_loop_keyless clock sid ps 0 (mkBatch 0 0) db Hall) as [H1 H2].
  destruct (batch_loop_keyless clock sid ps 0 (mkBatch 0 0)
              (snd (batch_loop clock sid 0 ps (mkBatch 0 0) db)) Hall) as [H3 H4].
  rewrite H1, H3, H4, H2. simpl. repeat split. lia.
Qed.

Lemma keyless_objects_always_inserted_witness :
  let clock := fun i => 100 + Z.of_nat i in
  let ps := [Fixtures.unkeyed "Carrots"; Fixtures.unkeyed "Carrots"] in
  let once := batchUpsertProducts clock ps JS.Null empty_db in
  let twice := batchUpsertProducts clock ps JS.Null (snd once) in
  fst once = mkBatch 2 0
  /\ fst twice = mkBatch 2 0
  /\ List.length (rows (snd once)) = 2%nat
  /\ List.length (rows (snd twice)) = 4%nat.
Proof.
  apply (keyless_objects_always_inserted (fun i => 100 + Z.of_nat i)
           [Fixtures.unkeyed "Carrots"; Fixtures.unkeyed "Carrots"] JS.Null
           empty_db).
  repeat constructor; discriminate.
Defined.

(** ** Batches compose *)

Lemma batch_loop_app clock sid ps qs : forall i acc db,
  batch_loop clock sid i (ps ++ qs) acc db
  = batch_loop clock sid (i + List.length ps) qs
      (fst (batch_loop clock sid i ps acc db))
      (snd (batch_loop clock sid i ps acc db)).
Proof.
  induction ps as [|p ps IH]; intros i acc db; simpl.
  - now rewrite Nat.add_0_r.
  - replace (i + S (List.length ps))%nat with (S i + List.length ps)%nat by lia.
    destruct (upsertProduct (clock i) p sid db) as [[res|e] db1]; apply IH.
Qed.

Lemma batch_loop_shift clock sid qs : forall k i acc db,
  batch_loop clock sid (i + k) qs acc db
  = batch_loop (fun j => clock (j + k)%nat) sid i qs acc db.
Proof.
  induction qs as [|q qs IH]; intros k i acc db; simpl; [reflexivity|].
  destruct (upsertProduct (clock (i + k)%nat) q sid db) as [[res|e] db1];
    rewrite <- IH; reflexivity.
Qed.

Lemma batch_loop_acc clock sid ps : forall i acc db,
  batch_loop clock sid i ps acc db
  = (mkBatch (saved acc + saved (fst (batch_loop clock sid i ps (mkBatch 0 0) db)))
             (errors acc + errors (fst (batch_loop clock sid i ps (mkBatch 0 0) db))),
     snd (batch_loop clock sid i ps (mkBatch 0 0) db)).
Proof.
  induction ps as [|p ps IH]; intros i acc db; simpl.
  - destruct acc; simpl. repeat f_equal; lia.
  - destruct (upsertProduct (clock i) p sid db) as [[res|e] db1].
    + rewrite (IH (S i) (mkBatch (saved acc + 1) (errors acc)) db1).
      rewrite (IH (S i) (mkBatch 1 0) db1). cbn [fst snd saved errors].
      f_equal. f_equal; lia.
    + rewrite (IH (S i) (mkBatch (saved acc) (errors acc + 1)) db1).
      rewrite (IH (S i) (mkBatch 0 1) db1). cbn [fst snd saved errors].
      f_equal. f_equal; lia.
Qed.

(** X6.  Batches compose.  Upserting [ps ++ qs] in one call leaves the
    table that upserting [ps] and then [qs] in two calls leaves (the
    second call running at the times the first would have reached), and
    the counts of the single call are the sums of the counts of the two:
    saving page by page stores what saving a whole category at once
    would. *)
Theorem batch_of_concatenation clock ps qs sid db :
  let whole := batchUpsertProducts clock (ps ++ qs) sid db in
  let first := batchUpsertProducts clock ps sid db in
  let second :=
    batchUpsertProducts (fun j => clock (j + List.length ps)%nat) qs sid
      (snd first) in
  snd whole = snd second
  /\ saved (fst whole) = saved (fst first) + saved (fst second)
  /\ errors (fst whole) = errors (fst first) + errors (fst second).
Proof.
  intros whole first second. unfold whole, second, first.
  rewrite !batchUpsertProducts_loop, batch_loop_app.
  rewrite (batch_loop_shift clock sid qs (List.length ps) 0).
  rewrite batch_loop_acc. simpl. repeat split.
Qed.

End StoreLaws.

(* ================================================================== *)
(** * The read-only queries and the export *)
(* ================================================================== *)

Section QueryLaws.
Import SyscoModels Queries.

(** ** Sorting by insertion *)

Section Insertion.
Context {A : Type}.
Variable leb : A -> A -> bool.
Hypothesis leb_total : forall a b, leb a b = false -> leb b a = true.

Lemma insert_by_perm x l : Permutation (Sorting.insert_by leb x l) (x :: l).
Proof.
  induction l as [|y l IH]; simpl; [reflexivity|].
  destruct (leb x y); [reflexivity|].
  rewrite IH. apply perm_swap.
Qed.

Lemma insert_by_sorted x l :
  Sorted (fun a b => leb a b = true) l ->
  Sorted (fun a b => leb a b = true) (Sorting.insert_by leb x l).
Proof.
  induction l as [|y l IH]; simpl; intros Hs.
  - repeat constructor.
  - destruct (leb x y) eqn:Exy.
    + constructor; [exact Hs | now constructor].
    + inversion Hs as [|? ? Hs' Hhd]; subst. constructor; [now apply IH|].
      destruct l as [|z l]; simpl.
      * constructor. now apply leb_total.
      * destruct (leb x z).
        -- constructor. now apply leb_total.
        -- inversion Hhd; subst. now constructor.
Qed.

Lemma sort_by_perm l : Permutation (Sorting.sort_by leb l) l.
Proof.
  unfold Sorting.sort_by.
  induction l as [|x l IH]; simpl; [reflexivity|].
  rewrite insert_by_perm. now constructor.
Qed.

Lemma sort_by_sorted l :
  Sorted (fun a b => leb a b = true) (Sorting.sort_by leb l).
Proof.
  unfold Sorting.sort_by.
  induction l as [|x l IH]; simpl; [constructor|]. now apply insert_by_sorted.
Qed.
End Insertion.

Lemma insert_newest_first_by r rs :
  insert_newest_first r rs
  = Sorting.insert_by (fun a b => Row.updated_date b <=? Row.updated_date a) r rs.
Proof. induction rs as [|r' rs IH]; simpl; [reflexivity|]. now rewrite IH. Qed.

Lemma order_by_updated_desc_by rs :
  order_by_updated_desc rs
  = Sorting.sort_by (fun a b => Row.updated_date b <=? Row.updated_date a) rs.
Proof.
  unfold order_by_updated_desc, Sorting.sort_by. induction rs as [|r rs IH]; simpl; [reflexivity|].
  now rewrite insert_newest_first_by, IH.
Qed.

Lemma insert_largest_first_by g gs :
  insert_largest_first g gs = Sorting.insert_by (fun a b => snd b <=? snd a) g gs.
Proof. induction gs as [|g' gs IH]; simpl; [reflexivity|]. now rewrite IH. Qed.

Lemma order_by_count_desc_by gs :
  order_by_count_desc gs
  = Sorting.sort_by (fun a b : sql * Z => snd b <=? snd a) gs.
Proof.
  unfold order_by_count_desc, Sorting.sort_by. induction gs as [|g gs IH]; simpl; [reflexivity|].
  now rewrite insert_largest_first_by, IH.
Qed.

Lemma insert_sorted_by r rs :
  Gateway.insert_sorted r rs = Sorting.insert_by Gateway.row_leb r rs.
Proof. induction rs as [|r' rs IH]; simpl; [reflexivity|]. now rewrite IH. Qed.

Lemma select_all_ordered_by d :
  Gateway.select_all_ordered d
  = Sorting.sort_by Gateway.row_leb (rows d).
Proof.
  unfold Gateway.select_all_ordered, Sorting.sort_by.
  induction (rows d) as [|r rs IH]; simpl; [reflexivity|].
  now rewrite insert_sorted_by, IH.
Qed.

Lemma order_by_updated_desc_perm rs : Permutation (order_by_updated_desc rs) rs.
Proof. rewrite order_by_updated_desc_by. apply sort_by_perm. Qed.

Lemma order_by_updated_desc_sorted rs :
  StronglySorted (fun a b => Row.updated_date b <= Row.updated_date a)
    (order_by_updated_desc rs).
Proof.
  apply Sorted_StronglySorted.
  - intros a b c Hab Hbc. lia.
  - rewrite order_by_updated_desc_by.
    eapply Sorted_ind with
      (P := fun l => Sorted (fun a b => Row.updated_date b <= Row.updated_date a) l);
      [constructor| |apply sort_by_sorted].
    + intros a l _ IH Hhd. constructor; [exact IH|].
      destruct Hhd as [|b l Hab]; constructor. now apply Z.leb_le.
    + intros a b Hab. apply Z.leb_gt in Hab. apply Z.leb_le. lia.
Qed.

Lemma order_by_count_desc_perm gs : Permutation (order_by_count_desc gs) gs.
Proof. rewrite order_by_count_desc_by. apply sort_by_perm. Qed.

Lemma order_by_count_desc_sorted gs :
  StronglySorted (fun a b : sql * Z => snd b <= snd a) (order_by_count_desc gs).
Proof.
  apply Sorted_StronglySorted.
  - intros a b c Hab Hbc. lia.
  - rewrite order_by_count_desc_by.
    eapply Sorted_ind with
      (P := fun l => Sorted (fun a b : sql * Z => snd b <= snd a) l);
      [constructor| |apply sort_by_sorted].
    + intros a l _ IH Hhd. constructor; [exact IH|].
      destruct Hhd as [|b l Hab]; constructor. now apply Z.leb_le.
    + intros a b Hab. apply Z.leb_gt in Hab. apply Z.leb_le. lia.
Qed.

(** ** Products of a category *)

(** X7.  [getProductsByCategory].  Without a limit the call returns
    exactly the stored rows whose category equals the argument, each
    once, most recently updated first.  A limit of [0] is no limit (it
    is falsy, so no [LIMIT] clause is sent), and neither is a negative
    one; a positive limit [n] keeps the first [n] rows of the unlimited
    answer, that is [min n] (number of matching rows) rows.  A category
    of [null] matches nothing, rows without a category included. *)
Theorem getProductsByCategory_answer category d :
  let all := getProductsByCategory category None d in
  Permutation all (filter (category_is (bind category)) (rows d))
  /\ StronglySorted (fun a b => Row.updated_date b <= Row.updated_date a) all
  /\ (forall r, In r all <->
                In r (rows d)
                /\ exists c, category = JS.Str c /\ Row.category r = Some c)
  /\ (forall n, n <= 0 -> getProductsByCategory category (Some n) d = all)
  /\ (forall n, 0 < n ->
        getProductsByCategory category (Some n) d = firstn (Z.to_nat n) all
        /\ Z.of_nat (List.length (getProductsByCategory category (Some n) d))
           = Z.min n (Z.of_nat (List.length all)))
  /\ (category = JS.Null \/ category = JS.Undefined -> all = []).
Proof.
  intros all.
  assert (Hperm : Permutation all (filter (category_is (bind category)) (rows d))).
  { apply order_by_updated_desc_perm. }
  split; [exact Hperm|]. split; [apply order_by_updated_desc_sorted|].
  split; [|split; [|split]].
  - intros r. split.
    + intros Hr. apply (Permutation_in _ Hperm) in Hr.
      apply filter_In in Hr. destruct Hr as [Hr C]. split; [exact Hr|].
      unfold category_is in C. apply sql_conflict_true in C.
      destruct C as [c [Ec Eb]]. exists c. split; [|exact Ec].
      destruct category; simpl in Eb; congruence.
    + intros [Hr [c [-> Ec]]]. apply (Permutation_in _ (Permutation_sym Hperm)).
      apply filter_In. split; [exact Hr|].
      unfold category_is. rewrite Ec. apply sql_conflict_refl.
  - intros n Hn. unfold getProductsByCategory. fold all.
    destruct (n =? 0) eqn:E0; [reflexivity|].
    replace (n <? 0) with true; [reflexivity|].
    symmetry. apply Z.ltb_lt. apply Z.eqb_neq in E0. lia.
  - intros n Hn.
    assert (E : getProductsByCategory category (Some n) d
                = firstn (Z.to_nat n) all).
    { unfold getProductsByCategory. fold all.
      replace (n =? 0) with false by (symmetry; apply Z.eqb_neq; lia).
      replace (n <? 0) with false by (symmetry; apply Z.ltb_ge; lia).
      reflexivity. }
    split; [exact E|]. rewrite E, length_firstn. lia.
  - intros Hc.
    assert (Hnone : filter (category_is (bind category)) (rows d) = []).
    { apply existsb_false_filter, existsb_false_forall. intros r _.
      unfold category_is.
      destruct Hc as [-> | ->]; simpl; now destruct (Row.category r). }
    rewrite Hnone in Hperm. now apply Permutation_sym, Permutation_nil in Hperm.
Qed.

(** ** Counting by group *)

Lemma distinct_In seen vs v :
  In v (Gateway.distinct seen vs) <-> In v vs /\ ~ In v seen.
Proof.
  revert seen. induction vs as [|x vs IH]; intros seen; simpl; [tauto|].
  destruct (existsb (sql_eqb x) seen) eqn:Ex.
  - apply existsb_exists in Ex. destruct Ex as [y [Hy Exy]].
    apply sql_eqb_eq in Exy. subst y. rewrite IH. split.
    + intros [Hv Hn]. auto.
    + intros [[->|Hv] Hn]; [contradiction | auto].
  - assert (Hx : ~ In x seen).
    { intros Hin. apply (proj1 (existsb_false_forall _ _) Ex) in Hin.
      rewrite (proj2 (sql_eqb_eq x x) eq_refl) in Hin. discriminate. }
    simpl. rewrite IH. simpl. split.
    + intros [->|[Hv Hn]]; [auto|]. split; [auto|]. intros Hs. apply Hn. auto.
    + intros [[->|Hv] Hn]; [auto|].
      destruct (sql_eqb x v) eqn:Exv.
      * apply sql_eqb_eq in Exv. auto.
      * right. split; [exact Hv|]. intros [->|Hs]; [|contradiction].
        rewrite (proj2 (sql_eqb_eq v v) eq_refl) in Exv. discriminate.
Qed.

Lemma distinct_NoDup seen vs : NoDup (Gateway.distinct seen vs).
Proof.
  revert seen. induction vs as [|x vs IH]; intros seen; simpl; [constructor|].
  destruct (existsb (sql_eqb x) seen); [apply IH|].
  constructor; [|apply IH].
  intros Hin. apply distinct_In in Hin. destruct Hin as [_ Hn]. apply Hn. now left.
Qed.

Lemma sum_indicator (x : sql) (D : list sql) :
  NoDup D -> In x D ->
  fold_right (fun v acc => (if sql_eqb v x then 1 else 0) + acc) 0 D = 1.
Proof.
  induction D as [|y D IH]; simpl; intros Hnd Hin; [contradiction|].
  inversion Hnd as [|? ? Hy Hnd']; subst.
  destruct (sql_eqb y x) eqn:E.
  - apply sql_eqb_eq in E. subst y.
    assert (H0 : fold_right (fun v acc => (if sql_eqb v x then 1 else 0) + acc) 0 D
                 = 0).
    { clear IH Hnd Hnd' Hin. induction D as [|z D IH]; simpl; [reflexivity|].
      destruct (sql_eqb z x) eqn:Ez.
      - apply sql_eqb_eq in Ez. subst z. exfalso. apply Hy. now left.
      - rewrite IH; [reflexivity|]. intros Hin. apply Hy. now right. }
    rewrite H0. reflexivity.
  - destruct Hin as [->|Hin].
    + rewrite (proj2 (sql_eqb_eq x x) eq_refl) in E. discriminate.
    + rewrite IH by assumption. reflexivity.
Qed.

Lemma sum_count_of (D vs : list sql) :
  NoDup D -> incl vs D ->
  fold_right (fun v acc => count_of v vs + acc) 0 D = Z.of_nat (List.length vs).
Proof.
  intros Hnd. induction vs as [|x vs IH]; intros Hincl.
  - clear Hnd Hincl. induction D as [|y D IH]; [reflexivity|].
    cbn [fold_right]. rewrite IH. reflexivity.
  - assert (Hx : In x D) by (apply Hincl; now left).
    assert (Hvs : incl vs D) by (intros y Hy; apply Hincl; now right).
    specialize (IH Hvs).
    assert (Hsplit : forall D',
      fold_right (fun v acc => count_of v (x :: vs) + acc) 0 D'
      = fold_right (fun v acc => (if sql_eqb v x then 1 else 0) + acc) 0 D'
        + fold_right (fun v acc => count_of v vs + acc) 0 D').
    { induction D' as [|y D' IH']; simpl; [reflexivity|].
      rewrite IH'. unfold count_of. simpl.
      destruct (sql_eqb y x); simpl List.length; lia. }
    rewrite Hsplit, IH, sum_indicator by assumption.
    simpl List.length. lia.
Qed.

Lemma sum_counts_group_by col d :
  sum_counts (group_by col d) = Z.of_nat (List.length (rows d)).
Proof.
  unfold sum_counts, group_by.
  set (vs := map col (rows d)).
  rewrite <- (length_map col (rows d)). fold vs.
  pose proof (sort_by_perm key_leb (Gateway.distinct [] vs)) as Hperm.
  rewrite <- (sum_count_of (Sorting.sort_by key_leb (Gateway.distinct [] vs)) vs).
  - generalize (Sorting.sort_by key_leb (Gateway.distinct [] vs)).
    intros D. induction D as [|v D IH]; simpl; [reflexivity|].
    now rewrite IH.
  - apply (Permutation_NoDup (Permutation_sym Hperm)), distinct_NoDup.
  - intros v Hv. apply (Permutation_in _ (Permutation_sym Hperm)).
    apply distinct_In. split; [exact Hv | intros []].
Qed.

Lemma sum_counts_perm gs gs' :
  Permutation gs gs' -> sum_counts gs = sum_counts gs'.
Proof.
  unfold sum_counts. induction 1; simpl; lia.
Qed.

Lemma group_by_fst col d :
  map fst (group_by col d)
  = Sorting.sort_by key_leb (Gateway.distinct [] (map col (rows d))).
Proof.
  unfold group_by. rewrite map_map. simpl. apply map_id.
Qed.

Lemma group_by_NoDup col d : NoDup (map fst (group_by col d)).
Proof.
  rewrite group_by_fst.
  apply (Permutation_NoDup (Permutation_sym (sort_by_perm key_leb _))).
  apply distinct_NoDup.
Qed.

Lemma group_by_length col d :
  List.length (group_by col d)
  = List.length (Gateway.distinct [] (map col (rows d))).
Proof.
  unfold group_by. rewrite length_map.
  apply Permutation_length, sort_by_perm.
Qed.

Lemma group_by_In col d v n :
  In (v, n) (group_by col d) <->
  n = count_of v (map col (rows d)) /\ In v (map col (rows d)).
Proof.
  pose proof (sort_by_perm key_leb (Gateway.distinct [] (map col (rows d))))
    as Hperm.
  unfold group_by. rewrite in_map_iff. split.
  - intros [v' [E Hv']]. inversion E; subst. split; [reflexivity|].
    apply (Permutation_in _ Hperm) in Hv'. now apply distinct_In in Hv'.
  - intros [-> Hv]. exists v. split; [reflexivity|].
    apply (Permutation_in _ (Permutation_sym Hperm)).
    apply distinct_In. split; [exact Hv | intros []].
Qed.

Lemma count_of_pos v vs : In v vs -> 0 < count_of v vs.
Proof.
  intros Hv. unfold count_of.
  assert (Hin : In v (filter (sql_eqb v) vs)).
  { apply filter_In. split; [exact Hv | now apply sql_eqb_eq]. }
  destruct (filter (sql_eqb v) vs); [contradiction | simpl; lia].
Qed.

Lemma sum_counts_firstn_le gs n :
  Forall (fun g : sql * Z => 0 <= snd g) gs ->
  sum_counts (firstn n gs) <= sum_counts gs
  /\ 0 <= sum_counts (firstn n gs).
Proof.
  intros Hall. revert n. induction Hall as [|g gs Hg Hall IH]; intros n.
  - destruct n; simpl; lia.
  - destruct n as [|n]; simpl.
    + specialize (IH 0%nat). simpl in IH. lia.
    + specialize (IH n). lia.
Qed.

Lemma In_firstn {A} (x : A) n l : In x (firstn n l) -> In x l.
Proof.
  revert n. induction l as [|y l IH]; intros n; destruct n; simpl; try tauto.
  intros [->|Hx]; [now left | right; eauto].
Qed.

Lemma count_rows_bounds f d :
  0 <= count_rows f d <= Z.of_nat (List.length (rows d)).
Proof.
  unfold count_rows. pose proof (filter_length_le f (rows d)). lia.
Qed.

(** X8.  [getProductCountByCategory] against [getTotalProductCount].
    The grouped answer names every category that occurs in the table
    exactly once, the rows without a category forming one group of
    their own; each group carries the number of rows of its category,
    which is at least 1; the groups come largest first; and the counts
    add up to the total that [getTotalProductCount] reports. *)
Theorem category_counts_add_up d :
  let gs := getProductCountByCategory d in
  sum_counts gs = getTotalProductCount d
  /\ NoDup (map fst gs)
  /\ (forall v n, In (v, n) gs <->
                  n = count_of v (map Row.category (rows d))
                  /\ In v (map Row.category (rows d)))
  /\ Forall (fun g => 1 <= snd g) gs
  /\ StronglySorted (fun a b : sql * Z => snd b <= snd a) gs
  /\ (rows d = [] -> gs = []).
Proof.
  intros gs.
  assert (Hperm : Permutation gs (group_by Row.category d))
    by apply order_by_count_desc_perm.
  assert (HIn : forall v n, In (v, n) gs <->
                  n = count_of v (map Row.category (rows d))
                  /\ In v (map Row.category (rows d))).
  { intros v n. rewrite <- group_by_In. split; apply Permutation_in;
      [exact Hperm | now apply Permutation_sym]. }
  split; [|split; [|split; [|split; [|split]]]].
  - rewrite (sum_counts_perm _ _ Hperm). apply sum_counts_group_by.
  - apply (Permutation_NoDup (l := map fst (group_by Row.category d))).
    + apply Permutation_sym, Permutation_map, Hperm.
    + apply group_by_NoDup.
  - exact HIn.
  - apply Forall_forall. intros [v n] Hg. apply HIn in Hg.
    destruct Hg as [-> Hv]. simpl. pose proof (count_of_pos _ _ Hv). lia.
  - apply order_by_count_desc_sorted.
  - intros Hnil. unfold gs, getProductCountByCategory, group_by.
    rewrite Hnil. reflexivity.
Qed.

(** X9.  [getStatistics].  The totals are consistent with one another:
    [total] is the number of rows, the counts of [byCategory] add up to
    it, [byBrand] holds at most ten groups, the largest first, whose
    counts add up to at most [total], and neither [withImages] (rows
    whose picture url is a non-empty text) nor [recentlyScraped] (rows
    first scraped on the day of the call) exceeds [total].  On the empty
    table every number is 0 and both lists are empty. *)
Theorem statistics_consistent now d :
  let s := getStatistics now d in
  total s = getTotalProductCount d
  /\ byCategory s = getProductCountByCategory d
  /\ sum_counts (byCategory s) = total s
  /\ (List.length (byBrand s) <= 10)%nat
  /\ StronglySorted (fun a b : sql * Z => snd b <= snd a) (byBrand s)
  /\ 0 <= sum_counts (byBrand s) <= total s
  /\ 0 <= withImages s <= total s
  /\ 0 <= recentlyScraped s <= total s
  /\ (rows d = [] -> s = mkStatistics 0 [] [] 0 0).
Proof.
  intros s. unfold s, getStatistics.
  cbn [total byCategory byBrand withImages recentlyScraped].
  split; [reflexivity|]. split; [reflexivity|].
  split; [apply (category_counts_add_up d)|].
  split; [apply firstn_le_length|].
  assert (Hsorted : StronglySorted (fun a b : sql * Z => snd b <= snd a)
                      (order_by_count_desc (group_by Row.brand_name d)))
    by apply order_by_count_desc_sorted.
  split.
  { revert Hsorted. generalize (order_by_count_desc (group_by Row.brand_name d)).
    generalize 10%nat. intros n l Hs. revert n.
    induction Hs as [|a l Hs IH Hall]; intros n; destruct n; simpl;
      try constructor; [apply IH|].
    apply Forall_forall. intros x Hx. apply In_firstn in Hx.
    rewrite Forall_forall in Hall. now apply Hall. }
  split.
  { assert (Hnonneg : Forall (fun g : sql * Z => 0 <= snd g)
                        (order_by_count_desc (group_by Row.brand_name d))).
    { apply Forall_forall. intros [v n] Hg.
      apply (Permutation_in _ (order_by_count_desc_perm _)) in Hg.
      apply group_by_In in Hg. destruct Hg as [-> Hv]. simpl.
      pose proof (count_of_pos _ _ Hv). lia. }
    pose proof (sum_counts_firstn_le _ 10 Hnonneg) as [Hle H0].
    rewrite (sum_counts_perm _ _ (order_by_count_desc_perm _)) in Hle.
    rewrite sum_counts_group_by in Hle. lia. }
  split; [apply count_rows_bounds|]. split; [apply count_rows_bounds|].
  intros Hnil. unfold group_by, count_rows. rewrite Hnil. reflexivity.
Qed.

(** ** Writing a product and reading it back *)

Lemma upsert_written_rows now p sid db res db' :
  upsertProduct now p sid db = (JS.Ok res, db') ->
  (exists r, In r (rows db') /\ Row.updated_date r = now
             /\ Row.sku r = key_sku p /\ Row.location_zip r = key_zip p
             /\ assigned_columns r = bound_columns p sid)
  /\ (forall r, In r (rows db') ->
        In r (rows db)
        \/ (Row.updated_date r = now
            /\ Row.sku r = key_sku p /\ Row.location_zip r = key_zip p
            /\ assigned_columns r = bound_columns p sid)).
Proof.
  intros Hrun.
  destruct (upsertProduct_cases now p sid db)
    as [[E _]|[[E _]|[[E _]|[E Hk]]]]; rewrite E in Hrun; inversion Hrun; subst;
    clear Hrun; simpl rows.
  - split.
    + exists (excluded_row now (seq db + 1) p sid). repeat split.
      apply in_or_app. right. now left.
    + intros r Hr. apply in_app_or in Hr. destruct Hr as [Hr|[<-|[]]]; [now left|].
      right. repeat split.
  - assert (Hupd : forall r0, conflicts_key (key_sku p) (key_zip p) r0 = true ->
              let r := do_update now (excluded_row now (seq db + 1) p sid) r0 in
              Row.updated_date r = now
              /\ Row.sku r = key_sku p /\ Row.location_zip r = key_zip p
              /\ assigned_columns r = bound_columns p sid).
    { intros r0 C. unfold conflicts_key in C. apply andb_prop in C.
      destruct C as [Cs Cz]. apply sql_conflict_true in Cs, Cz.
      destruct Cs as [s [Es Es']], Cz as [z [Ez Ez']].
      cbv zeta. simpl Row.sku. simpl Row.location_zip.
      rewrite Es, Ez, Es', Ez'. repeat split. }
    split.
    + apply existsb_exists in Hk. destruct Hk as [r0 [Hr0 C]].
      exists (do_update now (excluded_row now (seq db + 1) p sid) r0).
      split; [|now apply Hupd].
      apply in_map_iff. exists r0. now rewrite C.
    + intros r Hr. apply in_map_iff in Hr. destruct Hr as [r0 [<- Hr0]].
      destruct (conflicts_key (key_sku p) (key_zip p) r0) eqn:C; [|now left].
      right. now apply Hupd.
Qed.

Lemma assigned_columns_category r p sid :
  assigned_columns r = bound_columns p sid ->
  Row.category r = bind (ProductData.category p).
Proof. intros Heq. unfold assigned_columns, bound_columns in Heq. now inversion Heq. Qed.

(** X20.  Writing a product and reading it back.  After a resolved upsert
    of an object whose category is a text, [getProductsByCategory] with
    that category returns a row that carries the object's key, the
    values the call bound and the time of the call as [updated_date];
    and when the call is later than every update the table has seen,
    asking for one row ([limit = 1]) returns exactly such a row: the
    product just written comes first. *)
Theorem upsert_then_lookup now p sid db res db' c :
  upsertProduct now p sid db = (JS.Ok res, db') ->
  ProductData.category p = JS.Str c ->
  let written r :=
    Row.sku r = key_sku p /\ Row.location_zip r = key_zip p
    /\ assigned_columns r = bound_columns p sid
    /\ Row.updated_date r = now in
  (exists r, In r (getProductsByCategory (JS.Str c) None db') /\ written r)
  /\ ((forall r0, In r0 (rows db) -> Row.updated_date r0 < now) ->
      exists r, getProductsByCategory (JS.Str c) (Some 1) db' = [r] /\ written r).
Proof.
  intros Hrun Hcat written.
  destruct (upsert_written_rows _ _ _ _ _ _ Hrun)
    as [[r [Hr [Hnow [Hs [Hz Hv]]]]] Hall].
  assert (Hperm : Permutation (getProductsByCategory (JS.Str c) None db')
                    (filter (category_is (Some c)) (rows db')))
    by apply order_by_updated_desc_perm.
  assert (Hin : In r (getProductsByCategory (JS.Str c) None db')).
  { apply (Permutation_in _ (Permutation_sym Hperm)). apply filter_In.
    split; [exact Hr|]. unfold category_is.
    rewrite (assigned_columns_category _ _ _ Hv), Hcat. apply sql_conflict_refl. }
  split; [exists r; unfold written; auto|].
  intros Hold.
  pose proof (order_by_updated_desc_sorted
                (filter (category_is (Some c)) (rows db'))) as Hsorted.
  change (order_by_updated_desc (filter (category_is (Some c)) (rows db')))
    with (getProductsByCategory (JS.Str c) None db') in Hsorted.
  change (getProductsByCategory (JS.Str c) (Some 1) db')
    with (firstn 1 (getProductsByCategory (JS.Str c) None db')).
  destruct (getProductsByCategory (JS.Str c) None db') as [|h t]; [contradiction|].
  exists h. split; [reflexivity|].
  assert (Hh : In h (rows db')).
  { assert (Hf : In h (filter (category_is (Some c)) (rows db')))
      by (apply (Permutation_in _ Hperm); now left).
    now apply filter_In in Hf. }
  assert (Hge : now <= Row.updated_date h).
  { destruct Hin as [->|Ht]; [lia|].
    inversion Hsorted as [|? ? _ Hhd]; subst. rewrite Forall_forall in Hhd.
    specialize (Hhd r Ht). lia. }
  destruct (Hall h Hh) as [Hold_h|[Hn [Hs' [Hz' Hv']]]].
  - specialize (Hold h Hold_h). lia.
  - unfold written. auto.
Qed.

End QueryLaws.

(* ================================================================== *)
(** * The CSV export *)
(* ================================================================== *)

Section ExportLaws.
Import Async Puppeteer Run SyscoModels Queries CsvExport.
Context {E : Type} `{Driver E}.

Lemma sql_compare_antisym a b :
  Gateway.sql_compare a b = CompOpp (Gateway.sql_compare b a).
Proof. destruct a, b; simpl; auto using String.compare_antisym. Qed.

Lemma row_leb_total a b :
  Gateway.row_leb a b = false -> Gateway.row_leb b a = true.
Proof.
  unfold Gateway.row_leb.
  rewrite (sql_compare_antisym (Row.category b)),
          (sql_compare_antisym (Row.brand_name b)),
          (sql_compare_antisym (Row.product_name b)).
  destruct (Gateway.sql_compare (Row.category a) (Row.category b)); simpl;
    try discriminate; try reflexivity.
  destruct (Gateway.sql_compare (Row.brand_name a) (Row.brand_name b)); simpl;
    try discriminate; try reflexivity.
  destruct (Gateway.sql_compare (Row.product_name a) (Row.product_name b)); simpl;
    try discriminate; reflexivity.
Qed.

Lemma select_all_ordered_perm d :
  Permutation (Gateway.select_all_ordered d) (rows d).
Proof. rewrite select_all_ordered_by. apply sort_by_perm. Qed.

Lemma select_all_ordered_sorted d :
  Sorted (fun a b => Gateway.row_leb a b = true) (Gateway.select_all_ordered d).
Proof.
  rewrite select_all_ordered_by. apply sort_by_sorted. exact row_leb_total.
Qed.

Lemma distinct_length_perm vs vs' :
  Permutation vs vs' ->
  List.length (Gateway.distinct [] vs) = List.length (Gateway.distinct [] vs').
Proof.
  intros Hp. apply Permutation_length, NoDup_Permutation; try apply distinct_NoDup.
  intros v. rewrite !distinct_In. split; intros [Hv Hn]; split; auto.
  - now apply (Permutation_in _ Hp).
  - now apply (Permutation_in _ (Permutation_sym Hp)).
Qed.


(** X11.  What a resolved export wrote.  When [exportToCsv] resolves it
    has written one file, at the path it reports (the given path, or the
    dated default path when none or an empty one is given): the header
    is the six required columns, followed by the nine additional ones
    when [includeAll] is set, and there is one record per row of the
    table, each with one field per column, the rows ordered by category,
    brand and product name.  The result reports the number of rows (at
    least one), the number of columns and the number of distinct
    categories, which is the number of groups that
    [getProductCountByCategory] returns.  Table and log are untouched. *)
Theorem exportToCsv_written_file outputPath includeAll (w : World E) r w' :
  Gateway.exportToCsv outputPath includeAll w = (JS.Ok r, w') ->
  let cols := export_columns includeAll in
  exists e1 ordered,
    env w' = writeFileSync (Gateway.filePath r)
               (Csv.mk cols (map (fun row => map (fun col => Gateway.column col row)
                                                 cols) ordered)) e1
    /\ Permutation ordered (rows (db w))
    /\ Sorted (fun a b => Gateway.row_leb a b = true) ordered
    /\ Forall (fun record => List.length record = List.length cols)
              (map (fun row => map (fun col => Gateway.column col row) cols) ordered)
    /\ Gateway.filePath r = export_path outputPath w
    /\ Gateway.totalProducts r = getTotalProductCount (db w)
    /\ 1 <= Gateway.totalProducts r
    /\ Gateway.columns r = (if includeAll then 15 else 6)
    /\ Gateway.categories r
       = Z.of_nat (List.length (getProductCountByCategory (db w)))
    /\ db w' = db w /\ logged w' = logged w.
Proof.
  intros Hrun cols.
  unfold Gateway.exportToCsv in Hrun. fold (export_path outputPath w) in Hrun.
  destruct (if existsSync (Gateway.dirname (export_path outputPath w)) (env w)
            then (JS.Ok tt, env w)
            else mkdirSync (Gateway.dirname (export_path outputPath w)) (env w))
    as [[[]|err] e1]; [|discriminate].
  pose proof (select_all_ordered_perm (db w)) as Hperm.
  pose proof (select_all_ordered_sorted (db w)) as Hsorted.
  destruct (Gateway.select_all_ordered (db w)) as [|r0 rs] eqn:Eo; [discriminate|].
  apply pair_equal_spec in Hrun. destruct Hrun as [Hr Hw].
  injection Hr as Hr. subst r w'.
  cbn [env db logged Gateway.filePath Gateway.totalProducts Gateway.columns
       Gateway.categories].
  exists e1, (r0 :: rs).
  fold (export_columns includeAll). fold cols.
  split; [reflexivity|]. split; [exact Hperm|]. split; [exact Hsorted|].
  split.
  { apply Forall_forall. intros record Hrec. apply in_map_iff in Hrec.
    destruct Hrec as [row [<- _]]. apply length_map. }
  split; [reflexivity|].
  assert (Hlen : S (List.length rs) = List.length (rows (db w))).
  { apply (Permutation_length Hperm). }
  split; [unfold getTotalProductCount; rewrite <- Hlen; reflexivity|].
  split; [lia|].
  split; [unfold cols, export_columns; now destruct includeAll|].
  split; [|split; reflexivity].
  assert (Hcat : Z.of_nat (List.length
                             (Gateway.distinct [] (map Row.category (r0 :: rs))))
                 = Z.of_nat (List.length (getProductCountByCategory (db w)))).
  { f_equal. unfold getProductCountByCategory.
    rewrite (Permutation_length (order_by_count_desc_perm _)).
    rewrite group_by_length.
    apply (distinct_length_perm (map Row.category (r0 :: rs))).
    now apply Permutation_map. }
  exact Hcat.
Qed.

End ExportLaws.


Lemma exportToCsv_written_file_witness :
  exists r w',
    @Gateway.exportToCsv _ Fixtures.plain_site None true Fixtures.stocked
    = (JS.Ok r, w')
    /\ Gateway.filePath r = "/srv/sysco-scraper/data/sysco_products_2025-01-15.csv"
    /\ Gateway.totalProducts r = 1
    /\ Gateway.columns r = 15
    /\ Gateway.categories r = 1.
Proof.
  pose proof (@exportToCsv_written_file _ Fixtures.plain_site None true
                Fixtures.stocked) as T.
  destruct (@Gateway.exportToCsv _ Fixtures.plain_site None true Fixtures.stocked)
    as [[r|e] w'] eqn:Hrun.
  - destruct (T r w' eq_refl)
      as [e1 [ordered [_ [_ [_ [_ [Hpath [Htotal [_ [Hcols [Hcat _]]]]]]]]]]].
    exists r, w'. split; [reflexivity|]. repeat split.
    + rewrite Hpath. reflexivity.
    + rewrite Htotal. reflexivity.
    + exact Hcols.
    + rewrite Hcat. reflexivity.
  - vm_compute in Hrun. discriminate.
Defined.

Lemma upsert_then_lookup_witness :
  let p := SyscoModels.sample "7012346" "Pears" "Sysco" "97209" in
  let q := Fixtures.in_category p "Produce" in
  exists r,
    Queries.getProductsByCategory (JS.Str "Produce") (Some 1)
      (snd (SyscoModels.upsertProduct 200 q JS.Null
              SyscoModels.store_with_other_location)) = [r]
    /\ SyscoModels.Row.sku r = Some "7012346"
    /\ SyscoModels.Row.updated_date r = 200.
Proof.
  cbv zeta.
  destruct (upsert_then_lookup 200
              (Fixtures.in_category (SyscoModels.sample "7012346" "Pears" "Sysco" "97209")
                 "Produce")
              JS.Null SyscoModels.store_with_other_location
              (SyscoModels.resolve_with 2 1)
              (snd (SyscoModels.upsertProduct 200
                      (Fixtures.in_category
                         (SyscoModels.sample "7012346" "Pears" "Sysco" "97209") "Produce")
                      JS.Null SyscoModels.store_with_other_location))
              "Produce" eq_refl eq_refl) as [_ Hfirst].
  destruct Hfirst as [r [Hr [Hs [_ [_ Hd]]]]].
  - intros r0 Hr0. vm_compute in Hr0. destruct Hr0 as [<-|[]]. reflexivity.
  - exists r. split; [exact Hr|]. split; [exact Hs | exact Hd].
Defined.

(* ================================================================== *)
(** * The retry policy: how often, how long, and when not at all *)
(* ================================================================== *)

Section BackoffLaws.
Import Async Helpers Probe.
Context {St : Type} `{Runtime St} {A : Type}.
Variable o : options.
Variable operation : M St A.

Lemma attempts_snoc a k : attempts a (S k) = (attempts a k ++ [a + Z.of_nat k])%list.
Proof.
  revert a. induction k as [|k IH]; intros a.
  - simpl. now rewrite Z.add_0_r.
  - change (attempts a (S (S k))) with (a :: attempts (a + 1) (S k)).
    rewrite IH. change (attempts a (S k)) with (a :: attempts (a + 1) k).
    replace (a + Z.of_nat (S k)) with (a + 1 + Z.of_nat k) by lia.
    reflexivity.
Qed.

Lemma total_app l1 l2 : total (l1 ++ l2) = total l1 + total l2.
Proof. unfold total. induction l1 as [|x l1 IH]; simpl; lia. Qed.

Lemma total_exponential b a k :
  1 <= a ->
  total (map (fun n => b * 2 ^ (n - 1)) (attempts a k))
  = b * 2 ^ (a - 1) * (2 ^ Z.of_nat k - 1).
Proof.
  intros Ha. induction k as [|k IH].
  - simpl. lia.
  - rewrite attempts_snoc, map_app, total_app, IH.
    cbn [map total fold_right].
    replace (Z.of_nat (S k)) with (Z.of_nat k + 1) by lia.
    replace (a + Z.of_nat k - 1) with ((a - 1) + Z.of_nat k) by lia.
    rewrite !Z.pow_add_r by lia. rewrite Z.pow_1_r. ring.
Qed.

Lemma map_constant {X} (b : Z) (l : list X) :
  map (fun _ => b) l = repeat b (List.length l).
Proof. induction l as [|x l IH]; simpl; [reflexivity|]. now rewrite IH. Qed.

Lemma attempts_length a k : List.length (attempts a k) = k.
Proof. revert a. induction k as [|k IH]; intros a; simpl; [reflexivity|]. now rewrite IH. Qed.

(** The loop under observation, when every invocation throws a
    retryable error. *)
Lemma observed_loop_always_failing :
  (forall s, exists e, fst (operation s) = JS.Throw e /\ retryCondition o e = true) ->
  forall fuel attempt lastError s obs,
    Z.of_nat (Datatypes.S fuel) = maxRetries o + 2 - attempt ->
    exists s' pre e,
      @retry_loop _ Runtime_observed _ (Datatypes.S fuel) (observe operation) o
         attempt lastError (s, obs)
        = (JS.Throw e,
           (s', mkObserved (invocations obs ++ pre ++ [JS.Throw e])%list
                  (waits obs ++ map (retryDelay_at o) (attempts attempt fuel))%list))
      /\ List.length pre = fuel
      /\ all_thrown pre.
Proof.
  intros Hfail.
  induction fuel as [|fuel IH]; intros attempt lastError s obs Hfuel.
  - rewrite (@retry_loop_S A o _ Runtime_observed).
    destruct (Z.leb_spec attempt (maxRetries o + 1)); [|lia].
    unfold observe. cbn [fst snd].
    destruct (Hfail s) as [e [He Hc]].
    destruct (operation s) as [r s1]. cbn in He. subst r. cbv zeta.
    rewrite Hc. cbn [negb orb].
    destruct (Z.leb_spec (maxRetries o + 1) attempt); [|lia].
    cbn. rewrite app_nil_r. eexists; exists [], e. repeat split. constructor.
  - rewrite (@retry_loop_S A o _ Runtime_observed).
    destruct (Z.leb_spec attempt (maxRetries o + 1)); [|lia].
    unfold observe. cbn [fst snd].
    destruct (Hfail s) as [e [He Hc]].
    destruct (operation s) as [r s1]. cbn in He. subst r. cbv zeta.
    rewrite Hc. cbn [negb orb].
    destruct (Z.leb_spec (maxRetries o + 1) attempt); [lia|].
    cbn [sleep write_log Runtime_observed fst snd invocations waits].
    match goal with
    | |- context [retry_loop (Datatypes.S fuel) _ o ?a ?le (?s2, ?obs2)] =>
        destruct (IH a le s2 obs2) as [s' [pre [e' [E [Hlen Hall]]]]]; [lia|]
    end.
    unfold observe in E. rewrite E. cbn [invocations waits].
    exists s', (JS.Throw e :: pre), e'. repeat split.
    + rewrite <- !app_assoc. reflexivity.
    + cbn. now rewrite Hlen.
    + constructor; [reflexivity | exact Hall].
Qed.


(** The loop under observation, when the operation fails [m] more times
    and then returns. *)
Lemma observed_loop_eventually_returns (counter : St -> nat) k a :
  Z.of_nat k <= maxRetries o ->
  (forall e s, counter (write_log e s) = counter s) ->
  (forall ms s, counter (sleep ms s) = counter s) ->
  (forall s, counter (snd (operation s)) = Datatypes.S (counter s)) ->
  (forall s, (counter s < k)%nat ->
             exists e, fst (operation s) = JS.Throw e /\ retryCondition o e = true) ->
  (forall s, counter s = k -> fst (operation s) = JS.Ok a) ->
  forall m fuel attempt lastError s obs,
    (counter s + m = k)%nat ->
    attempt = Z.of_nat (counter s) + 1 ->
    (m < fuel)%nat ->
    exists s' pre,
      @retry_loop _ Runtime_observed _ fuel (observe operation) o
         attempt lastError (s, obs)
        = (JS.Ok a,
           (s', mkObserved (invocations obs ++ pre ++ [JS.Ok a])%list
                  (waits obs ++ map (retryDelay_at o) (attempts attempt m))%list))
      /\ List.length pre = m
      /\ all_thrown pre
      /\ counter s' = Datatypes.S k.
Proof.
  intros Hk Hlog Hsleep Hstep Hfail Hok.
  induction m as [|m IH]; intros fuel attempt lastError s obs Hm Ha Hfuel;
    (destruct fuel as [|fuel]; [lia|]);
    rewrite (@retry_loop_S A o _ Runtime_observed);
    (destruct (Z.leb_spec attempt (maxRetries o + 1)); [|lia]);
    unfold observe; cbn [fst snd].
  - assert (Hc : counter s = k) by lia.
    pose proof (Hok s Hc) as Hr. pose proof (Hstep s) as Hs1.
    destruct (operation s) as [r s1]. cbn in Hr, Hs1. subst r.
    exists (if 1 <? attempt
            then write_log (Logger.mk Logger.info
                              "Operation successful after % attempts"
                              [Logger.N attempt]) s1
            else s1), [].
    split; [|split; [reflexivity|split; [constructor|]]].
    + destruct (1 <? attempt); cbn; rewrite app_nil_r; reflexivity.
    + destruct (1 <? attempt); [rewrite Hlog|]; lia.
  - assert (Hc : (counter s < k)%nat) by lia.
    destruct (Hfail s Hc) as [e [He Hre]]. pose proof (Hstep s) as Hs1.
    destruct (operation s) as [r s1]. cbn in He, Hs1. subst r. cbv zeta.
    rewrite Hre. cbn [negb orb].
    destruct (Z.leb_spec (maxRetries o + 1) attempt); [lia|].
    cbn [sleep write_log Runtime_observed fst snd invocations waits].
    match goal with
    | |- context [retry_loop fuel _ o ?a' ?le (?s2, ?obs2)] =>
        destruct (IH fuel a' le s2 obs2) as [s' [pre [E [Hlen [Hall Hcount]]]]]
    end.
    + rewrite Hsleep, !Hlog. lia.
    + rewrite Hsleep, !Hlog. lia.
    + lia.
    + unfold observe in E. rewrite E. cbn [invocations waits].
      exists s', (JS.Throw e :: pre). repeat split.
      * rewrite <- !app_assoc. reflexivity.
      * cbn. now rewrite Hlen.
      * constructor; [reflexivity | exact Hall].
      * exact Hcount.
Qed.

(** X13.  [retry] on an operation that recovers.  When the operation
    throws retryable errors at its first [k] invocations, [k] being at
    most [maxRetries], and returns [a] at the next one, [retry] returns
    [a] after exactly [k + 1] invocations, having waited after each of
    the [k] failures (the delays of the schedule) and not after the
    success; for [k = 0] the operation is invoked once and nothing is
    awaited.  The invocations are counted by a counter of the state that
    the operation increments and that the logger and the clock leave
    alone. *)
Theorem retry_returns_after_failures (counter : St -> nat) k a (s : St) :
  Z.of_nat k <= maxRetries o ->
  (forall e s, counter (write_log e s) = counter s) ->
  (forall ms s, counter (sleep ms s) = counter s) ->
  (forall s, counter (snd (operation s)) = Datatypes.S (counter s)) ->
  (forall s, (counter s < k)%nat ->
             exists e, fst (operation s) = JS.Throw e /\ retryCondition o e = true) ->
  (forall s, counter s = k -> fst (operation s) = JS.Ok a) ->
  counter s = 0%nat ->
  exists s' pre,
    observed_retry operation o s
      = (JS.Ok a, (s', mkObserved (pre ++ [JS.Ok a])%list (backoff o k)))
    /\ List.length pre = k
    /\ all_thrown pre
    /\ List.length (backoff o k) = k
    /\ counter s' = Datatypes.S k.
Proof.
  intros Hk Hlog Hsleep Hstep Hfail Hok H0. unfold observed_retry, retry.
  destruct (observed_loop_eventually_returns counter k a Hk Hlog Hsleep Hstep Hfail
              Hok k (Z.to_nat (maxRetries o + 1)) 1 None s nothing)
    as [s' [pre [E [Hlen [Hall Hcount]]]]]; try lia.
  exists s', pre. split; [exact E|]. repeat split; try assumption.
  unfold backoff. now rewrite length_map, attempts_length.
Qed.

End BackoffLaws.

Section RetryEdges.
Import Async Helpers Probe.

(** X14.  When [retry] does not retry.  (1) An error that
    [retryCondition] refuses ends the loop at once: the operation has
    been invoked once, nothing was awaited, and that error is thrown
    after the two log entries of a final failure.  (2) With a negative
    [maxRetries] the loop body never runs: the operation is not invoked
    at all, the state is untouched, and what is thrown is the
    [TypeError] of reading [lastError.message] on [undefined], not an
    error of the operation. *)
Theorem retry_without_retrying :
  (forall (St : Type) (R : Runtime St) (A : Type) (operation : M St A) o s e s1,
      0 <= maxRetries o ->
      operation s = (JS.Throw e, s1) ->
      retryCondition o e = false ->
      observed_retry operation o s
      = (JS.Throw e,
         (write_log (Logger.mk Logger.error "All retry attempts failed. Last error: %"
                       [Logger.S (JS.message e)])
            (write_log (Logger.mk Logger.warn "Attempt % failed: %"
                          [Logger.N 1; Logger.S (JS.message e)]) s1),
          mkObserved [JS.Throw e] [])))
  /\ (forall (St : Type) (R : Runtime St) (A : Type) (operation : M St A) o s,
        maxRetries o < 0 ->
        retry operation o s = (JS.Throw no_lastError, s)
        /\ observed_retry operation o s = (JS.Throw no_lastError, (s, nothing))).
Proof.
  split.
  - intros St R A operation o s e s1 Hn Hrun Hc.
    unfold observed_retry, retry.
    replace (Z.to_nat (maxRetries o + 1))
      with (Datatypes.S (Z.to_nat (maxRetries o))) by lia.
    rewrite (@retry_loop_S A o _ Runtime_observed).
    destruct (Z.leb_spec 1 (maxRetries o + 1)); [|lia].
    unfold observe. cbn [fst snd]. rewrite Hrun. cbv zeta. rewrite Hc. reflexivity.
  - intros St R A operation o s Hn. unfold observed_retry, retry.
    replace (Z.to_nat (maxRetries o + 1)) with 0%nat by lia.
    split; reflexivity.
Qed.

End RetryEdges.


Lemma retry_returns_after_failures_witness :
  exists s' pre,
    @Probe.observed_retry _ Helpers.Runtime_counter _ Helpers.third_time_lucky
       (Helpers.mkOptions 3 1000 true Helpers.shouldRetryError) 0%nat
      = (JS.Ok "done",
         (s', Probe.mkObserved (pre ++ [JS.Ok "done"])%list [1000; 2000]))
    /\ List.length pre = 2%nat.
Proof.
  destruct (@retry_returns_after_failures _ Helpers.Runtime_counter _
              (Helpers.mkOptions 3 1000 true Helpers.shouldRetryError)
              Helpers.third_time_lucky (fun n => n) 2%nat "done" 0%nat)
    as [s' [pre [E [Hlen _]]]].
  - simpl. lia.
  - reflexivity.
  - reflexivity.
  - intros s. unfold Helpers.third_time_lucky. now destruct (s <? 2)%nat.
  - intros s Hs. unfold Helpers.third_time_lucky.
    apply Nat.ltb_lt in Hs. rewrite Hs. eexists. split; reflexivity.
  - intros s ->. reflexivity.
  - reflexivity.
  - exists s', pre. split; [exact E | exact Hlen].
Defined.

(* ================================================================== *)
(** * How many products a page and a category can return *)
(* ================================================================== *)

Section YieldRules.
Import Async Puppeteer Run Scraper Laws Outcomes.
Context {E : Type} `{Driver E}.

Lemma yields_ret {A} (Q : A -> Prop) a : Q a -> yields Q (@ret (World E) A a).
Proof. intros Ha w b w' Hrun. inversion Hrun; subst. exact Ha. Qed.

Lemma yields_throw {A} (Q : A -> Prop) e : yields Q (@throw (World E) A e).
Proof. intros w b w' Hrun. discriminate. Qed.

Lemma yields_any {A} (m : M (World E) A) : yields (fun _ => True) m.
Proof. intros w a w' _. exact I. Qed.

Lemma yields_bind {A B} (Q1 : A -> Prop) (Q : B -> Prop)
    (m : M (World E) A) (k : A -> M (World E) B) :
  yields Q1 m -> (forall a, Q1 a -> yields Q (k a)) -> yields Q (Async.bind m k).
Proof.
  intros Hm Hk w b w' Hrun. unfold Async.bind in Hrun.
  destruct (m w) as [[a|e] w1] eqn:E1; [|discriminate].
  eapply Hk; [|exact Hrun]. eapply Hm; eauto.
Qed.

Lemma yields_try_catch {A} (Q : A -> Prop)
    (m : M (World E) A) (h : JS.error -> M (World E) A) :
  yields Q m -> (forall e, yields Q (h e)) -> yields Q (try_catch m h).
Proof.
  intros Hm Hh w a w' Hrun. unfold try_catch in Hrun.
  destruct (m w) as [[x|e] w1] eqn:E1.
  - inversion Hrun; subst. eapply Hm; eauto.
  - eapply Hh; eauto.
Qed.

Lemma yields_weaken {A} (Q Q' : A -> Prop) (m : M (World E) A) :
  (forall a, Q a -> Q' a) -> yields Q m -> yields Q' m.
Proof. intros HQ Hm w a w' Hrun. apply HQ. eapply Hm; eauto. Qed.

End YieldRules.

Ltac yields_skip := eapply yields_bind; [apply yields_any | intros ? _].

Section ProductBounds.
Import Async Puppeteer Run Scraper Laws Outcomes.
Context {E : Type} `{Driver E}.
Variable syscoConfig : Config.t.

Let maxProducts := Config.maxProductsPerCategory syscoConfig.
Let maxPages := Config.maxPagesPerCategory syscoConfig.

Lemma length_Z_app {A} (l1 l2 : list A) :
  length_Z (l1 ++ l2) = length_Z l1 + length_Z l2.
Proof. unfold length_Z. rewrite length_app. lia. Qed.

Lemma length_Z_nonneg {A} (l : list A) : 0 <= length_Z l.
Proof. unfold length_Z. lia. Qed.

Lemma products_loop_bound total productLinks : forall i categoryProducts,
  yields (fun r => length_Z r <= Z.max (length_Z categoryProducts) maxProducts)
         (products_loop syscoConfig total productLinks i categoryProducts).
Proof.
  induction productLinks as [|link rest IH]; intros i categoryProducts;
    cbn [products_loop].
  - apply yields_ret. lia.
  - fold maxProducts.
    destruct (Z.ltb_spec (length_Z categoryProducts) maxProducts) as [Hlt|Hge];
      [|apply yields_ret; lia].
    eapply yields_bind with
      (Q1 := fun r => length_Z r <= length_Z categoryProducts + 1).
    + apply yields_try_catch.
      * yields_skip. yields_skip. yields_skip. yields_skip.
        apply yields_ret. rewrite length_Z_app. unfold length_Z. simpl. lia.
      * intros e. yields_skip. yields_skip. apply yields_ret. lia.
    + intros r Hr. eapply yields_weaken; [|apply IH].
      cbv beta. intros r' Hr'. lia.
Qed.

Lemma scrapeProductsFromPage_bound categoryName pageNumber :
  yields (fun r => length_Z r <= Z.max 0 maxProducts)
         (scrapeProductsFromPage syscoConfig categoryName pageNumber).
Proof.
  unfold scrapeProductsFromPage.
  yields_skip. yields_skip.
  eapply yields_bind; [apply yields_any | intros productLinks _].
  yields_skip.
  destruct productLinks as [|link rest].
  - yields_skip. apply yields_ret. unfold length_Z. simpl. lia.
  - eapply yields_bind; [apply products_loop_bound|].
    cbv beta. intros r Hr. yields_skip. yields_skip.
    apply yields_ret. exact Hr.
Qed.

Lemma pages_loop_bound categoryName : forall fuel currentPage url all,
  yields (fun r => length_Z (fst r) <= Z.max (length_Z all) (2 * maxProducts - 1)
                   /\ length_Z (fst r)
                      <= length_Z all + Z.of_nat fuel * Z.max 0 maxProducts)
         (pages_loop syscoConfig fuel categoryName currentPage url all).
Proof.
  induction fuel as [|fuel IH]; intros currentPage url all; cbn [pages_loop].
  - apply yields_ret. simpl. lia.
  - fold maxProducts. fold maxPages.
    destruct (currentPage <=? maxPages); cbn [andb];
      [|apply yields_ret; cbn [fst]; nia].
    destruct (Z.ltb_spec (length_Z all) maxProducts) as [Hlt|Hge];
      [|apply yields_ret; cbn [fst]; nia].
    pose proof (length_Z_nonneg all) as H0.
    yields_skip.
    eapply yields_bind; [apply scrapeProductsFromPage_bound|].
    cbv beta. intros pageProducts Hpp.
    assert (Hall : length_Z (all ++ pageProducts) <= 2 * maxProducts - 1
                   /\ length_Z (all ++ pageProducts)
                      <= length_Z all + Z.max 0 maxProducts).
    { rewrite length_Z_app. lia. }
    destruct (maxPages <=? currentPage).
    + yields_skip. apply yields_ret. cbn [fst]. nia.
    + eapply yields_bind; [apply yields_any | intros hasNextPage _].
      destruct hasNextPage; cbn [negb].
      * eapply yields_bind; [apply yields_any | intros url' _].
        eapply yields_weaken; [|apply IH]. cbv beta. intros r [Hr1 Hr2].
        split; nia.
      * yields_skip. apply yields_ret. cbn [fst]. nia.
Qed.

Lemma scrapeCategory_bound categoryName :
  yields (fun r => length_Z r <= Z.max 0 (2 * maxProducts - 1)
                   /\ length_Z r <= Z.max 0 maxPages * Z.max 0 maxProducts)
         (scrapeCategory syscoConfig categoryName).
Proof.
  assert (Hnil : length_Z (@nil SyscoModels.ProductData.t)
                   <= Z.max 0 (2 * maxProducts - 1)
                 /\ length_Z (@nil SyscoModels.ProductData.t)
                    <= Z.max 0 maxPages * Z.max 0 maxProducts).
  { unfold length_Z. simpl. split; nia. }
  unfold scrapeCategory. yields_skip. yields_skip.
  destruct (Config.lookup categoryName (Config.categorySelectors syscoConfig))
    as [selector|]; [|yields_skip; now apply yields_ret].
  destruct (negb (JS.truthy selector)); [yields_skip; now apply yields_ret|].
  yields_skip.
  eapply yields_bind; [apply yields_any | intros categoryClicked _].
  destruct (negb categoryClicked); [yields_skip; now apply yields_ret|].
  yields_skip. yields_skip. yields_skip.
  eapply yields_bind; [apply yields_any | intros currentUrl _].
  yields_skip.
  eapply yields_bind; [apply pages_loop_bound|].
  cbv beta. intros [allCategoryProducts currentPage] [H1 H2]. cbn [fst] in H1, H2.
  yields_skip. yields_skip. apply yields_ret.
  fold maxPages in H2. change (length_Z []) with 0 in H1, H2.
  split; [lia|].
  replace (Z.of_nat (Z.to_nat maxPages)) with (Z.max 0 maxPages) in H2 by lia.
  lia.
Qed.

Lemma category_step_bound category all :
  yields (fun r => length_Z r
                   <= length_Z all
                      + Z.min (Z.max 0 (2 * maxProducts - 1))
                              (Z.max 0 maxPages * Z.max 0 maxProducts))
         (category_step syscoConfig category all).
Proof.
  unfold category_step. apply yields_try_catch.
  - eapply yields_bind; [apply scrapeCategory_bound|].
    cbv beta. intros categoryProducts [H1 H2].
    yields_skip. yields_skip. yields_skip. yields_skip. yields_skip.
    apply yields_ret. rewrite length_Z_app. lia.
  - intros e. yields_skip. apply yields_ret.
    pose proof (length_Z_nonneg all). nia.
Qed.

Lemma categories_loop_bound categories : forall all,
  yields (fun r => length_Z r
                   <= length_Z all
                      + length_Z categories
                        * Z.min (Z.max 0 (2 * maxProducts - 1))
                                (Z.max 0 maxPages * Z.max 0 maxProducts))
         (categories_loop syscoConfig categories all).
Proof.
  induction categories as [|c rest IH]; intros all; cbn [categories_loop].
  - apply yields_ret. unfold length_Z. cbn [length]. lia.
  - eapply yields_bind; [apply category_step_bound|].
    cbv beta. intros all' Hall. eapply yields_weaken; [|apply IH].
    cbv beta. intros r Hr.
    replace (length_Z (c :: rest)) with (1 + length_Z rest)
      by (unfold length_Z; cbn [length]; lia).
    nia.
Qed.

(** X15.  How many products a page and a category can return.  A call
    of [scrapeProductsFromPage] returns at most [maxProductsPerCategory]
    products.  A call of [scrapeCategory] returns at most
    [2 * maxProductsPerCategory - 1], since a page is started only while
    the category holds fewer than [maxProductsPerCategory] products and
    adds at most that many; it also returns at most
    [maxPagesPerCategory * maxProductsPerCategory].  With either limit
    zero or negative nothing is returned. *)
Theorem products_returned_bounded categoryName pageNumber (w : World E) :
  (forall r w',
      scrapeProductsFromPage syscoConfig categoryName pageNumber w = (JS.Ok r, w') ->
      length_Z r <= Z.max 0 maxProducts)
  /\ (forall r w',
        scrapeCategory syscoConfig categoryName w = (JS.Ok r, w') ->
        length_Z r <= Z.max 0 (2 * maxProducts - 1)
        /\ length_Z r <= Z.max 0 maxPages * Z.max 0 maxProducts).
Proof.
  split.
  - intros r w' Hrun. exact (scrapeProductsFromPage_bound _ _ _ _ _ Hrun).
  - intros r w' Hrun. exact (scrapeCategory_bound categoryName w r w' Hrun).
Qed.

(** X25.  How many products a whole run can return.  Whatever the site
    does, [scrapeAllCategories] returns at most, for each configured
    category, the smaller of [2 * maxProductsPerCategory - 1] and
    [maxPagesPerCategory * maxProductsPerCategory] products (limits
    below zero counting as zero). *)
Theorem run_returned_bounded (w : World E) r w' :
  scrapeAllCategories syscoConfig w = (JS.Ok r, w') ->
  length_Z r
  <= length_Z (Config.categories syscoConfig)
     * Z.min (Z.max 0 (2 * maxProducts - 1))
             (Z.max 0 maxPages * Z.max 0 maxProducts).
Proof.
  intros Hrun.
  exact (categories_loop_bound (Config.categories syscoConfig) [] w r w' Hrun).
Qed.

End ProductBounds.

Lemma products_returned_bounded_witness :
  let cfg := Config.syscoConfig (Scenario.limits 2 2) in
  exists r w',
    Scenario.walk cfg Scenario.one_then_two [] "Produce" = (JS.Ok r, w')
    /\ Scraper.length_Z r = 3
    /\ Scraper.length_Z r <= Z.max 0 (2 * Config.maxProductsPerCategory cfg - 1).
Proof.
  cbv zeta.
  pose proof (proj2 (@products_returned_bounded _
                       (Site.driver (Config.syscoConfig (Scenario.limits 2 2))
                          Scenario.one_then_two [])
                       (Config.syscoConfig (Scenario.limits 2 2)) "Produce" 1
                       Site.start)) as T.
  unfold Scenario.walk.
  destruct (@Scraper.scrapeCategory _
              (Site.driver (Config.syscoConfig (Scenario.limits 2 2))
                 Scenario.one_then_two [])
              (Config.syscoConfig (Scenario.limits 2 2)) "Produce" Site.start)
    as [[r|e] w'] eqn:Hrun.
  - exists r, w'. split; [reflexivity|]. split.
    + vm_compute in Hrun. inversion Hrun. reflexivity.
    + exact (proj1 (T r w' eq_refl)).
  - vm_compute in Hrun. discriminate.
Defined.

Lemma run_returned_bounded_witness :
  let cfg := Config.syscoConfig (Scenario.limits 2 2) in
  exists r w',
    Scenario.traverse cfg Scenario.one_then_two [] = (JS.Ok r, w')
    /\ Scraper.length_Z r
       <= Scraper.length_Z (Config.categories cfg)
          * Z.min (Z.max 0 (2 * Config.maxProductsPerCategory cfg - 1))
                  (Z.max 0 (Config.maxPagesPerCategory cfg)
                   * Z.max 0 (Config.maxProductsPerCategory cfg)).
Proof.
  cbv zeta. unfold Scenario.traverse.
  destruct (@Scraper.scrapeAllCategories _
              (Site.driver (Config.syscoConfig (Scenario.limits 2 2))
                 Scenario.one_then_two [])
              (Config.syscoConfig (Scenario.limits 2 2)) Site.start)
    as [[r|e] w'] eqn:Hrun.
  - exists r, w'. split; [reflexivity|].
    exact (@run_returned_bounded _
             (Site.driver (Config.syscoConfig (Scenario.limits 2 2))
                Scenario.one_then_two [])
             (Config.syscoConfig (Scenario.limits 2 2)) Site.start r w' Hrun).
  - vm_compute in Hrun. discriminate.
Defined.

(* ================================================================== *)
(** * The scripts that click, and the way back to the category list *)
(* ================================================================== *)

Section ClickScripts.
Import Scraper Outcomes.

Lemma find_clickable_self body el : find_clickable body el = Some el.
Proof.
  destruct el; cbn [find_clickable]. destruct (Dom.same_node _ body); [reflexivity|].
  now rewrite orb_true_r.
Qed.

(** X16.  Where the category click lands.  The script of
    [scrapeCategory] climbs from the matched label towards the body
    until it meets a node that is a button, a link, has an [onclick]
    handler or has an [addEventListener] method; every element has that
    method, so the climb ends where it starts: the click always goes to
    the matched element itself and never to an ancestor.  Without a
    match nothing is clicked and the script returns [false]; the script
    never returns [false] after a click. *)
Theorem categoryClick_script_target categorySelector d :
  match Dom.querySelector d categorySelector with
  | None => categoryClick_script categorySelector d = (JS.Ok false, [])
  | Some categoryElement =>
      find_clickable (Dom.body d) categoryElement = Some categoryElement
      /\ (Dom.click_throws categoryElement = false ->
          categoryClick_script categorySelector d
          = (JS.Ok true, [Dom.Click categoryElement]))
      /\ (Dom.click_throws categoryElement = true ->
          exists e, categoryClick_script categorySelector d = (JS.Throw e, []))
  end.
Proof.
  unfold categoryClick_script.
  destruct (Dom.querySelector d categorySelector) as [el|]; [|reflexivity].
  rewrite find_clickable_self. split; [reflexivity|].
  split; intros ->; destruct (negb (Dom.same_node el (Dom.body d))); eauto.
Qed.

(** X17.  The next-page script clicks exactly when it reports success.
    Whatever the document, a run that reports [success: true] has
    clicked exactly one button, one that is not disabled, and names its
    method and no reason; a run that reports [success: false] has
    touched nothing and names its reason ('button-disabled' or
    'no-buttons-found') and no method or page; a run that throws has
    touched nothing.  When the next button exists it alone decides: if
    it is unusable (disabled, [aria-disabled], or of class [disabled] or
    [inactive]) the answer is 'button-disabled' and the numbered buttons
    are not consulted. *)
Theorem nextPage_script_clicks pagination d :
  let run := nextPage_script pagination d in
  match fst run with
  | JS.Ok r =>
      if success r
      then (exists b, map clicked (filter is_click (snd run)) = [Some b]
                      /\ Dom.disabled b = false)
           /\ method r <> None /\ reason r = None
      else snd run = []
           /\ (reason r = Some "button-disabled" \/ reason r = Some "no-buttons-found")
           /\ method r = None /\ page r = None
  | JS.Throw _ => snd run = []
  end
  /\ (forall b, Dom.querySelector d (Config.Pagination.nextButton pagination) = Some b ->
        if usable b
        then exists m, fst run = JS.Ok (mkNext true (Some m) None None)
        else run = (JS.Ok (mkNext false None None (Some "button-disabled")), [])).
Proof.
  cbv zeta.
  set (P := fun run : JS.outcome nextPageClicked * list Dom.effect =>
    match fst run with
    | JS.Ok r =>
        if success r
        then (exists b, map clicked (filter is_click (snd run)) = [Some b]
                        /\ Dom.disabled b = false)
             /\ method r <> None /\ reason r = None
        else snd run = []
             /\ (reason r = Some "button-disabled"
                 \/ reason r = Some "no-buttons-found")
             /\ method r = None /\ page r = None
    | JS.Throw _ => snd run = []
    end).
  change (P (nextPage_script pagination d)
          /\ (forall b,
                Dom.querySelector d (Config.Pagination.nextButton pagination) = Some b ->
                if usable b
                then exists m,
                    fst (nextPage_script pagination d)
                    = JS.Ok (mkNext true (Some m) None None)
                else nextPage_script pagination d
                     = (JS.Ok (mkNext false None None (Some "button-disabled")), []))).
  unfold nextPage_script, usable.
  destruct (Dom.querySelector d (Config.Pagination.nextButton pagination))
    as [exactButton|].
  - destruct (Dom.disabled exactButton) eqn:Hdis; cbn [orb negb].
    + split; [unfold P; cbn; auto|]. intros b Hb. inversion Hb; subst b.
      rewrite Hdis. reflexivity.
    + destruct (negb _) eqn:Huse.
      * destruct (Dom.click_throws exactButton).
        -- split.
           ++ unfold P. cbn. split; [eauto|]. split; [discriminate | reflexivity].
           ++ intros b Hb. inversion Hb; subst b. rewrite Hdis. cbn [orb].
              rewrite Huse. eexists. reflexivity.
        -- split.
           ++ unfold P. cbn. split; [eauto|]. split; [discriminate | reflexivity].
           ++ intros b Hb. inversion Hb; subst b. rewrite Hdis. cbn [orb].
              rewrite Huse. eexists. reflexivity.
      * split; [unfold P; cbn; auto|].
        intros b Hb. inversion Hb; subst b. rewrite Hdis. cbn [orb].
        rewrite Huse. reflexivity.
  - split; [|intros b Hb; discriminate].
    assert (Hnone : P (JS.Ok (mkNext false None None (Some "no-buttons-found")), []))
      by (unfold P; cbn; auto).
    assert (Hnext : forall n : Z,
      P (match Dom.querySelector d
                 ("button[data-id="
                  ++ JS.quoted ("button_page_" ++ JS.string_of_Z n) ++ "]") with
         | Some nextPageButton =>
             if negb (Dom.disabled nextPageButton)
             then if Dom.click_throws nextPageButton
                  then (JS.Throw (JS.Error "click failed"), [])
                  else (JS.Ok (mkNext true (Some "numbered-pagination")
                                 (Some n) None),
                        [Dom.Click nextPageButton])
             else (JS.Ok (mkNext false None None (Some "no-buttons-found")), [])
         | None => (JS.Ok (mkNext false None None (Some "no-buttons-found")), [])
         end)).
    { intros n.
      destruct (Dom.querySelector d _) as [nextPageButton|]; [|exact Hnone].
      destruct (Dom.disabled nextPageButton) eqn:Hdis; cbn [negb]; [exact Hnone|].
      destruct (Dom.click_throws nextPageButton); [reflexivity|].
      unfold P. cbn. split; [eauto|]. split; [discriminate | reflexivity]. }
    destruct (Dom.querySelectorAll d (Config.Pagination.pageButtons pagination));
      [exact Hnone|].
    destruct (Dom.querySelector d _) as [active|]; [|apply Hnext].
    destruct (Dom.getAttribute active "data-id") as [id|]; [|reflexivity].
    destruct (JS.match_button_page id) as [digits|]; apply Hnext.
Qed.

End ClickScripts.

Section WayBack.
Import Async Puppeteer Run Scraper Laws Outcomes.
Context {E : Type} `{Driver E}.
Variable syscoConfig : Config.t.

Lemma fails_only_ret {A} (P : JS.error -> Prop) a :
  fails_only P (@ret (World E) A a).
Proof. intros w e w' Hrun. discriminate. Qed.

Lemma fails_only_throw {A} (P : JS.error -> Prop) e :
  P e -> fails_only P (@throw (World E) A e).
Proof. intros He w e' w' Hrun. inversion Hrun; subst. exact He. Qed.

Lemma fails_only_log (P : JS.error -> Prop) l template args :
  fails_only P (@log (World E) _ l template args).
Proof. intros w e w' Hrun. discriminate. Qed.

Lemma fails_only_bind {A B} (P : JS.error -> Prop)
    (m : M (World E) A) (k : A -> M (World E) B) :
  fails_only P m -> (forall a, fails_only P (k a)) -> fails_only P (Async.bind m k).
Proof.
  intros Hm Hk w e w' Hrun. unfold Async.bind in Hrun.
  destruct (m w) as [[a|e1] w1] eqn:E1.
  - eapply Hk; eauto.
  - inversion Hrun; subst. eapply Hm; eauto.
Qed.

Lemma fails_only_try_catch {A} (P : JS.error -> Prop)
    (m : M (World E) A) (h : JS.error -> M (World E) A) :
  (forall e, fails_only P (h e)) -> fails_only P (try_catch m h).
Proof.
  intros Hh w e w' Hrun. unfold try_catch in Hrun.
  destruct (m w) as [[a|e1] w1] eqn:E1; [discriminate|].
  eapply Hh; eauto.
Qed.

Lemma returns_try_catch_body {A} (Q : A -> Prop)
    (m : M (World E) A) (h : JS.error -> M (World E) A) :
  returns Q m -> returns Q (try_catch m h).
Proof.
  intros Hm w. destruct (Hm w) as [a [w1 [E1 Ha]]].
  exists a, w1. unfold try_catch. now rewrite E1.
Qed.

(** X18.  How [returnToCategoryListPage] can fail.  Whatever goes wrong
    on the way back (a navigation, a script, the page itself), the only
    error the function ever throws is "Could not return to category list
    page", and it throws it only after the last-resort navigation has
    failed too: when [page.goto] cannot fail, the function returns
    whatever else fails. *)
Theorem returnToCategoryListPage_failure (w : World E) :
  (forall e w',
      returnToCategoryListPage syscoConfig w = (JS.Throw e, w') ->
      e = JS.Error "Could not return to category list page")
  /\ ((forall t wu to e, exists e', goto t wu to e = (JS.Ok tt, e')) ->
      exists w', returnToCategoryListPage syscoConfig w = (JS.Ok tt, w')).
Proof.
  split.
  - revert w.
    change (fails_only (fun e => e = JS.Error "Could not return to category list page")
              (returnToCategoryListPage syscoConfig)).
    unfold returnToCategoryListPage.
    apply fails_only_bind; [apply fails_only_log|]. intros _.
    apply fails_only_try_catch. intros error.
    apply fails_only_bind; [apply fails_only_log|]. intros _.
    apply fails_only_try_catch. intros refreshError.
    apply fails_only_bind; [apply fails_only_log|]. intros _.
    now apply fails_only_throw.
  - intros Hgoto.
    assert (Hr : returns (fun _ => True) (returnToCategoryListPage syscoConfig)).
    { unfold returnToCategoryListPage.
      eapply returns_bind; [apply returns_log|]. intros _ _.
      apply returns_try_catch; [auto|]. intros error.
      eapply returns_bind; [apply returns_log|]. intros _ _.
      apply returns_try_catch_body.
      eapply returns_bind; [apply returns_log|]. intros _ _.
      eapply returns_bind; [now apply returns_page_goto|]. intros _ _.
      eapply returns_bind; [apply returns_delay|]. intros _ _.
      apply returns_log. }
    destruct (Hr w) as [[] [w' [Hrun _]]]. eauto.
Qed.

End WayBack.

(* ================================================================== *)
(** * A product page without a sku *)
(* ================================================================== *)

Section FailedExtraction.
Import Async Puppeteer Run Scraper Laws.
Context {E : Type} `{Driver E}.
Variable syscoConfig : Config.t.

Let retries := Config.Retry.maxRetries (Config.retry syscoConfig).
Let skuSelector := Config.ProductDetails.sku (Config.productDetails syscoConfig).
Let readMore :=
  Config.ProductDetails.readMoreButton (Config.productDetails syscoConfig).

Lemma shouldRetryError_extraction productUrl :
  Helpers.shouldRetryError
    (JS.Error ("Failed to extract details from: " ++ productUrl)) = true.
Proof.
  unfold Helpers.shouldRetryError. apply existsb_exists.
  exists "Failed to extract details". split.
  - unfold Helpers.retryableErrors. simpl. tauto.
  - apply orb_true_iff. right. reflexivity.
Qed.

(** One attempt on such a page: it throws, and leaves table and log as
    they were. *)
Lemma attempt_without_sku productUrl :
  (forall t wu to e, exists e', goto t wu to e = (JS.Ok tt, e')) ->
  (forall e, exists d,
      document_of e = JS.Ok d
      /\ Dom.querySelector d readMore = None
      /\ getTextBySelector d skuSelector = "") ->
  forall w, exists e',
    extractProductDetails_attempt syscoConfig productUrl w
    = (JS.Throw (JS.Error ("Failed to extract details from: " ++ productUrl)),
       mkWorld e' (db w) (logged w)).
Proof.
  intros Hgoto Hdoc w.
  unfold extractProductDetails_attempt, Async.bind, page_goto, on_env, delay,
    page_query, page_evaluate.
  destruct (Hgoto productUrl "networkidle2" (Some 25000) (env w)) as [e1 ->].
  cbn [sleep Runtime_World env db logged].
  destruct (Hdoc (time_passes
                    (Config.Delays.productDetails (Config.delays syscoConfig)) e1))
    as [d [-> [Hrm Hsku]]].
  fold readMore. rewrite Hrm. cbn [ret env db logged].
  destruct (Hdoc (time_passes
                    (Config.Delays.productDetails (Config.delays syscoConfig)) e1))
    as [d' [Hd' [_ Hsku']]].
  rewrite Hd'. unfold productDetails_script. fold skuSelector. rewrite Hsku'.
  cbn. eexists. reflexivity.
Qed.

Lemma retry_loop_on_failing_attempt productUrl (operation : M (World E) SyscoModels.ProductData.t) o :
  Helpers.maxRetries o = retries ->
  Helpers.retryCondition o = Helpers.shouldRetryError ->
  (forall w, exists e',
      operation w
      = (JS.Throw (JS.Error ("Failed to extract details from: " ++ productUrl)),
         mkWorld e' (db w) (logged w))) ->
  forall fuel attempt lastError w,
    Z.of_nat (S fuel) = retries + 2 - attempt ->
    exists w' l,
      Helpers.retry_loop (S fuel) operation o attempt lastError w
      = (JS.Throw (JS.Error ("Failed to extract details from: " ++ productUrl)), w')
      /\ db w' = db w
      /\ logged w' = (logged w ++ l)%list
      /\ Trace.count "Attempt % failed: %" l = S fuel
      /\ Trace.count "Waiting %ms before retry attempt %..." l = fuel
      /\ Trace.count "All retry attempts failed. Last error: %" l = 1%nat
      /\ Trace.count "Extracted product: % (SKU: %) - Pack: %, Weight: %" l = 0%nat.
Proof.
  intros Hmax Hcond Hop.
  induction fuel as [|fuel IH]; intros attempt lastError w Hfuel;
    rewrite retry_loop_S, Hmax;
    (destruct (Z.leb_spec attempt (retries + 1)); [|lia]);
    destruct (Hop w) as [e1 ->]; cbv zeta;
    rewrite Hcond, shouldRetryError_extraction; cbn [negb orb].
  - destruct (Z.leb_spec (retries + 1) attempt); [|lia].
    cbn. eexists; eexists. split; [reflexivity|]. split; [reflexivity|].
    split; [rewrite <- app_assoc; reflexivity|]. repeat split.
  - destruct (Z.leb_spec (retries + 1) attempt); [lia|].
    match goal with
    | |- context [Helpers.retry_loop (S fuel) _ o ?a ?le ?w2] =>
        destruct (IH a le w2) as [w' [l [Erun [Hdb [Hlog [C1 [C2 [C3 C4]]]]]]]]; [lia|]
    end.
    rewrite Erun. exists w'. eexists. split; [reflexivity|].
    split; [exact Hdb|]. split.
    + rewrite Hlog. cbn [logged sleep write_log Runtime_World].
      rewrite <- !app_assoc. reflexivity.
    + rewrite !count_app, C1, C2, C3, C4. repeat split.
Qed.

(** X19.  A product page without a sku.  When navigation works and the
    page shows neither a sku nor a read-more button,
    [extractProductDetails] makes [maxRetries + 1] attempts (an
    extraction failure is an error that [shouldRetryError] accepts,
    whatever the address), waits between them, and then throws "Failed
    to extract details from: " followed by the address; no product is
    extracted and the table is not touched. *)
Theorem extraction_failure_is_retried productUrl (w : World E) :
  0 <= retries ->
  (forall t wu to e, exists e', goto t wu to e = (JS.Ok tt, e')) ->
  (forall e, exists d,
      document_of e = JS.Ok d
      /\ Dom.querySelector d readMore = None
      /\ getTextBySelector d skuSelector = "") ->
  Helpers.shouldRetryError
    (JS.Error ("Failed to extract details from: " ++ productUrl)) = true
  /\ exists w' l,
       extractProductDetails syscoConfig productUrl w
       = (JS.Throw (JS.Error ("Failed to extract details from: " ++ productUrl)), w')
       /\ db w' = db w
       /\ logged w' = (logged w ++ l)%list
       /\ Z.of_nat (Trace.count "Attempt % failed: %" l) = retries + 1
       /\ Z.of_nat (Trace.count "Waiting %ms before retry attempt %..." l) = retries
       /\ Trace.count "All retry attempts failed. Last error: %" l = 1%nat
       /\ Trace.count "Extracted product: % (SKU: %) - Pack: %, Weight: %" l = 0%nat.
Proof.
  intros Hmax Hgoto Hdoc. split; [apply shouldRetryError_extraction|].
  unfold extractProductDetails, Helpers.retry. cbn [Helpers.maxRetries].
  fold retries.
  replace (Z.to_nat (retries + 1)) with (S (Z.to_nat retries)) by lia.
  destruct (retry_loop_on_failing_attempt productUrl
              (extractProductDetails_attempt syscoConfig productUrl)
              {| Helpers.maxRetries := retries;
                 Helpers.baseDelay := Config.Retry.baseDelay (Config.retry syscoConfig);
                 Helpers.exponentialBackoff := true;
                 Helpers.retryCondition := Helpers.shouldRetryError |}
              eq_refl eq_refl (attempt_without_sku productUrl Hgoto Hdoc)
              (Z.to_nat retries) 1 None w)
    as [w' [l [Erun [Hdb [Hlog [C1 [C2 [C3 C4]]]]]]]]; [lia|].
  exists w', l. split; [exact Erun|]. split; [exact Hdb|]. split; [exact Hlog|].
  rewrite C1, C2. repeat split; try assumption; lia.
Qed.

End FailedExtraction.

Lemma extraction_failure_is_retried_witness :
  let cfg := Config.syscoConfig Config.no_environment in
  let productUrl := "https://shop.sysco.com/app/product/product-details/1000001" in
  exists w' l,
    @Scraper.extractProductDetails _ Fixtures.blank_site cfg productUrl
       Site.same_page_start
    = (JS.Throw (JS.Error ("Failed to extract details from: " ++ productUrl)), w')
    /\ Run.logged w' = l
    /\ Z.of_nat (Trace.count "Attempt % failed: %" l) = 4.
Proof.
  cbv zeta.
  destruct (@extraction_failure_is_retried _ Fixtures.blank_site
              (Config.syscoConfig Config.no_environment)
              "https://shop.sysco.com/app/product/product-details/1000001"
              Site.same_page_start)
    as [_ [w' [l [Erun [_ [Hlog [H1 _]]]]]]].
  - vm_compute. discriminate.
  - intros t wu to e. eexists. reflexivity.
  - intros e. eexists. split; [reflexivity|]. split; reflexivity.
  - exists w', l. split; [exact Erun|]. split; [exact Hlog | exact H1].
Defined.

(* ================================================================== *)
(** * Reading numbers from the environment *)
(* ================================================================== *)

Ltac decimal_digit :=
  match goal with
  | |- context [Text.leading_digits 10 (String ?c ?s)] =>
      let v := eval vm_compute in (Text.digit_value c) in
      match v with
      | Some ?n =>
          change (Text.leading_digits 10 (String c s))
            with (n :: Text.leading_digits 10 s)
      end
  end.

Section DecimalText.

Lemma leading_digits_acc d : forall acc,
  fold_left (fun a v => a * 10 + v)
    (Text.leading_digits 10 (NilEmpty.string_of_uint d)) (Z.pos acc)
  = Z.pos (Pos.of_uint_acc d acc).
Proof.
  induction d; intros acc; cbn [NilEmpty.string_of_uint Pos.of_uint_acc];
    try reflexivity; decimal_digit; cbn [fold_left]; rewrite <- IHd;
    f_equal; lia.
Qed.

Lemma leading_digits_value d :
  Text.value_of 10 (Text.leading_digits 10 (NilEmpty.string_of_uint d))
  = Z.of_N (Pos.of_uint d).
Proof.
  unfold Text.value_of.
  induction d; cbn [NilEmpty.string_of_uint Pos.of_uint]; try reflexivity;
    decimal_digit; cbn [fold_left];
    first [exact IHd | apply leading_digits_acc].
Qed.

Lemma leading_digits_nonempty d :
  d <> Decimal.Nil ->
  Text.leading_digits 10 (NilEmpty.string_of_uint d) <> [].
Proof. destruct d; intros Hd; try congruence; cbn; discriminate. Qed.

Lemma integer_of_uint d :
  d <> Decimal.Nil ->
  Text.integer_of (NilEmpty.string_of_uint d) = Some (Z.of_N (Pos.of_uint d))
  /\ Text.integer_of (String "-" (NilEmpty.string_of_uint d))
     = Some (- Z.of_N (Pos.of_uint d)).
Proof.
  intros Hd.
  pose proof (leading_digits_value d) as Hv.
  pose proof (leading_digits_nonempty d Hd) as Hne.
  assert (Hplain : forall t,
             t = NilEmpty.string_of_uint d ->
             match t with
             | String "0" (String "x" r) => (16, r)
             | String "0" (String "X" r) => (16, r)
             | _ => (10, t)
             end = (10, t)).
  { intros t ->. destruct d as [|d|d|d|d|d|d|d|d|d|d]; try reflexivity;
      destruct d; reflexivity. }
  split.
  - unfold Text.integer_of.
    replace (JS.trim_start (NilEmpty.string_of_uint d))
      with (NilEmpty.string_of_uint d) by (destruct d; reflexivity).
    replace (match NilEmpty.string_of_uint d with
             | String "-" r => (-1, r)
             | String "+" r => (1, r)
             | _ => (1, NilEmpty.string_of_uint d)
             end) with (1, NilEmpty.string_of_uint d) by (destruct d; reflexivity).
    rewrite (Hplain _ eq_refl).
    destruct (Text.leading_digits 10 (NilEmpty.string_of_uint d)); [congruence|].
    rewrite Hv. f_equal; lia.
  - unfold Text.integer_of.
    change (JS.trim_start (String "-" (NilEmpty.string_of_uint d)))
      with (String "-" (NilEmpty.string_of_uint d)).
    cbv iota.
    rewrite (Hplain _ eq_refl).
    destruct (Text.leading_digits 10 (NilEmpty.string_of_uint d)); [congruence|].
    rewrite Hv. f_equal; lia.
Qed.

Lemma string_of_Z_cases n :
  match n with
  | 0 => JS.string_of_Z n = "0"
  | Z.pos p => JS.string_of_Z n = NilEmpty.string_of_uint (Pos.to_uint p)
  | Z.neg p => JS.string_of_Z n = String "-" (NilEmpty.string_of_uint (Pos.to_uint p))
  end.
Proof.
  destruct n as [|p|p]; [reflexivity| |]; unfold JS.string_of_Z; cbn [Z.to_int];
    unfold NilZero.string_of_int, NilZero.string_of_uint;
    pose proof (Unsigned.to_uint_nonnil p) as Hp;
    destruct (Pos.to_uint p); congruence.
Qed.

Lemma integer_of_string_of_Z n : Text.integer_of (JS.string_of_Z n) = Some n.
Proof.
  pose proof (string_of_Z_cases n) as Hs.
  destruct n as [|p|p]; rewrite Hs; [reflexivity| |];
    destruct (integer_of_uint (Pos.to_uint p) (Unsigned.to_uint_nonnil p))
      as [Hpos Hneg].
  - rewrite Hpos, Unsigned.of_to. reflexivity.
  - rewrite Hneg, Unsigned.of_to. reflexivity.
Qed.

Lemma number_of_exact n : Z.abs n <= 2 ^ 53 -> Text.number_of n = n.
Proof.
  intros Hn. unfold Text.number_of, Text.nearest_double.
  destruct (Z.leb_spec (Z.abs n) (2 ^ 53)) as [_|Hgt]; [lia|lia].
Qed.

Lemma parseInt_string_of_Z n :
  Z.abs n <= 2 ^ 53 -> Text.parseInt (JS.string_of_Z n) = Some n.
Proof.
  intros Hn. unfold Text.parseInt.
  now rewrite integer_of_string_of_Z, number_of_exact.
Qed.

End DecimalText.

Section EnvironmentLaws.
Import Environment.

Lemma number_or_nonzero v d : d <> 0 -> Config.number_or v d <> 0.
Proof.
  intros Hd. unfold Config.number_or. destruct v as [n|]; [|exact Hd].
  destruct (Z.eqb_spec n 0); [exact Hd | assumption].
Qed.

(** X21.  No numeric setting is ever 0.  Each numeric setting is
    [parseInt(variable) || default], and [0] is falsy like [NaN]: for
    every environment the eleven numeric settings of the scraper and the
    two dimensions of the viewport are different from 0.  A variable that
    is unset, not a number or 0 gives the default (so [MAX_RETRIES=0]
    means three retries and a delay of 0 cannot be configured), while any
    other number, negative ones included, is taken as it is.  With
    nothing set the settings are the documented defaults. *)
Theorem numeric_settings_never_zero env :
  Forall (fun n => n <> 0) (numeric_settings (scraping env))
  /\ viewport_width (puppeteer env) <> 0
  /\ viewport_height (puppeteer env) <> 0
  /\ (forall v d, number v = None \/ number v = Some 0 ->
                  Config.number_or (number v) d = d)
  /\ (forall v d n, number v = Some n -> n <> 0 ->
                    Config.number_or (number v) d = n)
  /\ Config.Retry.maxRetries (Config.retry (scraping env))
     = Config.number_or (number (MAX_RETRIES env)) 3
  /\ numeric_settings (scraping unset)
     = [10; 500; 3000; 2000; 500; 2000; 8000; 5000; 1000; 3; 2000].
Proof.
  split; [|split; [|split; [|split; [|split; [|split]]]]].
  - unfold numeric_settings, scraping, Config.syscoConfig. cbn.
    repeat constructor; apply number_or_nonzero; discriminate.
  - apply number_or_nonzero. discriminate.
  - apply number_or_nonzero. discriminate.
  - intros v d [-> | ->]; reflexivity.
  - intros v d n -> Hn. unfold Config.number_or.
    destruct (Z.eqb_spec n 0); [contradiction | reflexivity].
  - reflexivity.
  - reflexivity.
Qed.

(** X22.  Numbers survive being written and read.  For every integer
    [n] of magnitude at most [2 ^ 53] (the integers that a number holds
    exactly), [parseInt] reads the decimal text of [n] back as [n], so a
    variable set to that text gives the setting [n], except for [0],
    which gives the default.  Beyond [2 ^ 53] the text reads as the
    nearest double: the text of [2 ^ 53 + 1] reads as [2 ^ 53]. *)
Theorem parseInt_reads_back n :
  Z.abs n <= 2 ^ 53 ->
  Text.parseInt (JS.string_of_Z n) = Some n
  /\ (forall d, Config.number_or (number (Some (JS.string_of_Z n))) d
                = if n =? 0 then d else n)
  /\ Text.parseInt (JS.string_of_Z (2 ^ 53 + 1)) = Some (2 ^ 53).
Proof.
  intros Hn. split; [now apply parseInt_string_of_Z|]. split.
  - intros d. cbn [number]. rewrite parseInt_string_of_Z by exact Hn.
    reflexivity.
  - unfold Text.parseInt. rewrite integer_of_string_of_Z. reflexivity.
Qed.

End EnvironmentLaws.

Section NegativeRetries.
Import Async Puppeteer Run Scraper Outcomes.
Context {E : Type} `{Driver E}.
Variable env : Environment.t.

Let cfg := Environment.scraping env.

Lemma products_loop_all_fail total productLinks :
  (forall productUrl w,
      exists e, extractProductDetails cfg productUrl w = (JS.Throw e, w)) ->
  forall i,
    yields (fun r => r = []) (products_loop cfg total productLinks i []).
Proof.
  intros Hfail.
  induction productLinks as [|link rest IH]; intros i; cbn [products_loop].
  - now apply yields_ret.
  - destruct (length_Z [] <? Config.maxProductsPerCategory cfg);
      [|now apply yields_ret].
    eapply yields_bind with (Q1 := fun r => r = []).
    + apply yields_try_catch.
      * yields_skip. intros w0 x w1 Hrun. unfold Async.bind in Hrun.
        destruct (Hfail link w0) as [e He]. rewrite He in Hrun. discriminate.
      * intros e. yields_skip. yields_skip. now apply yields_ret.
    + intros r ->. apply IH.
Qed.

(** X23.  A negative [MAX_RETRIES] switches extraction off.  When the
    variable parses to a negative number, the retry loop of
    [extractProductDetails] never runs: for every address the function
    throws a [TypeError] without loading the page or touching anything,
    and whenever [scrapeProductsFromPage] returns, it returns no product
    at all. *)
Theorem negative_max_retries_disables_extraction s n :
  Environment.MAX_RETRIES env = Some s ->
  Text.parseInt s = Some n ->
  n < 0 ->
  (forall productUrl (w : World E),
      extractProductDetails cfg productUrl w = (JS.Throw Probe.no_lastError, w))
  /\ (forall categoryName pageNumber (w : World E) r w',
        scrapeProductsFromPage cfg categoryName pageNumber w = (JS.Ok r, w') ->
        r = []).
Proof.
  intros Hs Hp Hn.
  assert (Hmax : Config.Retry.maxRetries (Config.retry cfg) = n).
  { unfold cfg, Environment.scraping, Config.syscoConfig. cbn.
    rewrite Hs. cbn [Environment.number]. rewrite Hp. unfold Config.number_or.
    destruct (Z.eqb_spec n 0); [lia | reflexivity]. }
  assert (Hfail : forall productUrl (w : World E),
             extractProductDetails cfg productUrl w
             = (JS.Throw Probe.no_lastError, w)).
  { intros productUrl w. unfold extractProductDetails, Helpers.retry.
    cbn [Helpers.maxRetries]. rewrite Hmax.
    replace (Z.to_nat (n + 1)) with 0%nat by lia. reflexivity. }
  split; [exact Hfail|].
  intros categoryName pageNumber.
  change (yields (fun r => r = [])
            (scrapeProductsFromPage cfg categoryName pageNumber)).
  unfold scrapeProductsFromPage.
  yields_skip. yields_skip.
  eapply yields_bind; [apply yields_any | intros productLinks _].
  yields_skip.
  destruct productLinks as [|link rest].
  - yields_skip. now apply yields_ret.
  - eapply yields_bind.
    + apply products_loop_all_fail. intros productUrl w. eauto.
    + cbv beta. intros r ->. yields_skip. yields_skip. now apply yields_ret.
Qed.

End NegativeRetries.

Lemma negative_max_retries_disables_extraction_witness :
  let cfg := Environment.scraping Fixtures.retries_off in
  Config.Retry.maxRetries (Config.retry cfg) = -1
  /\ @Scraper.extractProductDetails _ Fixtures.plain_site cfg
       (Site.product_link "1000001") Site.start
     = (JS.Throw Probe.no_lastError, Site.start).
Proof.
  cbv zeta. split; [reflexivity|].
  apply (proj1 (@negative_max_retries_disables_extraction _ Fixtures.plain_site
                  Fixtures.retries_off "-1" (-1) eq_refl eq_refl eq_refl)).
Defined.

Lemma parseInt_reads_back_witness :
  Text.parseInt "-9007199254740992" = Some (- 2 ^ 53)
  /\ Config.number_or (Environment.number (Some "-9007199254740992")) 3 = - 2 ^ 53.
Proof.
  destruct (parseInt_reads_back (- 2 ^ 53) ltac:(vm_compute; congruence))
    as [Hread [Hset _]].
  split; [exact Hread | exact (Hset 3)].
Defined.

(* ================================================================== *)
(** * The numbered page buttons *)
(* ================================================================== *)

Section NumberedButtons.
Import Scraper.

Lemma substring_all s : String.substring 0 (String.length s) s = s.
Proof. induction s as [|c s IH]; simpl; [reflexivity|]. now rewrite IH. Qed.

Lemma substring_after p s :
  String.substring (String.length p) (String.length (p ++ s) - String.length p)
    (p ++ s) = s.
Proof.
  induction p as [|c p IH]; simpl.
  - rewrite Nat.sub_0_r. apply substring_all.
  - exact IH.
Qed.

Lemma prefix_app p s : String.prefix p (p ++ s) = true.
Proof.
  induction p as [|c p IH]; simpl.
  - now destruct s.
  - destruct (ascii_dec c c); [exact IH | congruence].
Qed.

Lemma take_digits_uint d :
  JS.take_digits (NilEmpty.string_of_uint d) = NilEmpty.string_of_uint d.
Proof. induction d; simpl; try reflexivity; now rewrite IHd. Qed.

Lemma parseInt_digits_acc d : forall acc,
  fold_left (fun a c => a * 10 + Z.of_nat (nat_of_ascii c - 48))
    (list_ascii_of_string (NilEmpty.string_of_uint d)) (Z.pos acc)
  = Z.pos (Pos.of_uint_acc d acc).
Proof.
  induction d; intros acc;
    cbn [NilEmpty.string_of_uint Pos.of_uint_acc list_ascii_of_string fold_left];
    try reflexivity; rewrite <- IHd; f_equal;
    match goal with
    | |- context [nat_of_ascii ?c] =>
        let v := eval vm_compute in (Z.of_nat (nat_of_ascii c - 48)) in
        change (Z.of_nat (nat_of_ascii c - 48)) with v
    end; lia.
Qed.

Lemma parseInt_digits_uint d :
  JS.parseInt_digits (NilEmpty.string_of_uint d) = Z.of_N (Pos.of_uint d).
Proof.
  unfold JS.parseInt_digits.
  induction d;
    cbn [NilEmpty.string_of_uint Pos.of_uint list_ascii_of_string fold_left];
    try reflexivity;
    match goal with
    | |- context [nat_of_ascii ?c] =>
        let v := eval vm_compute in (Z.of_nat (nat_of_ascii c - 48)) in
        change (Z.of_nat (nat_of_ascii c - 48)) with v
    end;
    first [exact IHd | apply parseInt_digits_acc].
Qed.

Lemma string_of_Z_nonneg n :
  0 <= n ->
  exists d, JS.string_of_Z n = NilEmpty.string_of_uint d
            /\ d <> Decimal.Nil /\ Z.of_N (Pos.of_uint d) = n.
Proof.
  intros Hn. pose proof (string_of_Z_cases n) as Hs.
  destruct n as [|p|p]; [|  |lia].
  - exists (Decimal.D0 Decimal.Nil).
    split; [exact Hs|]. split; [discriminate | reflexivity].
  - exists (Pos.to_uint p). split; [exact Hs|].
    split; [apply Unsigned.to_uint_nonnil|]. now rewrite Unsigned.of_to.
Qed.

Lemma page_number_reads_back n :
  0 <= n ->
  JS.match_button_page ("button_page_" ++ JS.string_of_Z n)
  = Some (JS.string_of_Z n)
  /\ JS.parseInt_digits (JS.string_of_Z n) = n.
Proof.
  intros Hn. destruct (string_of_Z_nonneg n Hn) as [d [Hs [Hd Hv]]].
  rewrite Hs. split; [|now rewrite parseInt_digits_uint].
  set (s := NilEmpty.string_of_uint d).
  assert (Hsub : String.substring 12 (String.length ("button_page_" ++ s) - 12)
                   ("button_page_" ++ s) = s)
    by exact (substring_after "button_page_" s).
  assert (Hne : String.eqb s "" = false)
    by (unfold s; destruct d; try congruence; reflexivity).
  assert (Hhere : (if String.prefix "button_page_" ("button_page_" ++ s)
                   then let ds :=
                          JS.take_digits
                            (String.substring 12
                               (String.length ("button_page_" ++ s) - 12)
                               ("button_page_" ++ s)) in
                        if String.eqb ds "" then None else Some ds
                   else None) = Some s).
  { rewrite (prefix_app "button_page_" s).
    cbv zeta. rewrite Hsub. unfold s at 1 2. rewrite take_digits_uint. fold s.
    now rewrite Hne. }
  change (JS.match_button_page ("button_page_" ++ s))
    with (match (if String.prefix "button_page_" ("button_page_" ++ s)
                 then let ds :=
                        JS.take_digits
                          (String.substring 12
                             (String.length ("button_page_" ++ s) - 12)
                             ("button_page_" ++ s)) in
                      if String.eqb ds "" then None else Some ds
                 else None) with
          | Some ds => Some ds
          | None => JS.match_button_page ("utton_page_" ++ s)
          end).
  now rewrite Hhere.
Qed.

(** X24.  The numbered page buttons.  The number of the current page
    survives being written into a [data-id] and read back: for every
    page number [n] from 0 up to, and not including, [2 ^ 53] (the range
    in which the numbers of the code are exact), the pattern
    [button_page_(\d+)] finds the decimal text of [n] in
    [button_page_n], and that text parses to [n].  So on a listing
    without a next button whose active page button is [button_page_n],
    the script looks for the button with the [data-id]
    [button_page_(n+1)] and, finding it enabled, clicks it and reports
    the page [n + 1]; finding it disabled it reports 'no-buttons-found'
    and clicks nothing. *)
Theorem numbered_pagination_advances pagination d n active next :
  0 <= n < 2 ^ 53 ->
  Dom.querySelector d (Config.Pagination.nextButton pagination) = None ->
  Dom.querySelectorAll d (Config.Pagination.pageButtons pagination) <> [] ->
  Dom.querySelector d
    (Config.Pagination.pageButtons pagination ++ ".active, "
     ++ Config.Pagination.pageButtons pagination ++ "[disabled]") = Some active ->
  Dom.getAttribute active "data-id" = Some ("button_page_" ++ JS.string_of_Z n) ->
  Dom.querySelector d
    ("button[data-id=" ++ JS.quoted ("button_page_" ++ JS.string_of_Z (n + 1)) ++ "]")
    = Some next ->
  JS.match_button_page ("button_page_" ++ JS.string_of_Z n)
    = Some (JS.string_of_Z n)
  /\ JS.parseInt_digits (JS.string_of_Z n) = n
  /\ nextPage_script pagination d
     = if Dom.disabled next
       then (JS.Ok (mkNext false None None (Some "no-buttons-found")), [])
       else if Dom.click_throws next
            then (JS.Throw (JS.Error "click failed"), [])
            else (JS.Ok (mkNext true (Some "numbered-pagination") (Some (n + 1)) None),
                  [Dom.Click next]).
Proof.
  intros [Hn _] Hnext Hall Hactive Hid Hbutton.
  destruct (page_number_reads_back n Hn) as [Hmatch Hparse].
  split; [exact Hmatch|]. split; [exact Hparse|].
  unfold nextPage_script. rewrite Hnext.
  destruct (Dom.querySelectorAll d (Config.Pagination.pageButtons pagination));
    [congruence|].
  rewrite Hactive, Hid, Hmatch, Hparse, Hbutton.
  destruct (Dom.disabled next); [reflexivity|].
  destruct (Dom.click_throws next); reflexivity.
Qed.

End NumberedButtons.

Lemma numbered_pagination_advances_witness :
  Scraper.nextPage_script
    (Config.pagination (Config.syscoConfig Config.no_environment))
    Fixtures.numbered_document
  = (JS.Ok (Scraper.mkNext true (Some "numbered-pagination") (Some 3) None),
     [Dom.Click (Fixtures.page_button 3 false)]).
Proof.
  apply (proj2 (proj2 (numbered_pagination_advances
                         (Config.pagination (Config.syscoConfig Config.no_environment))
                         Fixtures.numbered_document 2
                         (Fixtures.page_button 2 true) (Fixtures.page_button 3 false)
                         ltac:(split; vm_compute; congruence) eq_refl
                         ltac:(discriminate) eq_refl eq_refl
                         eq_refl))).
Defined.

(* ================================================================== *)
(** * One failing category *)
(* ================================================================== *)

Section Isolation.
Import Async Puppeteer Run Scraper Laws SyscoModels.
Context {E : Type} `{Driver E}.
Variable syscoConfig : Config.t.

Let betweenCategories := Config.Delays.betweenCategories (Config.delays syscoConfig).

(** The export selects every row: what is present in storage has its
    row among the rows exported. *)
Lemma stored_selected p d :
  stored p d = true ->
  exists row, In row (Gateway.select_all_ordered d) /\ row_of_product p row = true.
Proof.
  unfold stored. intros Hs. apply existsb_exists in Hs.
  destruct Hs as [row [Hrow Hp]]. exists row. split; [|exact Hp].
  apply (Permutation_in _ (Permutation_sym (select_all_ordered_perm d))), Hrow.
Qed.

Lemma exportToCsv_unchanged outputPath includeAll (w : World E) :
  db (snd (Gateway.exportToCsv outputPath includeAll w)) = db w.
Proof.
  exact (inv_exportToCsv unchanged unchanged_env outputPath includeAll w).
Qed.


End Isolation.


